(** * Feishu document-comment plugin: a shallow embedding of [plugin.ts]

    The development follows the source file top-down: the JSON shapes the
    plugin reads, the link extraction over index-document blocks, the calls
    to the collaborators (HTTP client, agent runtime, clock, state file),
    and the polling loop.  Strings are byte strings (UTF-8); the only string
    operations the plugin performs that look inside a string are ASCII
    pattern matching and percent-decoding, both of which act on bytes.
    Numbers the plugin computes with are doubles. *)

From Stdlib Require Import ZArith Ascii String.
From Corelib Require Import PrimFloat.
From stdpp Require Import base option list strings gmap.

#[local] Set Warnings "-clear-no-such-hyp".

(** ** Characters *)

Definition code (c : ascii) : N := N_of_ascii c.

Definition is_digit (c : ascii) : bool := ((48 <=? code c) && (code c <=? 57))%N.
Definition is_upper (c : ascii) : bool := ((65 <=? code c) && (code c <=? 90))%N.
Definition is_lower (c : ascii) : bool := ((97 <=? code c) && (code c <=? 122))%N.

(** The class [[a-zA-Z0-9]]. *)
Definition is_alnum (c : ascii) : bool := is_digit c || is_upper c || is_lower c.

Definition to_lower (c : ascii) : ascii :=
  if is_upper c then ascii_of_N (code c + 32) else c.

(** Character comparison under the [i] flag. *)
Definition ci_eqb (a b : ascii) : bool := Ascii.eqb (to_lower a) (to_lower b).

Definition hex_value (c : ascii) : option N :=
  if is_digit c then Some (code c - 48)%N
  else if ((65 <=? code c) && (code c <=? 70))%N then Some (code c - 55)%N
  else if ((97 <=? code c) && (code c <=? 102))%N then Some (code c - 87)%N
  else None.

(** ** [decodeURIComponent]

    The built-in replaces every [%XX] escape by the octet it denotes and
    throws [URIError] ([None]) on a malformed escape or on escaped octets
    that are not the UTF-8 encoding of a code point. *)

(** Number of leading one bits of an octet, capped at 5. *)
Definition leading_ones (b : N) : nat :=
  if (b <? 128)%N then 0
  else if (b <? 192)%N then 1
  else if (b <? 224)%N then 2
  else if (b <? 240)%N then 3
  else if (b <? 248)%N then 4
  else 5.

Definition in_range (lo hi b : N) : bool := ((lo <=? b) && (b <=? hi))%N.

(** Well-formed UTF-8 sequences of two to four octets. *)
Definition valid_utf8 (octets : list N) : bool :=
  match octets with
  | [b1; b2] => in_range 194 223 b1 && in_range 128 191 b2
  | [b1; b2; b3] =>
      in_range 128 191 b3 &&
      ((N.eqb b1 224 && in_range 160 191 b2)
       || (in_range 225 236 b1 && in_range 128 191 b2)
       || (N.eqb b1 237 && in_range 128 159 b2)
       || (in_range 238 239 b1 && in_range 128 191 b2))
  | [b1; b2; b3; b4] =>
      in_range 128 191 b3 && in_range 128 191 b4 &&
      ((N.eqb b1 240 && in_range 144 191 b2)
       || (in_range 241 243 b1 && in_range 128 191 b2)
       || (N.eqb b1 244 && in_range 128 143 b2))
  | _ => false
  end.

Fixpoint prepend (bs : list N) (s : string) : string :=
  match bs with
  | [] => s
  | b :: bs' => String (ascii_of_N b) (prepend bs' s)
  end.

(** [pend] is [Some (k, octets)] while [k] more continuation escapes of a
    multi-octet sequence are expected. *)
Fixpoint decode (pend : option (nat * list N)) (s : string) : option string :=
  match s with
  | EmptyString => match pend with None => Some EmptyString | Some _ => None end
  | String c s1 =>
      if Ascii.eqb c "%" then
        match s1 with
        | String h1 (String h2 s3) =>
            match hex_value h1, hex_value h2 with
            | Some a, Some b =>
                let B := (16 * a + b)%N in
                match pend with
                | None =>
                    match leading_ones B with
                    | 0 => String (ascii_of_N B) <$> decode None s3
                    | 2 => decode (Some (1, [B])) s3
                    | 3 => decode (Some (2, [B])) s3
                    | 4 => decode (Some (3, [B])) s3
                    | _ => None
                    end
                | Some (k, octets) =>
                    let octets' := (octets ++ [B])%list in
                    match k with
                    | 0 => None
                    | 1 => if valid_utf8 octets'
                           then prepend octets' <$> decode None s3
                           else None
                    | S k' => decode (Some (k', octets')) s3
                    end
                end
            | _, _ => None
            end
        | _ => None
        end
      else
        match pend with
        | None => String c <$> decode None s1
        | Some _ => None
        end
  end.

Definition decodeURIComponent (s : string) : option string := decode None s.

(** ** The pattern [/(?:docx?|wiki)\/([a-zA-Z0-9]+)/gi] *)

(** Consume the literal [pat] at the head of [s], ignoring case. *)
Fixpoint strip_ci (pat s : string) : option string :=
  match pat with
  | EmptyString => Some s
  | String p pat' =>
      match s with
      | String c s' => if ci_eqb p c then strip_ci pat' s' else None
      | EmptyString => None
      end
  end.

(** The ways the group [(?:docx?|wiki)] can match at the head of [s], in the
    order a backtracking matcher tries them: [docx] before [doc] (the [?] is
    greedy), then [wiki].  Each candidate is the matched length and the
    remaining input. *)
Definition group_candidates (s : string) : list (nat * string) :=
  match strip_ci "doc" s with
  | Some r =>
      match strip_ci "x" r with
      | Some r' => [(4, r'); (3, r)]
      | None => [(3, r)]
      end
  | None => []
  end
  ++
  match strip_ci "wiki" s with
  | Some r => [(4, r)]
  | None => []
  end.

(** Longest prefix of alphanumerics, and its length. *)
Fixpoint take_alnum (s : string) : string :=
  match s with
  | String c s' => if is_alnum c then String c (take_alnum s') else EmptyString
  | EmptyString => EmptyString
  end.

(** Continue after the group: [\/] then [([a-zA-Z0-9]+)]. *)
Definition match_tail (cand : nat * string) : option (string * nat) :=
  match strip_ci "/" cand.2 with
  | Some r =>
      let token := take_alnum r in
      match token with
      | EmptyString => None
      | _ => Some (token, cand.1 + 1 + String.length token)
      end
  | None => None
  end.

Fixpoint first_match (cands : list (nat * string)) : option (string * nat) :=
  match cands with
  | [] => None
  | cand :: rest =>
      match match_tail cand with
      | Some m => Some m
      | None => first_match rest
      end
  end.

(** A match starting exactly at the head of [s]: capture group 1 and the
    length of the whole match. *)
Definition match_here (s : string) : option (string * nat) :=
  first_match (group_candidates s).

(** The [while ((match = pattern.exec(s)) !== null)] loop with
    [lastIndex] starting at 0: all capture groups, left to right, each
    search resuming where the previous match ended.  [skip] counts the
    characters still covered by the previous match. *)
Fixpoint exec_all (skip : nat) (s : string) : list string :=
  match s with
  | EmptyString => []
  | String _ s' =>
      match skip with
      | S k => exec_all k s'
      | 0 =>
          match match_here s with
          | Some (token, len) => token :: exec_all (len - 1) s'
          | None => exec_all 0 s'
          end
      end
  end.

(** ** Index-document blocks *)

Record Link := { url : option string }.
Record TextElementStyle := { link : option Link }.
Record TextRun := { text : string; text_element_style : option TextElementStyle }.
Record Element := { text_run : option TextRun }.
Record Container := { elements : option (list Element) }.

Record Block := {
  blk_text : option Container;
  heading1 : option Container;
  heading2 : option Container;
  heading3 : option Container;
  heading4 : option Container;
  heading5 : option Container;
  heading6 : option Container;
  heading7 : option Container;
  heading8 : option Container;
  heading9 : option Container;
  bullet : option Container;
  ordered : option Container;
  page : option Container;
  callout : option Container;
  blk_quote : option Container
}.

(** JavaScript truthiness of a string. *)
Definition truthy (s : string) : bool :=
  match s with EmptyString => false | _ => true end.

(** [docTokens.includes(token)]. *)
Definition includes (l : list string) (x : string) : bool := bool_decide (x ∈ l).

(** The body of the [while] loop of [extractFromUrl], over the matches. *)
Fixpoint push_new (tokens : list string) (docTokens : list string) : list string :=
  match tokens with
  | [] => docTokens
  | token :: rest =>
      push_new rest (if includes docTokens token then docTokens else docTokens ++ [token])
  end.

(** [extractFromUrl]: [docTokens] is the array the closure mutates; [None]
    is the [URIError] of [decodeURIComponent]. *)
Definition extractFromUrl (u : string) (docTokens : list string) : option (list string) :=
  decodedUrl ← decodeURIComponent u;
  Some (push_new (exec_all 0 decodedUrl) docTokens).

(** [element.text_run?.text_element_style?.link?.url] *)
Definition linkUrl (element : Element) : option string :=
  tr ← text_run element; st ← text_element_style tr; l ← link st; url l.

Fixpoint processElements (els : list Element) (docTokens : list string)
  : option (list string) :=
  match els with
  | [] => Some docTokens
  | element :: rest =>
      match linkUrl element with
      | Some u =>
          if truthy u
          then docTokens' ← extractFromUrl u docTokens; processElements rest docTokens'
          else processElements rest docTokens
      | None => processElements rest docTokens
      end
  end.

Definition elementContainers (block : Block) : list (option Container) :=
  [ blk_text block; heading1 block; heading2 block; heading3 block;
    heading4 block; heading5 block; heading6 block; heading7 block;
    heading8 block; heading9 block; bullet block; ordered block;
    page block; callout block; blk_quote block ].

Fixpoint processContainers (cs : list (option Container)) (docTokens : list string)
  : option (list string) :=
  match cs with
  | [] => Some docTokens
  | container :: rest =>
      match container ≫= elements with
      | Some els =>
          docTokens' ← processElements els docTokens; processContainers rest docTokens'
      | None => processContainers rest docTokens
      end
  end.

Fixpoint processBlocks (blocks : list Block) (docTokens : list string)
  : option (list string) :=
  match blocks with
  | [] => Some docTokens
  | block :: rest =>
      docTokens' ← processContainers (elementContainers block) docTokens;
      processBlocks rest docTokens'
  end.

Definition extractDocLinks (blocks : list Block) : option (list string) :=
  processBlocks blocks [].

(** ** Comments, configuration and persisted state *)

Record ContentElement := {
  type : string;
  content_text_run : option string   (* [text_run?.text] *)
}.

Record FeishuReply := {
  reply_id : string;
  reply_user_id : string;
  reply_create_time : string;
  reply_content : option (list ContentElement)
}.

Record FeishuComment := {
  comment_id : string;
  create_time : string;
  update_time : string;
  is_solved : bool;
  solver_user_id : option string;
  reply_list : option (list FeishuReply);   (* [reply_list?.replies] *)
  content : option (list ContentElement);   (* [content?.elements] *)
  user_id : string;
  quote : option string
}.

(** JavaScript numbers that enter arithmetic or an ordering test (clock
    readings, durations, intervals) are IEEE 754 doubles, [float] with the
    kernel's operations.  Response codes are only tested against [0], for
    which an integer stands. *)
Record PluginConfig := {
  enabled : bool;
  pollIntervalMinutes : float;
  indexDocument : option string;
  watchedFiles : list string
}.

Record FeishuConfig := { appId : string; appSecret : string }.

(** [processedComments] is a JavaScript object used as a map from file
    token to the array of comment ids.  The map holds its own properties,
    which are what [JSON.stringify] writes and [JSON.parse] returns; what a
    lookup by key finds when there is no own property is
    [lookupProcessedIds] below. *)
Record ProcessedState := {
  lastPollTime : float;
  processedComments : gmap string (list string)
}.

(** What [state.json] holds on disk. *)
Inductive StateFile :=
| FileMissing
| FileUnparsable
| FileJson (st : ProcessedState).

(** ** Collaborators

    Bodies of the HTTP responses the plugin looks at, the agent runtime and
    the clock.  A rejected request is [None]. *)

Record TokenResponse := {
  token_code : Z; token_msg : string; tenant_access_token : string; expire : float
}.
Record CommentsResponse := {
  comments_code : Z; comments_msg : string; comments_items : option (list FeishuComment)
}.
Record BlocksResponse := {
  blocks_code : Z; blocks_msg : string; blocks_items : option (list Block)
}.
Record ReplyResponse := { reply_code : Z; reply_msg : string }.

Record AxiosInstance := { baseURL : string; authorization : string }.

(** [response] is absent when the resolved value has no such field. *)
Record AgentResult := { response : option string }.

Inductive InvokeResult :=
| InvokeRejected
| InvokeResolved (result : option AgentResult).   (* [None]: null or undefined *)

Record Collaborators (W : Type) := {
  axios_post_token : string → string → W → option TokenResponse * W;
  get_comments : AxiosInstance → string → string → W → option CommentsResponse * W;
  get_blocks : AxiosInstance → string → W → option BlocksResponse * W;
  post_reply : AxiosInstance → string → string → string → string → W → option ReplyResponse * W;
  runtime_invoke : string → W → InvokeResult * W;
  Date_now : W → float * W
}.
Arguments axios_post_token {W}.
Arguments get_comments {W}.
Arguments get_blocks {W}.
Arguments post_reply {W}.
Arguments runtime_invoke {W}.
Arguments Date_now {W}.

(** ** Observable trace

    Exchanges with the collaborators, writes of the state file and
    [console.error] diagnostics, in program order.  Progress messages
    printed with [console.log] are not recorded. *)

Inductive Diagnostic :=
| FailedToGetAccessToken
| FailedToGetComments (msg : string)
| FailedToGetDocContent (msg : string)
| ErrorGettingDocContent
| CouldNotReadIndexDocument
| FailedToReply (msg : string)
| ErrorReplyingToComment
| AgentInvocationFailed
| ErrorProcessingFile (fileToken : string).

Inductive Event :=
| EvTokenRequest (app_id app_secret : string) (r : option TokenResponse)
| EvGetComments (fileToken fileType : string) (r : option CommentsResponse)
| EvGetBlocks (fileToken : string) (r : option BlocksResponse)
| EvPostReply (fileToken commentId replyText fileType : string) (r : option ReplyResponse)
| EvInvoke (prompt : string) (r : InvokeResult)
| EvWriteState (st : ProcessedState)
| EvConsoleError (d : Diagnostic).

(** ** The effect monad: state passing with exceptions *)

Record Sys (W : Type) := {
  world : W;
  accessToken : option string;   (* module-level token cache *)
  tokenExpiry : float;
  stateFile : StateFile;
  trace : list Event
}.
Arguments world {W}.
Arguments accessToken {W}.
Arguments tokenExpiry {W}.
Arguments stateFile {W}.
Arguments trace {W}.

Inductive Completion (A : Type) :=
| Normal (a : A)
| Thrown.
Arguments Normal {A}.
Arguments Thrown {A}.

Definition M (W A : Type) : Type := Sys W → Completion A * Sys W.

#[global] Instance M_ret {W} : MRet (M W) := λ A a s, (Normal a, s).

#[global] Instance M_bind {W} : MBind (M W) :=
  λ A B k m s, match m s with
               | (Normal a, s') => k a s'
               | (Thrown, s') => (Thrown, s')
               end.

Definition throw {W A} : M W A := λ s, (Thrown, s).

(** [try { body } catch { handler }] *)
Definition try_catch {W A} (body handler : M W A) : M W A :=
  λ s, match body s with
       | (Normal a, s') => (Normal a, s')
       | (Thrown, s') => handler s'
       end.

Definition set_world {W} (w : W) (s : Sys W) : Sys W :=
  {| world := w; accessToken := accessToken s; tokenExpiry := tokenExpiry s;
     stateFile := stateFile s; trace := trace s |}.

Definition set_cache {W} (t : string) (e : float) (s : Sys W) : Sys W :=
  {| world := world s; accessToken := Some t; tokenExpiry := e;
     stateFile := stateFile s; trace := trace s |}.

Definition set_file {W} (f : StateFile) (s : Sys W) : Sys W :=
  {| world := world s; accessToken := accessToken s; tokenExpiry := tokenExpiry s;
     stateFile := f; trace := trace s |}.

Definition add_event {W} (e : Event) (s : Sys W) : Sys W :=
  {| world := world s; accessToken := accessToken s; tokenExpiry := tokenExpiry s;
     stateFile := stateFile s; trace := trace s ++ [e] |}.

(** Run a collaborator operation on the world. *)
Definition call {W R} (op : W → R * W) : M W R :=
  λ s, let '(r, w) := op (world s) in (Normal r, set_world w s).

Definition emit {W} (e : Event) : M W unit := λ s, (Normal tt, add_event e s).

Definition console_error {W} (d : Diagnostic) : M W unit := emit (EvConsoleError d).

(** An awaited request: recorded in the trace, thrown when rejected. *)
Definition request {W R} (op : W → option R * W) (ev : option R → Event) : M W R :=
  r ← call op;
  emit (ev r);;
  match r with
  | Some body => mret body
  | None => throw
  end.

Definition get_sys {W} : M W (Sys W) := λ s, (Normal s, s).
Definition modify {W} (f : Sys W → Sys W) : M W unit := λ s, (Normal tt, f s).

(** ** The plugin *)

(** The own property names of [Object.prototype].  Each holds a function
    or, for [__proto__], the prototype object: a truthy value that is not
    an array. *)
Definition object_prototype_names : list string :=
  [ "constructor"; "__defineGetter__"; "__defineSetter__"; "hasOwnProperty";
    "__lookupGetter__"; "__lookupSetter__"; "isPrototypeOf";
    "propertyIsEnumerable"; "toString"; "valueOf"; "__proto__";
    "toLocaleString" ].

Definition inherited (key : string) : bool := includes object_prototype_names key.

(** What [processedIds] is bound to at line 347: an array of comment ids,
    or a member inherited from [Object.prototype]. *)
Inductive ProcessedIds :=
| IdsArray (ids : list string)
| IdsInherited.

Definition LF : string := String "010" EmptyString.

Definition fallback_empty : string := "抱歉，我暂时无法处理这条评论。".
Definition fallback_error : string := "抱歉，处理评论时遇到了问题，请稍后再试。".

(** The placeholder the source compares reply authors with. *)
Definition bot_placeholder : string := "bot".

Section Plugin.

Context {W : Type}.
Variable env : Collaborators W.

Definition loadState : M W ProcessedState :=
  s ← get_sys;
  match stateFile s with
  | FileJson st => mret st
  | FileMissing | FileUnparsable =>
      mret {| lastPollTime := 0; processedComments := ∅ |}
  end.

Definition saveState (state : ProcessedState) : M W unit :=
  modify (set_file (FileJson state));;
  emit (EvWriteState state).

Definition extractTextFromContent (c : option (list ContentElement)) : string :=
  match c with
  | None => ""
  | Some els =>
      String.concat ""
        (omap (λ el,
           if String.eqb (type el) "textRun"
           then match content_text_run el with
                | Some t => if truthy t then Some t else None
                | None => None
                end
           else None) els)
  end.

Definition getTenantAccessToken (app_id app_secret : string) : M W string :=
  now ← call (Date_now env);
  s ← get_sys;
  match accessToken s with
  | Some t =>
      if truthy t && (now <? tokenExpiry s)%float then mret t
      else
        resp ← request (axios_post_token env app_id app_secret)
                       (EvTokenRequest app_id app_secret);
        if negb (token_code resp =? 0)%Z then throw
        else
          modify (set_cache (tenant_access_token resp)
                            (now + (expire resp - 60) * 1000)%float);;
          mret (tenant_access_token resp)
  | None =>
      resp ← request (axios_post_token env app_id app_secret)
                     (EvTokenRequest app_id app_secret);
      if negb (token_code resp =? 0)%Z then throw
      else
        modify (set_cache (tenant_access_token resp)
                          (now + (expire resp - 60) * 1000)%float);;
        mret (tenant_access_token resp)
  end.

Definition axios_create (token : string) : AxiosInstance :=
  {| baseURL := "https://open.feishu.cn"; authorization := "Bearer " +:+ token |}.

(** No [try] here: a rejected request is thrown to the caller. *)
Definition getFileComments (client : AxiosInstance) (fileToken : string)
  : M W (list FeishuComment) :=
  resp ← request (get_comments env client fileToken "docx")
                 (EvGetComments fileToken "docx");
  if negb (comments_code resp =? 0)%Z then
    console_error (FailedToGetComments (comments_msg resp));;
    mret []
  else mret (default [] (comments_items resp)).

(** [None] is the [null] result. *)
Definition getDocumentContent (client : AxiosInstance) (fileToken : string)
  : M W (option (list Block)) :=
  try_catch
    (resp ← request (get_blocks env client fileToken) (EvGetBlocks fileToken);
     if negb (blocks_code resp =? 0)%Z then
       console_error (FailedToGetDocContent (blocks_msg resp));;
       mret None
     else mret (Some (default [] (blocks_items resp))))
    (console_error ErrorGettingDocContent;;
     mret None).

Definition getWatchedFilesFromIndex (client : AxiosInstance) (indexDocToken : string)
  : M W (list string) :=
  blocks ← getDocumentContent client indexDocToken;
  match blocks with
  | None =>
      console_error CouldNotReadIndexDocument;;
      mret []
  | Some bs =>
      match extractDocLinks bs with
      | Some tokens => mret tokens
      | None => throw
      end
  end.

Definition replyToComment (client : AxiosInstance)
    (fileToken commentId replyText : string) : M W bool :=
  try_catch
    (resp ← request (post_reply env client fileToken commentId replyText "docx")
                    (EvPostReply fileToken commentId replyText "docx");
     if negb (reply_code resp =? 0)%Z then
       console_error (FailedToReply (reply_msg resp));;
       mret false
     else mret true)
    (console_error ErrorReplyingToComment;;
     mret false).

Definition make_prompt (commentText : string) (q : option string) : string :=
  match q with
  | Some qt =>
      if truthy qt then
        "用户在飞书文档中对以下内容划词评论：" +:+ LF +:+ LF +:+
        "引用内容：「" +:+ qt +:+ "」" +:+ LF +:+ LF +:+
        "评论：" +:+ commentText +:+ LF +:+ LF +:+ "请回复这条评论。"
      else
        "用户在飞书文档中发表了评论：" +:+ commentText +:+ LF +:+ LF +:+
        "请回复这条评论。"
  | None =>
      "用户在飞书文档中发表了评论：" +:+ commentText +:+ LF +:+ LF +:+
      "请回复这条评论。"
  end.

(** [result.response || fallback]; reading [response] off [null] or
    [undefined] throws inside the [try]. *)
Definition response_or_fallback (r : option AgentResult) : M W string :=
  match r with
  | None => throw
  | Some result =>
      match response result with
      | Some text => if truthy text then mret text else mret fallback_empty
      | None => mret fallback_empty
      end
  end.

Definition processCommentWithAgent (commentText : string) (q : option string)
  : M W string :=
  let prompt := make_prompt commentText q in
  try_catch
    (r ← call (runtime_invoke env prompt);
     emit (EvInvoke prompt r);;
     match r with
     | InvokeRejected => throw
     | InvokeResolved result => response_or_fallback result
     end)
    (console_error AgentInvocationFailed;;
     mret fallback_error).

(** [comment.reply_list?.replies?.some((r) => r.user_id === "bot")] *)
Definition hasOurReply (comment : FeishuComment) : bool :=
  match reply_list comment with
  | Some replies => existsb (λ r, String.eqb (reply_user_id r) bot_placeholder) replies
  | None => false
  end.

(** Body of the loop over the comments of one file; [processedIds] is the
    array the loop pushes to. *)
Definition forComment (client : AxiosInstance) (fileToken : string)
    (comment : FeishuComment) (processedIds : list string) : M W (list string) :=
  if includes processedIds (comment_id comment) then mret processedIds
  else if is_solved comment then mret (processedIds ++ [comment_id comment])
  else if hasOurReply comment then mret (processedIds ++ [comment_id comment])
  else
    let commentText := extractTextFromContent (content comment) in
    reply ← processCommentWithAgent commentText (quote comment);
    success ← replyToComment client fileToken (comment_id comment) reply;
    if (success : bool) then mret (processedIds ++ [comment_id comment])
    else mret processedIds.

Fixpoint forComments (client : AxiosInstance) (fileToken : string)
    (comments : list FeishuComment) (processedIds : list string)
  : M W (list string) :=
  match comments with
  | [] => mret processedIds
  | comment :: rest =>
      processedIds' ← forComment client fileToken comment processedIds;
      forComments client fileToken rest processedIds'
  end.

Definition set_processed (fileToken : string) (ids : list string)
    (state : ProcessedState) : ProcessedState :=
  {| lastPollTime := lastPollTime state;
     processedComments := <[fileToken := ids]> (processedComments state) |}.

(** The comment ids recorded for a file: the array under its own key, none
    without one. *)
Definition processed_ids (state : ProcessedState) (fileToken : string) : list string :=
  default [] (processedComments state !! fileToken).

(** [state.processedComments[fileToken] || []].  The object's prototype is
    [Object.prototype], so a key without an own property that names a
    member of the prototype finds that member. *)
Definition lookupProcessedIds (state : ProcessedState) (fileToken : string)
  : ProcessedIds :=
  match processedComments state !! fileToken with
  | Some ids => IdsArray ids
  | None => if inherited fileToken then IdsInherited else IdsArray []
  end.

(** Body of the loop over the watched files, with its [try]/[catch].  Two
    statements of the [try] block can throw, both before any push, so the
    handler sees the state as it was: the fetch, and the first
    [processedIds.includes] when [processedIds] is an inherited member
    ([includes] is not a function).  With an inherited member and no
    comment to look at, line 383 stores the member under its own name:
    [JSON.stringify] leaves a function out, and assigning
    [Object.prototype] to [__proto__] changes nothing, so the state reads
    and is written as before. *)
Definition forFile (client : AxiosInstance) (fileToken : string)
    (state : ProcessedState) : M W ProcessedState :=
  try_catch
    (comments ← getFileComments client fileToken;
     match lookupProcessedIds state fileToken with
     | IdsArray ids =>
         processedIds ← forComments client fileToken comments ids;
         mret (set_processed fileToken processedIds state)
     | IdsInherited =>
         match comments with
         | [] => mret state
         | _ :: _ => throw
         end
     end)
    (console_error (ErrorProcessingFile fileToken);;
     mret state).

Fixpoint forFiles (client : AxiosInstance) (files : list string)
    (state : ProcessedState) : M W ProcessedState :=
  match files with
  | [] => mret state
  | fileToken :: rest =>
      state' ← forFile client fileToken state;
      forFiles client rest state'
  end.

(** Lines 325-335: the watch list from the index document, else from the
    configuration. *)
Definition resolveWatchedFiles (config : PluginConfig) (client : AxiosInstance)
  : M W (list string) :=
  fromIndex ←
    match indexDocument config with
    | Some tok =>
        if truthy tok then getWatchedFilesFromIndex client tok else mret []
    | None => mret []
    end;
  if (length fromIndex =? 0) && (0 <? length (watchedFiles config))
  then mret (watchedFiles config)
  else mret fromIndex.

Definition pollDocumentComments (config : PluginConfig) (feishuConfig : FeishuConfig)
  : M W unit :=
  if negb (enabled config) then mret tt
  else
    state ← loadState;
    token ← getTenantAccessToken (appId feishuConfig) (appSecret feishuConfig);
    let client := axios_create token in
    watched ← resolveWatchedFiles config client;
    if length watched =? 0 then mret tt
    else
      state' ← forFiles client watched state;
      now ← call (Date_now env);
      saveState {| lastPollTime := now;
                   processedComments := processedComments state' |}.

End Plugin.

(** ** What one comment, one file and one cycle do, as relations on traces *)

(** The reply text [processCommentWithAgent] returns for an invocation
    result, and the diagnostics it prints. *)
Definition reply_of (r : InvokeResult) : string :=
  match r with
  | InvokeRejected => fallback_error
  | InvokeResolved None => fallback_error
  | InvokeResolved (Some result) =>
      match response result with
      | Some t => if truthy t then t else fallback_empty
      | None => fallback_empty
      end
  end.

Definition agent_diag (r : InvokeResult) : list Event :=
  match r with
  | InvokeResolved (Some _) => []
  | _ => [EvConsoleError AgentInvocationFailed]
  end.

(** Whether [replyToComment] returns [true] for a response. *)
Definition accepted (resp : option ReplyResponse) : bool :=
  match resp with
  | Some r => (reply_code r =? 0)%Z
  | None => false
  end.

Definition reply_diag (resp : option ReplyResponse) : list Event :=
  match resp with
  | Some r => if (reply_code r =? 0)%Z then []
              else [EvConsoleError (FailedToReply (reply_msg r))]
  | None => [EvConsoleError ErrorReplyingToComment]
  end.

(** The comments [getFileComments] returns for a response body. *)
Definition fetched (resp : CommentsResponse) : list FeishuComment :=
  if (comments_code resp =? 0)%Z then default [] (comments_items resp) else [].

Definition fetch_diag (resp : CommentsResponse) : list Event :=
  if (comments_code resp =? 0)%Z then []
  else [EvConsoleError (FailedToGetComments (comments_msg resp))].

Inductive CommentStep (f : string) (c : FeishuComment) (ids : list string)
  : list string → list Event → Prop :=
| step_skip :
    comment_id c ∈ ids →
    CommentStep f c ids ids []
| step_solved :
    comment_id c ∉ ids → is_solved c = true →
    CommentStep f c ids (ids ++ [comment_id c]) []
| step_replied :
    comment_id c ∉ ids → is_solved c = false → hasOurReply c = true →
    CommentStep f c ids (ids ++ [comment_id c]) []
| step_new r resp :
    comment_id c ∉ ids → is_solved c = false → hasOurReply c = false →
    CommentStep f c ids
      (if accepted resp then ids ++ [comment_id c] else ids)
      (EvInvoke (make_prompt (extractTextFromContent (content c)) (quote c)) r
         :: agent_diag r
         ++ EvPostReply f (comment_id c) (reply_of r) "docx" resp
         :: reply_diag resp).

Inductive CommentSteps (f : string) : list FeishuComment → list string
  → list string → list Event → Prop :=
| steps_nil ids : CommentSteps f [] ids ids []
| steps_cons c cs ids ids' ids'' evs evs' :
    CommentStep f c ids ids' evs →
    CommentSteps f cs ids' ids'' evs' →
    CommentSteps f (c :: cs) ids ids'' (evs ++ evs').

Inductive FileStep (f : string) (st : ProcessedState)
  : ProcessedState → list Event → Prop :=
| file_rejected :
    FileStep f st st
      [EvGetComments f "docx" None; EvConsoleError (ErrorProcessingFile f)]
| file_polled resp ids evs :
    lookupProcessedIds st f = IdsArray (processed_ids st f) →
    CommentSteps f (fetched resp) (processed_ids st f) ids evs →
    FileStep f st (set_processed f ids st)
      (EvGetComments f "docx" (Some resp) :: fetch_diag resp ++ evs)
| file_inherited resp :
    lookupProcessedIds st f = IdsInherited →
    FileStep f st st
      (EvGetComments f "docx" (Some resp) :: fetch_diag resp
         ++ match fetched resp with
            | [] => []
            | _ :: _ => [EvConsoleError (ErrorProcessingFile f)]
            end).

Inductive FileSteps : list string → ProcessedState → ProcessedState
  → list Event → Prop :=
| files_nil st : FileSteps [] st st []
| files_cons f fs st st' st'' evs evs' :
    FileStep f st st' evs →
    FileSteps fs st' st'' evs' →
    FileSteps (f :: fs) st st'' (evs ++ evs').

(** Events that touch neither comments nor the state file. *)
Definition preliminary (e : Event) : Prop :=
  match e with
  | EvTokenRequest _ _ _ | EvGetBlocks _ _ | EvConsoleError _ => True
  | _ => False
  end.

Section Traces.

Context {W : Type}.
Implicit Types s : Sys W.

Definition run {A} (m : M W A) (s : Sys W)
    (R : Completion A → Sys W → list Event → Prop) : Prop :=
  ∃ evs, trace (m s).2 = trace s ++ evs ∧ R (m s).1 (m s).2 evs.

(** The events a run added to the trace. *)
Definition events_since (s s' : Sys W) : list Event :=
  drop (length (trace s)) (trace s').

(** What [loadState] returns from [s]. *)
Definition persisted (s : Sys W) : ProcessedState :=
  match stateFile s with
  | FileJson st => st
  | _ => {| lastPollTime := 0; processedComments := ∅ |}
  end.

(** A run that leaves the state file alone and talks to nobody about
    comments. *)
Definition quiet {A} (m : M W A) : Prop :=
  ∀ s, run m s (λ _ s' evs, stateFile s' = stateFile s ∧ Forall preliminary evs).

(** What a poll cycle amounts to: either nothing beyond the preliminaries
    happened and the state file is as it was, or the watched files were
    polled in order from the loaded state and the result was written. *)
Inductive Cycle (s s' : Sys W) : list Event → Prop :=
| cycle_idle evs :
    stateFile s' = stateFile s →
    Forall preliminary evs →
    Cycle s s' evs
| cycle_saved watched st' now pre evs :
    Forall preliminary pre →
    FileSteps watched (persisted s) st' evs →
    stateFile s' =
      FileJson {| lastPollTime := now; processedComments := processedComments st' |} →
    Cycle s s'
      (pre ++ evs ++
       [EvWriteState {| lastPollTime := now;
                        processedComments := processedComments st' |}]).

End Traces.

Section TraceConditions.

Implicit Types (f g id : string) (c : FeishuComment) (ids : list string)
  (evs : list Event) (st : ProcessedState).

(** A reply to comment [id] of file [f] was posted and accepted. *)
Definition posted_ok f id evs : Prop :=
  ∃ text ft resp, EvPostReply f id text ft resp ∈ evs ∧ accepted resp = true.

(** Why a comment ends up recorded without being there before. *)
Definition settles f c evs : Prop :=
  is_solved c = true ∨ hasOurReply c = true ∨ posted_ok f (comment_id c) evs.

(** Comment [id] of file [g] was fetched in a form that settles it. *)
Definition recorded_by g id evs : Prop :=
  ∃ resp c, EvGetComments g "docx" (Some resp) ∈ evs ∧ c ∈ fetched resp ∧
            comment_id c = id ∧ settles g c evs.

(** Events other than generating or posting a reply. *)
Definition silent (e : Event) : Prop :=
  match e with
  | EvPostReply _ _ _ _ _ | EvInvoke _ _ => False
  | _ => True
  end.

(** Every fetched comment is already recorded in [st]. *)
Definition nothing_new st evs : Prop :=
  ∀ g ft resp c, EvGetComments g ft (Some resp) ∈ evs → c ∈ fetched resp →
                 comment_id c ∈ processed_ids st g.

(** The comment has a reply whose author is [who]. *)
Definition replied_by (who : string) (c : FeishuComment) : Prop :=
  ∃ replies r, reply_list c = Some replies ∧ r ∈ replies ∧ reply_user_id r = who.

End TraceConditions.

(** ** Checking trace conditions by computation *)

Definition fetched_in (f : string) (evs : list Event) : list FeishuComment :=
  flat_map (λ e,
    match e with
    | EvGetComments g _ (Some resp) => if String.eqb g f then fetched resp else []
    | _ => []
    end) evs.

Definition posts_in (f id : string) (evs : list Event) : list (option ReplyResponse) :=
  flat_map (λ e,
    match e with
    | EvPostReply g i _ _ resp =>
        if String.eqb g f && String.eqb i id then [resp] else []
    | _ => []
    end) evs.

Definition nothing_new_b (st : ProcessedState) (evs : list Event) : bool :=
  forallb (λ e,
    match e with
    | EvGetComments g _ (Some resp) =>
        forallb (λ c, includes (processed_ids st g) (comment_id c)) (fetched resp)
    | _ => true
    end) evs.

(** ** Building index blocks *)

(** Blocks given by what each of the fifteen container fields holds, in the
    order of [elementContainers]: 0 is [text], 1 to 9 the headings, 10
    [bullet], 11 [ordered], 12 [page], 13 [callout], 14 [quote]. *)
Definition block_of (slot : nat → option Container) : Block :=
  {| blk_text := slot 0; heading1 := slot 1; heading2 := slot 2;
     heading3 := slot 3; heading4 := slot 4; heading5 := slot 5;
     heading6 := slot 6; heading7 := slot 7; heading8 := slot 8;
     heading9 := slot 9; bullet := slot 10; ordered := slot 11;
     page := slot 12; callout := slot 13; blk_quote := slot 14 |}.

Definition single_block (field : nat) (c : Container) : Block :=
  block_of (λ i, if i =? field then Some c else None).

(** A text run showing [t] and linking to [u]. *)
Definition linked (t u : string) : Element :=
  {| text_run := Some {| text := t;
       text_element_style := Some {| link := Some {| url := Some u |} |} |} |}.

(** A text run showing [t], with no link style. *)
Definition plain (t : string) : Element :=
  {| text_run := Some {| text := t; text_element_style := None |} |}.

Definition container_of (els : list Element) : Container :=
  {| elements := Some els |}.

(** Rewriting the element lists of every container of a block. *)
Definition map_container (h : list Element → list Element) (c : Container) : Container :=
  {| elements := h <$> elements c |}.

Definition map_block (h : list Element → list Element) (b : Block) : Block :=
  {| blk_text := map_container h <$> blk_text b;
     heading1 := map_container h <$> heading1 b;
     heading2 := map_container h <$> heading2 b;
     heading3 := map_container h <$> heading3 b;
     heading4 := map_container h <$> heading4 b;
     heading5 := map_container h <$> heading5 b;
     heading6 := map_container h <$> heading6 b;
     heading7 := map_container h <$> heading7 b;
     heading8 := map_container h <$> heading8 b;
     heading9 := map_container h <$> heading9 b;
     bullet := map_container h <$> bullet b;
     ordered := map_container h <$> ordered b;
     page := map_container h <$> page b;
     callout := map_container h <$> callout b;
     blk_quote := map_container h <$> blk_quote b |}.

(** Replace the displayed text of a text run, keeping its style. *)
Definition retext (g : string → string) (e : Element) : Element :=
  {| text_run :=
       (λ tr, {| text := g (text tr);
                 text_element_style := text_element_style tr |}) <$> text_run e |}.

Definition has_link (e : Element) : bool :=
  match linkUrl e with Some _ => true | None => false end.

(** ** Concrete collaborators and scenarios

    The world is the clock in milliseconds; every collaborator answers
    from a fixed script. *)

Definition scripted
    (token : option TokenResponse)
    (blocks : string → option BlocksResponse)
    (comments : string → option CommentsResponse)
    (agent : InvokeResult)
    (post : string → string → option ReplyResponse) : Collaborators float :=
  {| axios_post_token := λ _ _ w, (token, w);
     get_comments := λ _ f _ w, (comments f, w);
     get_blocks := λ _ f w, (blocks f, w);
     post_reply := λ _ f id _ _ w, (post f id, w);
     runtime_invoke := λ _ w, (agent, w);
     Date_now := λ w, (w, (w + 1000)%float) |}.

Definition boot (file : StateFile) : Sys float :=
  {| world := 1700000000000%float; accessToken := None; tokenExpiry := 0;
     stateFile := file; trace := [] |}.

Definition token_ok : option TokenResponse :=
  Some {| token_code := 0; token_msg := "ok";
          tenant_access_token := "t-abc"; expire := 7200 |}.

Definition reply_ok : option ReplyResponse :=
  Some {| reply_code := 0; reply_msg := "success" |}.

Definition reply_denied : option ReplyResponse :=
  Some {| reply_code := 1069302%Z; reply_msg := "forbidden" |}.

Definition agent_says (t : string) : InvokeResult :=
  InvokeResolved (Some {| response := Some t |}).

Definition comments_ok (cs : list FeishuComment) : option CommentsResponse :=
  Some {| comments_code := 0; comments_msg := "success"; comments_items := Some cs |}.

Definition test_client : AxiosInstance := axios_create "t-abc".
Definition test_feishu : FeishuConfig := {| appId := "cli_a1"; appSecret := "secret" |}.

Definition reply_from (who : string) : FeishuReply :=
  {| reply_id := "r1"; reply_user_id := who; reply_create_time := "1700000000";
     reply_content := Some [{| type := "textRun"; content_text_run := Some "done" |}] |}.

Definition sample_comment (id : string) (solved : bool)
    (replies : option (list FeishuReply)) : FeishuComment :=
  {| comment_id := id; create_time := "1700000000"; update_time := "1700000000";
     is_solved := solved; solver_user_id := None; reply_list := replies;
     content := Some [{| type := "textRun"; content_text_run := Some "why?" |}];
     user_id := "ou_user"; quote := None |}.

(** An index whose heading and bullets mention the same documents more than
    once, one of the links percent-encoded. *)
Definition repeated_links : list Block :=
  [ single_block 2
      (container_of [linked "Design" "https://x.feishu.cn/docx/ABC123"]);
    single_block 10
      (container_of [linked "Wiki" "https://x.feishu.cn/wiki/XYZ789";
                     linked "Design again" "https%3A%2F%2Fx.feishu.cn%2Fdocx%2FABC123"]);
    single_block 10
      (container_of [linked "Wiki again" "https://x.feishu.cn/wiki/XYZ789?from=docx/ABC123"]) ].

Definition no_blocks : string → option BlocksResponse := λ _, None.

(** One watched document, [docA], with one open comment [c4]; the agent
    answers and the service accepts or refuses the reply. *)
Definition open_comment : FeishuComment :=
  sample_comment "c4" false (Some [reply_from "ou_someone"]).

Definition env_accepting : Collaborators float :=
  scripted token_ok no_blocks (λ _, comments_ok [open_comment])
    (agent_says "Because.") (λ _ _, reply_ok).

Definition env_refusing : Collaborators float :=
  scripted token_ok no_blocks (λ _, comments_ok [open_comment])
    (agent_says "Because.") (λ _ _, reply_denied).

Definition watch_docA : PluginConfig :=
  {| enabled := true; pollIntervalMinutes := 15; indexDocument := None;
     watchedFiles := ["docA"] |}.

(** A state file that already records [c1] for [docA]. *)
Definition docA_has_c1 : StateFile :=
  FileJson {| lastPollTime := 0; processedComments := {[ "docA" := ["c1"] ]} |}.

(** [docA] has the single comment [c1], which the state file already
    records. *)
Definition env_known : Collaborators float :=
  scripted token_ok no_blocks (λ _, comments_ok [sample_comment "c1" false None])
    (agent_says "Because.") (λ _ _, reply_ok).

Definition quiet0 : Sys float := boot docA_has_c1.
Definition quiet1 : Sys float := (pollDocumentComments env_known watch_docA test_feishu quiet0).2.
Definition quiet2 : Sys float := (pollDocumentComments env_known watch_docA test_feishu quiet1).2.

(** The service rejects the request for [docB] and answers for the others. *)
Definition env_docB_down : Collaborators float :=
  scripted token_ok no_blocks
    (λ f, if String.eqb f "docB" then None else comments_ok [open_comment])
    (agent_says "Because.") (λ _ _, reply_ok).

(** The index document [idx] mentions a document only in plain text. *)
Definition env_index_without_links : Collaborators float :=
  scripted token_ok
    (λ f, if String.eqb f "idx"
          then Some {| blocks_code := 0; blocks_msg := "success";
                       blocks_items :=
                         Some [single_block 0
                                 (container_of
                                    [plain "see https://x.feishu.cn/docx/ABC123"])] |}
          else None)
    (λ _, comments_ok [open_comment])
    (agent_says "Because.") (λ _ _, reply_ok).

Definition index_only : PluginConfig :=
  {| enabled := true; pollIntervalMinutes := 15; indexDocument := Some "idx";
     watchedFiles := [] |}.

Definition index_and_list : PluginConfig :=
  {| enabled := true; pollIntervalMinutes := 15; indexDocument := Some "idx";
     watchedFiles := ["docA"] |}.

(** The user id under which the application's own replies come back. *)
Definition agent_open_id : string := "ou_7d8a6e6df7621556ce0d21922b676706ccs".

Definition answered_by_agent : FeishuComment :=
  sample_comment "c9" false (Some [reply_from agent_open_id]).

(** [docA] holds three comments: [c1], which the state file of
    [docA_has_c1] records; [c2], solved; and [c9], unsolved, whose only
    reply is the application's own. *)
Definition env_own_reply : Collaborators float :=
  scripted token_ok no_blocks
    (λ _, comments_ok [sample_comment "c1" false None;
                       sample_comment "c2" true None;
                       answered_by_agent])
    (agent_says "Because.") (λ _ _, reply_ok).

(** The watch list names a document by a word that is also a member of
    [Object.prototype]. *)
Definition watch_constructor : PluginConfig :=
  {| enabled := true; pollIntervalMinutes := 15; indexDocument := None;
     watchedFiles := ["constructor"] |}.

(** ** Further definitions: link URLs, plugin start-up, trace views *)

(** [p] holds of every character of [s]. *)
Fixpoint all_chars (p : ascii → bool) (s : string) : bool :=
  match s with
  | EmptyString => true
  | String c s' => p c && all_chars p s'
  end.

Definition not_percent (c : ascii) : bool := negb (Ascii.eqb c "%").

Fixpoint lower (s : string) : string :=
  match s with
  | EmptyString => EmptyString
  | String c s' => String (to_lower c) (lower s')
  end.

(** Whether [s] is empty or starts with a character outside [[a-zA-Z0-9]]. *)
Definition token_ends (s : string) : bool :=
  match s with
  | EmptyString => true
  | String c _ => negb (is_alnum c)
  end.

(** What link extraction may return as a token. *)
Definition good_token (tok : string) : Prop :=
  tok ≠ "" ∧ all_chars is_alnum tok = true.

(** [p] reads [doc], [docx] or [wiki], in any letter case. *)
Definition keyword (p : string) : Prop :=
  lower p = "doc" ∨ lower p = "docx" ∨ lower p = "wiki".

Definition is_keyword (p : string) : bool :=
  String.eqb (lower p) "doc" || String.eqb (lower p) "docx"
  || String.eqb (lower p) "wiki".

Fixpoint has_keyword_suffix (s : string) : bool :=
  match s with
  | EmptyString => false
  | String _ s' => is_keyword s || has_keyword_suffix s'
  end.

Definition no_slash (c : ascii) : bool := negb (Ascii.eqb c "/").

(** The non-empty link URLs of a list of elements, of a container and of a
    block list, in the order [extractDocLinks] visits them. *)
Definition element_urls (els : list Element) : list string :=
  omap (λ e, match linkUrl e with
             | Some u => if truthy u then Some u else None
             | None => None
             end) els.

Definition container_urls (c : option Container) : list string :=
  match c ≫= elements with
  | Some els => element_urls els
  | None => []
  end.

Definition block_urls (b : Block) : list string :=
  flat_map container_urls (elementContainers b).

Definition link_urls (blocks : list Block) : list string :=
  flat_map block_urls blocks.

(** [extractFromUrl] over a list of URLs, threading [docTokens]. *)
Fixpoint extractFromUrls (urls : list string) (docTokens : list string)
  : option (list string) :=
  match urls with
  | [] => Some docTokens
  | u :: rest => docTokens' ← extractFromUrl u docTokens; extractFromUrls rest docTokens'
  end.

(** A JSON object in [config.json], read as [Partial<PluginConfig>]: a
    field that is present has the type the interface declares; a field
    that is [null] reads like a missing one, under [??] and under the
    truthiness test alike. *)
Record FileConfig := {
  file_enabled : option bool;
  file_pollIntervalMinutes : option float;
  file_indexDocument : option string;
  file_watchedFiles : option (list string)
}.

Definition no_fields : FileConfig :=
  {| file_enabled := None; file_pollIntervalMinutes := None;
     file_indexDocument := None; file_watchedFiles := None |}.

(** What [JSON.parse] returns for [config.json]: [null], an object, or
    another value (a number, a string, a boolean or an array). *)
Inductive ConfigValue :=
| ConfigNull
| ConfigObject (c : FileConfig)
| ConfigOther.

Inductive ConfigFile :=
| ConfigMissing
| ConfigUnparsable
| ConfigJson (v : ConfigValue).

Definition loadPluginConfig (file : ConfigFile) : ConfigValue :=
  match file with
  | ConfigJson v => v
  | ConfigMissing | ConfigUnparsable => ConfigObject no_fields
  end.

(** Reading a field of [fileConfig]: a [TypeError] on [null] ([None]);
    [undefined] for each of the three fields on a value that is not an
    object. *)
Definition fields (fileConfig : ConfigValue) : option FileConfig :=
  match fileConfig with
  | ConfigNull => None
  | ConfigObject c => Some c
  | ConfigOther => Some no_fields
  end.

(** The parts of [ctx.config] that [createPlugin] reads:
    [config.channels?.feishu?.appId], [...appSecret] and
    [config.plugins?.entries?.["feishu-doc-comment"]?.enabled]. *)
Record HostConfig := {
  host_appId : option string;
  host_appSecret : option string;
  host_enabled : option bool
}.

(** The two timers [createPlugin] sets, in milliseconds. *)
Record Schedule := { first_run_after_ms : float; repeat_every_ms : float }.

(** How [createPlugin] ends: with a [TypeError], without credentials,
    disabled, or with the timers set and the plugin descriptor returned. *)
Inductive Startup :=
| StartupThrown
| NotConfigured
| Disabled
| Started (pluginConfig : PluginConfig) (feishuConfig : FeishuConfig)
    (timers : Schedule) (name version : string).

(** [ctx_config] is [ctx.config], [None] when the context has no such
    object: [config.channels] then throws. *)
Definition createPlugin (ctx_config : option HostConfig) (file : ConfigFile) : Startup :=
  match ctx_config with
  | None => StartupThrown
  | Some config =>
      let feishuConfig :=
        {| appId := default "" (host_appId config);
           appSecret := default "" (host_appSecret config) |} in
      if negb (truthy (appId feishuConfig)) || negb (truthy (appSecret feishuConfig))
      then NotConfigured
      else
        match fields (loadPluginConfig file) with
        | None => StartupThrown
        | Some fileConfig =>
            let pluginConfig :=
              {| enabled := default true (host_enabled config);
                 pollIntervalMinutes :=
                   default 15%float (file_pollIntervalMinutes fileConfig);
                 indexDocument := file_indexDocument fileConfig;
                 watchedFiles := default [] (file_watchedFiles fileConfig) |} in
            if negb (enabled pluginConfig) then Disabled
            else
              Started pluginConfig feishuConfig
                {| first_run_after_ms := 10000;
                   repeat_every_ms :=
                     (pollIntervalMinutes pluginConfig * 60 * 1000)%float |}
                "feishu-doc-comment" "0.2.0"
        end
  end.

(** Whether [getTenantAccessToken] answers from the module-level cache at
    time [now]. *)
Definition cache_valid {W} (s : Sys W) (now : float) : bool :=
  match accessToken s with
  | Some t => truthy t && (now <? tokenExpiry s)%float
  | None => false
  end.

(** The file tokens of the comment fetches in a trace, in order. *)
Definition fetch_tokens (evs : list Event) : list string :=
  omap (λ e, match e with
             | EvGetComments f _ _ => Some f
             | _ => None
             end) evs.

(** The states written to the state file in a trace, in order. *)
Definition writes (evs : list Event) : list ProcessedState :=
  omap (λ e, match e with
             | EvWriteState st => Some st
             | _ => None
             end) evs.

(** Number of accepted replies to comment [id] of file [f] in a trace. *)
Definition accepted_posts (f id : string) (evs : list Event) : nat :=
  length (List.filter accepted (posts_in f id evs)).

(** The events of polling a file: the fetch, invocations, posts and
    diagnostics. *)
Definition file_event (e : Event) : Prop :=
  match e with
  | EvGetComments _ _ _ | EvInvoke _ _ | EvPostReply _ _ _ _ _
  | EvConsoleError _ => True
  | _ => False
  end.

(** Comment [id] of file [g] was fetched open: unsolved and without a
    reply of the placeholder author. *)
Definition fetched_open (g id : string) (evs : list Event) : Prop :=
  ∃ resp c, EvGetComments g "docx" (Some resp) ∈ evs ∧ c ∈ fetched resp ∧
            comment_id c = id ∧ is_solved c = false ∧ hasOurReply c = false.

(** A count that is 0 if [before] holds, is at most 1, and gives [after]
    when it is 1. *)
Definition at_most_once (n : nat) (before after : Prop) : Prop :=
  (before → n = 0) ∧ n ≤ 1 ∧ (n = 1 → after).

Section CycleOutcome.

Context {W : Type}.
Variable env : Collaborators W.
Implicit Types (s : Sys W) (evs : list Event).

(** What a cycle of an enabled plugin does, by how the token request and
    the resolution of the watch list end. *)
Definition cycle_outcome (config : PluginConfig) (fc : FeishuConfig) s
    (c : Completion unit) (s' : Sys W) evs : Prop :=
  let stopped := stateFile s' = stateFile s ∧ Forall preliminary evs in
  match getTenantAccessToken env (appId fc) (appSecret fc) s with
  | (Thrown, _) => c = Thrown ∧ stopped
  | (Normal token, s1) =>
      match (resolveWatchedFiles env config (axios_create token) s1).1 with
      | Thrown => c = Thrown ∧ stopped
      | Normal [] => c = Normal tt ∧ stopped
      | Normal watched =>
          c = Normal tt ∧
          ∃ pre polled st' now,
            Forall preliminary pre ∧
            FileSteps watched (persisted s) st' polled ∧
            evs = pre ++ polled ++
                  [EvWriteState {| lastPollTime := now;
                                   processedComments := processedComments st' |}] ∧
            stateFile s' =
              FileJson {| lastPollTime := now;
                          processedComments := processedComments st' |}
      end
  end.

(** Where a cycle stands when the loop over the watched files has ended,
    if it gets there (the plugin is enabled, the token is obtained and the
    resolved watch list is not empty): the state the loop built and the
    system just before line 389 reads the clock. *)
Definition after_polling (config : PluginConfig) (fc : FeishuConfig) s
  : option (ProcessedState * Sys W) :=
  if enabled config then
    match getTenantAccessToken env (appId fc) (appSecret fc) s with
    | (Normal token, s1) =>
        match resolveWatchedFiles env config (axios_create token) s1 with
        | (Normal watched, s2) =>
            if length watched =? 0 then None
            else
              match forFiles env (axios_create token) watched (persisted s) s2 with
              | (Normal st', s3) => Some (st', s3)
              | (Thrown, _) => None
              end
        | (Thrown, _) => None
        end
    | (Thrown, _) => None
    end
  else None.

(** A cycle that gets to polling rewrites the state file: the last event
    of the cycle is the write of the state the loop built, with
    [lastPollTime] the reading of the clock taken after the loop, and the
    file holds that state. *)
Definition rewrites_state_file (config : PluginConfig) (fc : FeishuConfig) s : Prop :=
  ∀ st' s3, after_polling config fc s = Some (st', s3) →
    let s' := (pollDocumentComments env config fc s).2 in
    let st := {| lastPollTime := (Date_now env (world s3)).1;
                 processedComments := processedComments st' |} in
    stateFile s' = FileJson st ∧ last (events_since s s') = Some (EvWriteState st).

(** The system after [n] consecutive poll cycles. *)
Fixpoint cycles (n : nat) (config : PluginConfig) (fc : FeishuConfig) s : Sys W :=
  match n with
  | 0 => s
  | S k => cycles k config fc (pollDocumentComments env config fc s).2
  end.

End CycleOutcome.

(** ** Further scenarios *)

(** A system whose token cache holds a token that is still valid. *)
Definition cached_boot : Sys float :=
  set_cache "t-cached" 1800000000000%float (boot FileMissing).

(** The token request is rejected. *)
Definition env_no_token : Collaborators float :=
  scripted None no_blocks (λ _, comments_ok [open_comment])
    (agent_says "Because.") (λ _ _, reply_ok).

(** A token whose lifetime, in milliseconds, is beyond the integers a
    double holds exactly. *)
Definition token_long_lived : TokenResponse :=
  {| token_code := 0; token_msg := "ok"; tenant_access_token := "t-long";
     expire := 9007199254740992 |}.

Definition env_long_lived : Collaborators float :=
  scripted (Some token_long_lived) no_blocks (λ _, comments_ok [open_comment])
    (agent_says "Because.") (λ _ _, reply_ok).

Definition blocks_ok (bs : list Block) : option BlocksResponse :=
  Some {| blocks_code := 0; blocks_msg := "success"; blocks_items := Some bs |}.

Definition blocks_denied : BlocksResponse :=
  {| blocks_code := 1770032%Z; blocks_msg := "forbidden"; blocks_items := None |}.

(** The index document [idx] links to two documents, more than once. *)
Definition env_index_with_links : Collaborators float :=
  scripted token_ok
    (λ f, if String.eqb f "idx" then blocks_ok repeated_links else None)
    (λ _, comments_ok [open_comment]) (agent_says "Because.") (λ _ _, reply_ok).

(** Reading any index document is refused with an error code. *)
Definition env_index_denied : Collaborators float :=
  scripted token_ok (λ _, Some blocks_denied)
    (λ _, comments_ok [open_comment]) (agent_says "Because.") (λ _ _, reply_ok).

(** The index document holds a link whose URL ends in a lone [%]. *)
Definition bad_link_blocks : list Block :=
  [ single_block 10
      (container_of [linked "Design" "https://x.feishu.cn/docx/ABC123%"]) ].

Definition env_index_bad_link : Collaborators float :=
  scripted token_ok (λ _, blocks_ok bad_link_blocks)
    (λ _, comments_ok [open_comment]) (agent_says "Because.") (λ _ _, reply_ok).

Definition watch_three : PluginConfig :=
  {| enabled := true; pollIntervalMinutes := 15; indexDocument := None;
     watchedFiles := ["docA"; "docB"; "docC"] |}.

Definition switched_off : PluginConfig :=
  {| enabled := false; pollIntervalMinutes := 15; indexDocument := None;
     watchedFiles := ["docA"] |}.

Definition host_ok : HostConfig :=
  {| host_appId := Some "cli_a1"; host_appSecret := Some "secret";
     host_enabled := None |}.

Definition default_config : PluginConfig :=
  {| enabled := true; pollIntervalMinutes := 15; indexDocument := None;
     watchedFiles := [] |}.

(** A [config.json] that asks for a poll every half minute. *)
Definition every_half_minute : FileConfig :=
  {| file_enabled := None; file_pollIntervalMinutes := Some 0.5%float;
     file_indexDocument := Some "idx"; file_watchedFiles := None |}.

Definition half_minute_config : PluginConfig :=
  {| enabled := true; pollIntervalMinutes := 0.5; indexDocument := Some "idx";
     watchedFiles := [] |}.

Definition half_minute_timers : Schedule :=
  {| first_run_after_ms := 10000; repeat_every_ms := 30000 |}.

(** ** Reasoning about runs

    [run m s R]: running [m] from [s] appends some events [evs] to the trace
    and [R] holds of the completion, the final state and [evs]. *)

Section Runs.

Context {W : Type}.
Implicit Types s : Sys W.

Lemma run_ret {A} (a : A) s R : R (Normal a) s [] → run (mret a) s R.
Proof. intros H. exists []. simpl. by rewrite app_nil_r. Qed.

Lemma run_throw {A} s (R : Completion A → Sys W → list Event → Prop) :
  R Thrown s [] → run throw s R.
Proof. intros H. exists []. simpl. by rewrite app_nil_r. Qed.

Lemma run_get s R : R (Normal s) s [] → run get_sys s R.
Proof. intros H. exists []. simpl. by rewrite app_nil_r. Qed.

Lemma run_emit e s R : R (Normal tt) (add_event e s) [e] → run (emit e) s R.
Proof. intros H. by exists [e]. Qed.

Lemma run_modify (f : Sys W → Sys W) s R :
  trace (f s) = trace s → R (Normal tt) (f s) [] → run (modify f) s R.
Proof. intros Ht H. exists []. simpl. by rewrite app_nil_r. Qed.

Lemma run_call {B} (op : W → B * W) s R :
  R (Normal (op (world s)).1) (set_world (op (world s)).2 s) [] → run (call op) s R.
Proof.
  intros H. exists []. unfold call. destruct (op (world s)) as [r w]; simpl in *.
  by rewrite app_nil_r.
Qed.

Lemma run_bind {A B} (m : M W A) (k : A → M W B) s R :
  run m s (λ c s1 evs1,
    match c with
    | Normal a => run (k a) s1 (λ c' s2 evs2, R c' s2 (evs1 ++ evs2))
    | Thrown => R Thrown s1 evs1
    end) →
  run (m ≫= k) s R.
Proof.
  intros (evs1 & Ht & H). unfold run, mbind, M_bind.
  destruct (m s) as [[a|] s1]; simpl in *.
  - destruct H as (evs2 & Ht2 & H). exists (evs1 ++ evs2).
    rewrite Ht2, Ht, app_assoc. done.
  - by exists evs1.
Qed.

Lemma run_try {A} (body handler : M W A) s R :
  run body s (λ c s1 evs1,
    match c with
    | Normal a => R (Normal a) s1 evs1
    | Thrown => run handler s1 (λ c' s2 evs2, R c' s2 (evs1 ++ evs2))
    end) →
  run (try_catch body handler) s R.
Proof.
  intros (evs1 & Ht & H). unfold run, try_catch.
  destruct (body s) as [[a|] s1]; simpl in *.
  - by exists evs1.
  - destruct H as (evs2 & Ht2 & H). exists (evs1 ++ evs2).
    rewrite Ht2, Ht, app_assoc. done.
Qed.

Lemma run_mono {A} (m : M W A) s (R R' : Completion A → Sys W → list Event → Prop) :
  run m s R → (∀ c s' evs, R c s' evs → R' c s' evs) → run m s R'.
Proof. intros (evs & Ht & H) HR. exists evs. auto. Qed.

Lemma run_and {A} (m : M W A) s (R R' : Completion A → Sys W → list Event → Prop) :
  run m s R → run m s R' → run m s (λ c s' evs, R c s' evs ∧ R' c s' evs).
Proof.
  intros (evs & Ht & H) (evs' & Ht' & H'). exists evs. split; [done|].
  rewrite Ht in Ht'. apply app_inv_head in Ht'. by subst.
Qed.

Lemma run_elim {A} (m : M W A) s R :
  run m s R → R (m s).1 (m s).2 (events_since s (m s).2).
Proof.
  intros (evs & Ht & H). unfold events_since. rewrite Ht, drop_app_length. done.
Qed.

End Runs.

Ltac run_step :=
  first
    [ apply run_bind
    | apply run_try
    | apply run_ret
    | apply run_throw
    | apply run_get
    | apply run_emit
    | apply run_call
    | apply run_modify; [reflexivity|] ].

Ltac run_steps := repeat (lazy beta iota; run_step); lazy beta iota.

(** ** The code satisfies the trace relations *)

Section Specs.

Context {W : Type}.
Variable env : Collaborators W.
Implicit Types s : Sys W.

Lemma loadState_eq s : loadState s = (Normal (persisted s), s).
Proof. unfold loadState, persisted, mbind, M_bind, get_sys. by destruct (stateFile s). Qed.

Lemma includes_true l x : includes l x = true ↔ x ∈ l.
Proof. unfold includes. apply bool_decide_eq_true. Qed.

Lemma includes_false l x : includes l x = false ↔ x ∉ l.
Proof. unfold includes. apply bool_decide_eq_false. Qed.

Lemma processCommentWithAgent_spec text q s :
  run (processCommentWithAgent env text q) s (λ c s' evs,
    ∃ r, c = Normal (reply_of r) ∧ stateFile s' = stateFile s ∧
         r = (runtime_invoke env (make_prompt text q) (world s)).1 ∧
         evs = EvInvoke (make_prompt text q) r :: agent_diag r).
Proof.
  unfold processCommentWithAgent, console_error.
  set (r := (runtime_invoke env (make_prompt text q) (world s)).1).
  do 3 run_step. fold r.
  destruct r as [|[result|]]; simpl.
  - run_steps. by exists InvokeRejected.
  - unfold response_or_fallback. run_steps.
    destruct (response result) as [t|] eqn:Hr; [destruct (truthy t) eqn:Ht|];
      run_steps; exists (InvokeResolved (Some result)); simpl; rewrite Hr, ?Ht; done.
  - unfold response_or_fallback. run_steps. by exists (InvokeResolved None).
Qed.

Lemma replyToComment_spec client f id text s :
  run (replyToComment env client f id text) s (λ c s' evs,
    ∃ resp, c = Normal (accepted resp) ∧ stateFile s' = stateFile s ∧
            resp = (post_reply env client f id text "docx" (world s)).1 ∧
            evs = EvPostReply f id text "docx" resp :: reply_diag resp).
Proof.
  unfold replyToComment, request, console_error.
  set (resp := (post_reply env client f id text "docx" (world s)).1).
  do 4 run_step. fold resp.
  destruct resp as [r|]; simpl.
  - run_steps. destruct (reply_code r =? 0)%Z eqn:Hc; simpl.
    + run_steps. exists (Some r). simpl. rewrite Hc. done.
    + run_steps. exists (Some r). simpl. rewrite Hc. done.
  - run_steps. by exists None.
Qed.

Lemma forComment_spec client f c ids s :
  run (forComment env client f c ids) s (λ cpl s' evs,
    stateFile s' = stateFile s ∧
    ∃ ids', cpl = Normal ids' ∧ CommentStep f c ids ids' evs).
Proof.
  unfold forComment.
  destruct (includes ids (comment_id c)) eqn:Hin.
  { run_steps. split; [done|]. exists ids. split; [done|].
    apply step_skip. by apply includes_true. }
  apply includes_false in Hin.
  destruct (is_solved c) eqn:Hsolved.
  { run_steps. split; [done|]. eexists. split; [done|]. by apply step_solved. }
  destruct (hasOurReply c) eqn:Hours.
  { run_steps. split; [done|]. eexists. split; [done|]. by apply step_replied. }
  run_step. eapply run_mono; [apply processCommentWithAgent_spec|].
  intros cpl s1 evs1 (r & -> & Hf1 & _ & ->). lazy beta iota.
  run_step. eapply run_mono; [apply replyToComment_spec|].
  intros cpl s2 evs2 (resp & -> & Hf2 & _ & ->). lazy beta iota.
  pose proof (step_new f c ids r resp Hin Hsolved Hours) as Hstep.
  destruct (accepted resp); run_steps; (split; [congruence|]);
    eexists; (split; [done|]); rewrite app_nil_r; exact Hstep.
Qed.

Lemma forComments_spec client f cs ids s :
  run (forComments env client f cs ids) s (λ cpl s' evs,
    stateFile s' = stateFile s ∧
    ∃ ids', cpl = Normal ids' ∧ CommentSteps f cs ids ids' evs).
Proof.
  revert ids s. induction cs as [|c cs IH]; intros ids s; simpl.
  { run_steps. split; [done|]. exists ids. split; [done|]. constructor. }
  run_step. eapply run_mono; [apply forComment_spec|].
  intros cpl s1 evs1 (Hf1 & ids1 & -> & Hstep). lazy beta iota.
  eapply run_mono; [apply IH|].
  intros cpl s2 evs2 (Hf2 & ids2 & -> & Hsteps).
  split; [congruence|]. exists ids2. split; [done|].
  by eapply steps_cons.
Qed.

Lemma getFileComments_spec client f s :
  run (getFileComments env client f) s (λ cpl s' evs,
    stateFile s' = stateFile s ∧
    match (get_comments env client f "docx" (world s)).1 with
    | Some resp =>
        cpl = Normal (fetched resp) ∧
        evs = EvGetComments f "docx" (Some resp) :: fetch_diag resp
    | None => cpl = Thrown ∧ evs = [EvGetComments f "docx" None]
    end).
Proof.
  unfold getFileComments, request, console_error, fetched, fetch_diag.
  set (r := (get_comments env client f "docx" (world s)).1).
  do 4 run_step. fold r.
  destruct r as [resp|]; simpl; run_steps; [|done].
  destruct (comments_code resp =? 0)%Z; simpl; run_steps; done.
Qed.

Lemma lookupProcessedIds_array st f ids :
  lookupProcessedIds st f = IdsArray ids →
  ids = processed_ids st f
  ∧ lookupProcessedIds st f = IdsArray (processed_ids st f).
Proof.
  unfold lookupProcessedIds, processed_ids.
  destruct (processedComments st !! f) as [l|]; simpl.
  - by intros [= ->].
  - destruct (inherited f); [done|]. by intros [= <-].
Qed.

Lemma forFile_spec client f st s :
  run (forFile env client f st) s (λ cpl s' evs,
    stateFile s' = stateFile s ∧
    ∃ st', cpl = Normal st' ∧ FileStep f st st' evs).
Proof.
  unfold forFile, console_error.
  do 2 run_step. eapply run_mono; [apply getFileComments_spec|].
  intros cpl s1 evs1 [Hf1 Hfetch].
  destruct ((get_comments env client f "docx" (world s)).1) as [resp|].
  - destruct Hfetch as [-> ->]. lazy beta iota.
    destruct (lookupProcessedIds st f) as [ids|] eqn:Hlook.
    + apply lookupProcessedIds_array in Hlook as [-> Hlook].
      run_step. eapply run_mono; [apply forComments_spec|].
      intros cpl s2 evs2 (Hf2 & ids2 & -> & Hsteps). run_steps.
      split; [congruence|]. eexists. split; [done|].
      rewrite app_nil_r. by apply (file_polled f st resp).
    + pose proof (file_inherited f st resp Hlook) as Hstep.
      destruct (fetched resp); run_steps; (split; [done|]);
        exists st; (split; [done|]); rewrite ?app_nil_r in *; exact Hstep.
  - destruct Hfetch as [-> ->]. run_steps.
    split; [done|]. exists st. split; [done|]. apply file_rejected.
Qed.

Lemma forFiles_spec client fs st s :
  run (forFiles env client fs st) s (λ cpl s' evs,
    stateFile s' = stateFile s ∧
    ∃ st', cpl = Normal st' ∧ FileSteps fs st st' evs).
Proof.
  revert st s. induction fs as [|f fs IH]; intros st s; simpl.
  { run_steps. split; [done|]. exists st. split; [done|]. constructor. }
  run_step. eapply run_mono; [apply forFile_spec|].
  intros cpl s1 evs1 (Hf1 & st1 & -> & Hstep). lazy beta iota.
  eapply run_mono; [apply IH|].
  intros cpl s2 evs2 (Hf2 & st2 & -> & Hsteps).
  split; [congruence|]. exists st2. split; [done|].
  by eapply files_cons.
Qed.

Lemma loadState_spec s :
  run loadState s (λ cpl s' evs, cpl = Normal (persisted s) ∧ s' = s ∧ evs = []).
Proof.
  unfold loadState, persisted. run_steps. destruct (stateFile s); by run_steps.
Qed.

Lemma preliminary_token a b r : preliminary (EvTokenRequest a b r).
Proof. exact I. Qed.
Lemma preliminary_blocks f r : preliminary (EvGetBlocks f r).
Proof. exact I. Qed.
Lemma preliminary_console d : preliminary (EvConsoleError d).
Proof. exact I. Qed.

Create HintDb prelim.
#[local] Hint Resolve preliminary_token preliminary_blocks preliminary_console : prelim.
#[local] Hint Constructors Forall : prelim.

Lemma getTenantAccessToken_quiet a b : quiet (getTenantAccessToken env a b).
Proof.
  intros s. unfold getTenantAccessToken, request. run_steps.
  set (s0 := set_world _ s).
  assert (run
    (r ← call (axios_post_token env a b);
     emit (EvTokenRequest a b r);;
     match r with Some body => mret body | None => throw end) s0
    (λ cpl s1 evs, stateFile s1 = stateFile s ∧ Forall preliminary evs)) as Hreq.
  { run_steps. destruct ((axios_post_token env a b (world s0)).1);
      run_steps; split; simpl; auto with prelim. }
  assert (run
    (resp ← (r ← call (axios_post_token env a b);
             emit (EvTokenRequest a b r);;
             match r with Some body => mret body | None => throw end);
     if negb (token_code resp =? 0)%Z then throw
     else
       modify (set_cache (tenant_access_token resp)
                 ((Date_now env (world s)).1 + (expire resp - 60) * 1000)%float);;
       mret (tenant_access_token resp)) s0
    (λ cpl s1 evs, stateFile s1 = stateFile s ∧ Forall preliminary evs)) as Hall.
  { run_steps. destruct ((axios_post_token env a b (world s0)).1) as [resp|];
      run_steps; [|split; simpl; auto with prelim].
    destruct (negb (token_code resp =? 0)%Z); run_steps;
      split; simpl; auto with prelim. }
  destruct (accessToken s0) as [t|]; [|exact Hall].
  destruct (truthy t && ((Date_now env (world s)).1 <? tokenExpiry s0)%float);
    [|exact Hall].
  run_steps. split; simpl; auto with prelim.
Qed.

Lemma getDocumentContent_quiet client f : quiet (getDocumentContent env client f).
Proof.
  intros s. unfold getDocumentContent, request, console_error. run_steps.
  destruct ((get_blocks env client f (world s)).1) as [resp|]; run_steps.
  - destruct (negb (blocks_code resp =? 0)%Z); run_steps;
      split; simpl; auto with prelim.
  - split; simpl; auto with prelim.
Qed.

Lemma getWatchedFilesFromIndex_quiet client tok :
  quiet (getWatchedFilesFromIndex env client tok).
Proof.
  intros s. unfold getWatchedFilesFromIndex, console_error. run_step.
  eapply run_mono; [apply getDocumentContent_quiet|].
  intros [[bs|]|] s1 evs1 [Hf Hp]; run_steps.
  - destruct (extractDocLinks bs); run_steps;
      (split; [done|]); rewrite ?app_nil_r; done.
  - split; [done|]. apply Forall_app. split; [done|]. simpl. auto with prelim.
  - done.
Qed.

Lemma resolveWatchedFiles_quiet config client :
  quiet (resolveWatchedFiles env config client).
Proof.
  intros s. unfold resolveWatchedFiles. run_step.
  assert (run
    match indexDocument config with
    | Some tok =>
        if truthy tok then getWatchedFilesFromIndex env client tok else mret []
    | None => mret []
    end s
    (λ _ s' evs, stateFile s' = stateFile s ∧ Forall preliminary evs)) as H.
  { destruct (indexDocument config) as [tok|]; [destruct (truthy tok)|];
      try (run_steps; split; [done|constructor]).
    apply getWatchedFilesFromIndex_quiet. }
  eapply run_mono; [exact H|].
  intros [fromIndex|] s1 evs1 [Hf Hp]; lazy beta iota; [|done].
  destruct ((length fromIndex =? 0) && (0 <? length (watchedFiles config)));
    run_steps; rewrite app_nil_r; done.
Qed.

Lemma pollDocumentComments_spec config fc s :
  run (pollDocumentComments env config fc) s (λ _ s' evs, Cycle s s' evs).
Proof.
  unfold pollDocumentComments.
  destruct (enabled config); simpl; [|run_steps; by apply cycle_idle].
  run_step. eapply run_mono; [apply loadState_spec|].
  intros cpl s0 evs0 (-> & -> & ->). lazy beta iota.
  run_step. eapply run_mono; [apply getTenantAccessToken_quiet|].
  intros [token|] s1 evs1 [Hf1 Hp1]; lazy beta iota; [|by apply cycle_idle].
  run_step. eapply run_mono; [apply resolveWatchedFiles_quiet|].
  intros [watched|] s2 evs2 [Hf2 Hp2]; lazy beta iota;
    [|apply cycle_idle; [congruence|simpl; by apply Forall_app]].
  destruct (length watched =? 0).
  { run_steps. apply cycle_idle; [congruence|].
    simpl. rewrite app_nil_r. by apply Forall_app. }
  run_step. eapply run_mono; [apply forFiles_spec|].
  intros cpl s3 evs3 (Hf3 & st' & -> & Hsteps). lazy beta iota.
  unfold saveState. run_steps. simpl.
  replace (evs1 ++ evs2 ++ evs3 ++ _)
    with ((evs1 ++ evs2) ++ evs3 ++
          [EvWriteState {| lastPollTime := (Date_now env (world s3)).1;
                           processedComments := processedComments st' |}])
    by (rewrite <- !app_assoc; done).
  eapply cycle_saved; [by apply Forall_app|exact Hsteps|done].
Qed.

End Specs.

(** ** Properties of the step relations *)

Section StepFacts.

Implicit Types (f g id : string) (c : FeishuComment) (ids : list string)
  (evs : list Event) (st : ProcessedState).

Lemma posted_ok_app_l f id evs evs' : posted_ok f id evs → posted_ok f id (evs ++ evs').
Proof. intros (t & ft & r & Hin & Hok). exists t, ft, r. split; [|done]. set_solver. Qed.

Lemma posted_ok_app_r f id evs evs' : posted_ok f id evs' → posted_ok f id (evs ++ evs').
Proof. intros (t & ft & r & Hin & Hok). exists t, ft, r. split; [|done]. set_solver. Qed.

Lemma settles_app_l f c evs evs' : settles f c evs → settles f c (evs ++ evs').
Proof. unfold settles. intros [?|[?|?]]; auto using posted_ok_app_l. Qed.

Lemma settles_app_r f c evs evs' : settles f c evs' → settles f c (evs ++ evs').
Proof. unfold settles. intros [?|[?|?]]; auto using posted_ok_app_r. Qed.

Lemma agent_diag_no_post r e :
  e ∈ agent_diag r → ∃ d, e = EvConsoleError d.
Proof. destruct r as [|[?|]]; simpl; set_solver. Qed.

Lemma reply_diag_no_post resp e :
  e ∈ reply_diag resp → ∃ d, e = EvConsoleError d.
Proof.
  destruct resp as [r|]; simpl; [destruct (reply_code r =? 0)%Z|]; set_solver.
Qed.

(** The events of one step: one invocation and one post for this very
    comment, and diagnostics. *)
Lemma CommentStep_events f c ids ids' evs e :
  CommentStep f c ids ids' evs → e ∈ evs →
  (∃ p r, e = EvInvoke p r) ∨ (∃ d, e = EvConsoleError d) ∨
  (∃ text resp, e = EvPostReply f (comment_id c) text "docx" resp ∧
     (accepted resp = true → comment_id c ∈ ids')).
Proof.
  intros Hstep Hin. destruct Hstep as [| | |r resp Hn Hs Ho];
    try (by apply elem_of_nil in Hin).
  apply elem_of_cons in Hin as [->|Hin]; [left; eauto|].
  apply elem_of_app in Hin as [Hin|Hin];
    [right; left; by eapply agent_diag_no_post|].
  apply elem_of_cons in Hin as [->|Hin];
    [|right; left; by eapply reply_diag_no_post].
  right; right. exists (reply_of r), resp. split; [done|].
  intros ->. set_solver.
Qed.

Lemma CommentStep_prefix f c ids ids' evs :
  CommentStep f c ids ids' evs → ∃ suffix, ids' = ids ++ suffix.
Proof.
  intros [| | |r resp]; try (by eexists); try (exists []; by rewrite app_nil_r).
  destruct (accepted resp); [by eexists|exists []; by rewrite app_nil_r].
Qed.

Lemma NoDup_snoc ids id : id ∉ ids → NoDup ids → NoDup (ids ++ [id]).
Proof.
  intros Hn Hd. apply NoDup_app. split; [done|]. split; [|apply NoDup_singleton].
  intros x Hx Hx'. apply list_elem_of_singleton in Hx'. by subst.
Qed.

Lemma CommentStep_NoDup f c ids ids' evs :
  CommentStep f c ids ids' evs → NoDup ids → NoDup ids'.
Proof.
  intros [| | |r resp]; auto using NoDup_snoc.
  destruct (accepted resp); auto using NoDup_snoc.
Qed.

Lemma CommentStep_recorded f c ids ids' evs id :
  CommentStep f c ids ids' evs → id ∈ ids' →
  id ∈ ids ∨ (id = comment_id c ∧ settles f c evs).
Proof.
  unfold settles. intros [| | |r resp Hn Hs Ho] Hin; auto.
  - apply elem_of_app in Hin as [?|Hin]; [by left|].
    apply list_elem_of_singleton in Hin. right. auto.
  - apply elem_of_app in Hin as [?|Hin]; [by left|].
    apply list_elem_of_singleton in Hin. right. auto.
  - destruct (accepted resp) eqn:Hacc; [|by left].
    apply elem_of_app in Hin as [?|Hin]; [by left|].
    apply list_elem_of_singleton in Hin. right. split; [done|].
    right; right. exists (reply_of r), "docx", resp. split; [|done].
    set_solver.
Qed.

Lemma CommentStep_known f c ids ids' evs :
  CommentStep f c ids ids' evs → comment_id c ∈ ids → ids' = ids ∧ evs = [].
Proof. by intros [| | |r resp]. Qed.

Lemma CommentSteps_prefix f cs ids ids' evs :
  CommentSteps f cs ids ids' evs → ∃ suffix, ids' = ids ++ suffix.
Proof.
  induction 1 as [ids|c cs ids ids1 ids2 evs evs' Hstep _ (k2 & ->)].
  - exists []. by rewrite app_nil_r.
  - apply CommentStep_prefix in Hstep as (k1 & ->).
    exists (k1 ++ k2). by rewrite app_assoc.
Qed.

Lemma CommentSteps_NoDup f cs ids ids' evs :
  CommentSteps f cs ids ids' evs → NoDup ids → NoDup ids'.
Proof. induction 1; eauto using CommentStep_NoDup. Qed.

Lemma CommentSteps_events f cs ids ids' evs e :
  CommentSteps f cs ids ids' evs → e ∈ evs →
  (∃ p r, e = EvInvoke p r) ∨ (∃ d, e = EvConsoleError d) ∨
  (∃ c text resp, c ∈ cs ∧ e = EvPostReply f (comment_id c) text "docx" resp ∧
     (accepted resp = true → comment_id c ∈ ids')).
Proof.
  induction 1 as [ids|c cs ids ids1 ids2 evs evs' Hstep Hsteps IH]; intros Hin.
  - by apply elem_of_nil in Hin.
  - apply elem_of_app in Hin as [Hin|Hin].
    + destruct (CommentStep_events _ _ _ _ _ _ Hstep Hin)
        as [?|[?|(text & resp & -> & Hacc)]]; auto.
      right; right. exists c, text, resp. split; [set_solver|]. split; [done|].
      intros Hok. apply CommentSteps_prefix in Hsteps as (k & ->). set_solver.
    + destruct (IH Hin) as [?|[?|(c' & text & resp & Hc' & -> & Hacc)]]; auto.
      right; right. exists c', text, resp. split; [set_solver|]. done.
Qed.

Lemma CommentSteps_recorded f cs ids ids' evs id :
  CommentSteps f cs ids ids' evs → id ∈ ids' →
  id ∈ ids ∨ ∃ c, c ∈ cs ∧ comment_id c = id ∧ settles f c evs.
Proof.
  induction 1 as [ids|c cs ids ids1 ids2 evs evs' Hstep Hsteps IH]; intros Hin.
  - by left.
  - destruct (IH Hin) as [Hin1|(c' & Hc' & Hid & Hset)].
    + destruct (CommentStep_recorded _ _ _ _ _ _ Hstep Hin1) as [?|[-> Hset]];
        [by left|].
      right. exists c. split; [set_solver|]. split; [done|].
      by apply settles_app_l.
    + right. exists c'. split; [set_solver|]. split; [done|].
      by apply settles_app_r.
Qed.

Lemma CommentSteps_known f cs ids ids' evs :
  CommentSteps f cs ids ids' evs →
  (∀ c, c ∈ cs → comment_id c ∈ ids) → ids' = ids ∧ evs = [].
Proof.
  induction 1 as [ids|c cs ids ids1 ids2 evs evs' Hstep Hsteps IH]; intros Hall.
  - done.
  - destruct (CommentStep_known _ _ _ _ _ Hstep) as [-> ->]; [set_solver|].
    destruct IH as [-> ->]; [set_solver|]. done.
Qed.

Lemma processed_ids_set f ids st g :
  processed_ids (set_processed f ids st) g =
  if decide (f = g) then ids else processed_ids st g.
Proof.
  unfold processed_ids, set_processed. simpl. rewrite lookup_insert.
  by destruct (decide (f = g)).
Qed.

Lemma nothing_new_app st evs evs' :
  nothing_new st (evs ++ evs') → nothing_new st evs ∧ nothing_new st evs'.
Proof.
  intros H. split; intros g ft resp c Hin; apply (H g ft resp c); set_solver.
Qed.

Lemma nothing_new_ext st st' evs :
  (∀ g, processed_ids st' g = processed_ids st g) →
  nothing_new st evs → nothing_new st' evs.
Proof. intros Heq H g ft resp c Hin Hc. rewrite Heq. eauto. Qed.

Lemma recorded_by_app_l g id evs evs' :
  recorded_by g id evs → recorded_by g id (evs ++ evs').
Proof.
  intros (resp & c & Hin & Hc & Hid & Hset). exists resp, c.
  split; [set_solver|]. auto using settles_app_l.
Qed.

Lemma recorded_by_app_r g id evs evs' :
  recorded_by g id evs' → recorded_by g id (evs ++ evs').
Proof.
  intros (resp & c & Hin & Hc & Hid & Hset). exists resp, c.
  split; [set_solver|]. auto using settles_app_r.
Qed.

Lemma fetch_diag_console resp e : e ∈ fetch_diag resp → ∃ d, e = EvConsoleError d.
Proof. unfold fetch_diag. destruct (comments_code resp =? 0)%Z; set_solver. Qed.

(** What the trace holds when the lookup finds an inherited member. *)
Lemma inherited_events f resp e :
  e ∈ EvGetComments f "docx" (Some resp) :: fetch_diag resp
        ++ match fetched resp with
           | [] => []
           | _ :: _ => [EvConsoleError (ErrorProcessingFile f)]
           end →
  e = EvGetComments f "docx" (Some resp) ∨ ∃ d, e = EvConsoleError d.
Proof.
  intros Hin. apply elem_of_cons in Hin as [->|Hin]; [by left|]. right.
  apply elem_of_app in Hin as [Hin|Hin]; [by apply fetch_diag_console in Hin|].
  destruct (fetched resp); [by apply elem_of_nil in Hin|].
  apply list_elem_of_singleton in Hin. eauto.
Qed.

Lemma FileStep_prefix f st st' evs g :
  FileStep f st st' evs → ∃ suffix, processed_ids st' g = processed_ids st g ++ suffix.
Proof.
  intros [|resp ids evs' Hlook Hsteps|resp Hlook];
    [exists []; by rewrite app_nil_r| |exists []; by rewrite app_nil_r].
  rewrite processed_ids_set. destruct (decide (f = g)) as [<-|];
    [by eapply CommentSteps_prefix|exists []; by rewrite app_nil_r].
Qed.

Lemma FileStep_NoDup f st st' evs g :
  FileStep f st st' evs → NoDup (processed_ids st g) → NoDup (processed_ids st' g).
Proof.
  intros [|resp ids evs' Hlook Hsteps|resp Hlook]; [done| |done].
  rewrite processed_ids_set. destruct (decide (f = g)) as [<-|]; [|done].
  by eapply CommentSteps_NoDup.
Qed.

Lemma FileStep_posted f st st' evs g id text ft resp :
  FileStep f st st' evs → EvPostReply g id text ft resp ∈ evs →
  accepted resp = true → id ∈ processed_ids st' g.
Proof.
  intros [|resp' ids evs' Hlook Hsteps|resp' Hlook] Hin Hok; [set_solver| |].
  2: { apply inherited_events in Hin as [?|[? ?]]; done. }
  apply elem_of_cons in Hin as [?|Hin]; [done|].
  apply elem_of_app in Hin as [Hin|Hin];
    [apply fetch_diag_console in Hin as [? ?]; done|].
  destruct (CommentSteps_events _ _ _ _ _ _ Hsteps Hin)
    as [(? & ? & ?)|[(? & ?)|(c & t & r & Hc & Heq & Hacc)]]; try done.
  injection Heq as -> -> -> -> ->.
  rewrite processed_ids_set, decide_True by done. auto.
Qed.

Lemma FileStep_recorded f st st' evs g id :
  FileStep f st st' evs → id ∈ processed_ids st' g →
  id ∈ processed_ids st g ∨ recorded_by g id evs.
Proof.
  intros [|resp ids evs' Hlook Hsteps|resp Hlook]; [by left| |by left].
  rewrite processed_ids_set. destruct (decide (f = g)) as [<-|]; [|by left].
  intros Hin.
  destruct (CommentSteps_recorded _ _ _ _ _ _ Hsteps Hin)
    as [?|(c & Hc & Hid & Hset)]; [by left|].
  right. exists resp, c. split; [set_solver|]. split; [done|]. split; [done|].
  change (settles f c ([EvGetComments f "docx" (Some resp)] ++ fetch_diag resp ++ evs')).
  auto using settles_app_r.
Qed.

Lemma FileStep_known f st st' evs :
  FileStep f st st' evs → nothing_new st evs →
  (∀ g, processed_ids st' g = processed_ids st g) ∧ Forall silent evs.
Proof.
  intros [|resp ids evs' Hlook Hsteps|resp Hlook] Hall.
  { split; [done|]. by repeat constructor. }
  2: { split; [done|]. apply Forall_forall. intros e He.
       apply inherited_events in He as [->|[d ->]]; done. }
  destruct (CommentSteps_known _ _ _ _ _ Hsteps) as [-> ->].
  { intros c Hc. apply (Hall f "docx" resp c); set_solver. }
  split.
  - intros g. rewrite processed_ids_set. by destruct (decide (f = g)) as [<-|].
  - constructor; [done|]. rewrite app_nil_r. apply Forall_forall.
    intros e He. apply fetch_diag_console in He as [d ->]. done.
Qed.

Lemma FileStep_fetches f st st' evs :
  FileStep f st st' evs → ∃ r, EvGetComments f "docx" r ∈ evs.
Proof.
  intros [|resp ids evs' Hlook Hsteps|resp Hlook]; eexists; apply elem_of_cons; by left.
Qed.

Lemma FileSteps_prefix fs st st' evs g :
  FileSteps fs st st' evs → ∃ suffix, processed_ids st' g = processed_ids st g ++ suffix.
Proof.
  induction 1 as [st|f fs st st1 st2 evs evs' Hstep _ (k2 & ->)].
  - exists []. by rewrite app_nil_r.
  - apply (FileStep_prefix _ _ _ _ g) in Hstep as (k1 & ->).
    exists (k1 ++ k2). by rewrite app_assoc.
Qed.

Lemma FileSteps_NoDup fs st st' evs g :
  FileSteps fs st st' evs → NoDup (processed_ids st g) → NoDup (processed_ids st' g).
Proof. induction 1; eauto using FileStep_NoDup. Qed.

Lemma FileSteps_posted fs st st' evs g id text ft resp :
  FileSteps fs st st' evs → EvPostReply g id text ft resp ∈ evs →
  accepted resp = true → id ∈ processed_ids st' g.
Proof.
  induction 1 as [st|f fs st st1 st2 evs evs' Hstep Hsteps IH]; intros Hin Hok.
  - by apply elem_of_nil in Hin.
  - apply elem_of_app in Hin as [Hin|Hin]; [|auto].
    pose proof (FileStep_posted _ _ _ _ _ _ _ _ _ Hstep Hin Hok) as H1.
    destruct (FileSteps_prefix _ _ _ _ g Hsteps) as (k & ->). set_solver.
Qed.

Lemma FileSteps_recorded fs st st' evs g id :
  FileSteps fs st st' evs → id ∈ processed_ids st' g →
  id ∈ processed_ids st g ∨ recorded_by g id evs.
Proof.
  induction 1 as [st|f fs st st1 st2 evs evs' Hstep Hsteps IH]; intros Hin.
  - by left.
  - destruct (IH Hin) as [Hin1|?]; [|right; by apply recorded_by_app_r].
    destruct (FileStep_recorded _ _ _ _ _ _ Hstep Hin1) as [?|?]; [by left|].
    right. by apply recorded_by_app_l.
Qed.

Lemma FileSteps_known fs st st' evs :
  FileSteps fs st st' evs → nothing_new st evs →
  (∀ g, processed_ids st' g = processed_ids st g) ∧ Forall silent evs.
Proof.
  induction 1 as [st|f fs st st1 st2 evs evs' Hstep Hsteps IH]; intros Hall.
  - split; [done|constructor].
  - apply nothing_new_app in Hall as [Hall1 Hall2].
    destruct (FileStep_known _ _ _ _ Hstep Hall1) as [Heq1 Hs1].
    destruct IH as [Heq2 Hs2]; [by eapply nothing_new_ext|].
    split; [intros g; by rewrite Heq2|by apply Forall_app].
Qed.

Lemma FileSteps_fetches fs st st' evs f :
  FileSteps fs st st' evs → f ∈ fs → ∃ r, EvGetComments f "docx" r ∈ evs.
Proof.
  induction 1 as [st|f' fs st st1 st2 evs evs' Hstep Hsteps IH]; intros Hin.
  - by apply elem_of_nil in Hin.
  - apply elem_of_cons in Hin as [->|Hin].
    + apply FileStep_fetches in Hstep as [r Hr]. exists r. set_solver.
    + destruct (IH Hin) as [r Hr]. exists r. set_solver.
Qed.

End StepFacts.

(** ** Link extraction *)

Section Extraction.

Implicit Types (docTokens : list string) (els : list Element) (blocks : list Block).

Lemma push_new_NoDup tokens docTokens :
  NoDup docTokens → NoDup (push_new tokens docTokens).
Proof.
  revert docTokens. induction tokens as [|token rest IH]; intros d Hd; simpl; [done|].
  apply IH. destruct (includes d token) eqn:Hin; [done|].
  apply NoDup_snoc; [|done]. unfold includes in Hin.
  by apply bool_decide_eq_false in Hin.
Qed.

Lemma extractFromUrl_NoDup u docTokens docTokens' :
  extractFromUrl u docTokens = Some docTokens' → NoDup docTokens → NoDup docTokens'.
Proof.
  unfold extractFromUrl. destruct (decodeURIComponent u); simpl; [|done].
  intros [= <-]. apply push_new_NoDup.
Qed.

Lemma processElements_NoDup els docTokens docTokens' :
  processElements els docTokens = Some docTokens' → NoDup docTokens → NoDup docTokens'.
Proof.
  revert docTokens. induction els as [|element rest IH]; intros d; simpl.
  { by intros [= <-]. }
  destruct (linkUrl element) as [u|]; [|by apply IH].
  destruct (truthy u); [|by apply IH].
  destruct (extractFromUrl u d) as [d1|] eqn:Hu; simpl; [|done].
  intros H Hd. eapply IH; [exact H|]. by eapply extractFromUrl_NoDup.
Qed.

Lemma processContainers_NoDup cs docTokens docTokens' :
  processContainers cs docTokens = Some docTokens' → NoDup docTokens → NoDup docTokens'.
Proof.
  revert docTokens. induction cs as [|container rest IH]; intros d; simpl.
  { by intros [= <-]. }
  destruct (container ≫= elements) as [els|]; [|by apply IH].
  destruct (processElements els d) as [d1|] eqn:He; simpl; [|done].
  intros H Hd. eapply IH; [exact H|]. by eapply processElements_NoDup.
Qed.

Lemma processBlocks_cons block rest docTokens :
  processBlocks (block :: rest) docTokens =
  processContainers (elementContainers block) docTokens ≫= processBlocks rest.
Proof. reflexivity. Qed.

Lemma processBlocks_NoDup blocks docTokens docTokens' :
  processBlocks blocks docTokens = Some docTokens' → NoDup docTokens → NoDup docTokens'.
Proof.
  revert docTokens. induction blocks as [|block rest IH]; intros d.
  { by intros [= <-]. }
  rewrite processBlocks_cons.
  destruct (processContainers (elementContainers block) d) as [d1|] eqn:Hc;
    simpl; [|done].
  intros H Hd. eapply IH; [exact H|]. by eapply processContainers_NoDup.
Qed.

Lemma processContainers_map h (cs : list (option Container)) docTokens :
  (∀ els d, processElements (h els) d = processElements els d) →
  processContainers ((λ c : option Container, map_container h <$> c) <$> cs) docTokens =
  processContainers cs docTokens.
Proof.
  intros Hh. revert docTokens.
  induction cs as [|container rest IH]; intros d; simpl; [done|].
  destruct container as [[[els|]]|]; simpl; rewrite ?Hh; [|by apply IH..].
  destruct (processElements els d); simpl; [apply IH|done].
Qed.

Lemma extractDocLinks_map h blocks :
  (∀ els d, processElements (h els) d = processElements els d) →
  extractDocLinks (map_block h <$> blocks) = extractDocLinks blocks.
Proof.
  intros Hh. unfold extractDocLinks. generalize (@nil string).
  induction blocks as [|block rest IH]; intros d; [done|].
  rewrite fmap_cons, !processBlocks_cons.
  change (elementContainers (map_block h block))
    with ((λ c : option Container, map_container h <$> c) <$> elementContainers block).
  rewrite processContainers_map by done.
  destruct (processContainers (elementContainers block) d); simpl; [apply IH|done].
Qed.

Lemma linkUrl_retext g e : linkUrl (retext g e) = linkUrl e.
Proof. destruct e as [[tr|]]; reflexivity. Qed.

Lemma processElements_retext g els docTokens :
  processElements (retext g <$> els) docTokens = processElements els docTokens.
Proof.
  revert docTokens. induction els as [|e rest IH]; intros d; simpl; [done|].
  rewrite linkUrl_retext. destruct (linkUrl e) as [u|]; [|apply IH].
  destruct (truthy u); [|apply IH].
  destruct (extractFromUrl u d); simpl; [apply IH|done].
Qed.

Lemma processElements_filter els docTokens :
  processElements (List.filter has_link els) docTokens = processElements els docTokens.
Proof.
  revert docTokens. induction els as [|e rest IH]; intros d; simpl; [done|].
  unfold has_link at 1. destruct (linkUrl e) as [u|] eqn:Hu; simpl; [|apply IH].
  rewrite Hu. destruct (truthy u); [|apply IH].
  destruct (extractFromUrl u d); simpl; [apply IH|done].
Qed.

End Extraction.

(** C8: a heading block (any of the nine levels) whose text run links to
    [https://x.feishu.cn/docx/ABC123] followed by a bullet block whose text
    run links to [https://x.feishu.cn/wiki/XYZ789] yields
    [["ABC123"; "XYZ789"]] in that order; and whatever the blocks, no token
    occurs twice in the extracted list. *)
Theorem extractDocLinks_order_and_uniqueness :
  (∀ level t1 t2, 1 ≤ level ≤ 9 →
     extractDocLinks
       [ single_block level
           (container_of [linked t1 "https://x.feishu.cn/docx/ABC123"]);
         single_block 10
           (container_of [linked t2 "https://x.feishu.cn/wiki/XYZ789"]) ]
     = Some ["ABC123"; "XYZ789"])
  ∧ (∀ blocks tokens, extractDocLinks blocks = Some tokens → NoDup tokens).
Proof.
  split.
  - intros level t1 t2 [Hlo Hhi].
    do 10 (destruct level as [|level]; [first [lia|reflexivity]|]). lia.
  - intros blocks tokens H. eapply processBlocks_NoDup; [exact H|constructor].
Qed.

Lemma extractDocLinks_order_and_uniqueness_witness :
  extractDocLinks
    [ single_block 2 (container_of [linked "Design" "https://x.feishu.cn/docx/ABC123"]);
      single_block 10 (container_of [linked "Wiki" "https://x.feishu.cn/wiki/XYZ789"]) ]
  = Some ["ABC123"; "XYZ789"]
  ∧ NoDup ["ABC123"; "XYZ789"].
Proof.
  split.
  - apply (proj1 extractDocLinks_order_and_uniqueness 2 "Design" "Wiki"). lia.
  - apply (proj2 extractDocLinks_order_and_uniqueness repeated_links). reflexivity.
Defined.

(** C10: only the URL of a text run's link style is looked at.  Changing the
    displayed text of every text run, or dropping every element that has no
    link URL, leaves the extracted list unchanged; and a block whose only
    element is a text run without link style yields no token, whatever its
    text. *)
Theorem extractDocLinks_ignores_plain_text :
  (∀ g blocks,
     extractDocLinks (map_block (fmap (retext g)) <$> blocks) = extractDocLinks blocks)
  ∧ (∀ blocks,
       extractDocLinks (map_block (List.filter has_link) <$> blocks)
       = extractDocLinks blocks)
  ∧ (∀ field t,
       extractDocLinks [single_block field (container_of [plain t])] = Some []).
Proof.
  split; [|split].
  - intros g blocks. apply extractDocLinks_map. intros els d.
    apply processElements_retext.
  - intros blocks. apply extractDocLinks_map. intros els d.
    apply processElements_filter.
  - intros field t.
    do 15 (destruct field as [|field]; [reflexivity|]). reflexivity.
Qed.

Example plain_url_is_not_a_link :
  extractDocLinks
    [single_block 0 (container_of [plain "see https://x.feishu.cn/docx/ABC123"])]
  = Some [].
Proof. reflexivity. Qed.

(** ** Reply generation *)

(** C9, as the code has it: reply generation always completes with a
    string.  A rejected invocation, or one that resolves to [null] or
    [undefined], gives the error apology; a result whose [response] is
    missing or empty gives a second, different apology; any other result
    gives its [response]. *)
Theorem processCommentWithAgent_total {W} (env : Collaborators W) text q (s : Sys W) :
  let r := (runtime_invoke env (make_prompt text q) (world s)).1 in
  let out := (processCommentWithAgent env text q s).1 in
  (∃ reply, out = Normal reply)
  ∧ (r = InvokeRejected ∨ r = InvokeResolved None → out = Normal fallback_error)
  ∧ (∀ result, r = InvokeResolved (Some result) →
       response result = None ∨ response result = Some "" →
       out = Normal fallback_empty)
  ∧ (∀ result t, r = InvokeResolved (Some result) →
       response result = Some t → t ≠ "" → out = Normal t)
  ∧ fallback_empty ≠ fallback_error.
Proof.
  intros r out.
  destruct (run_elim _ _ _ (processCommentWithAgent_spec env text q s))
    as (r' & Hout & _ & Hr & _).
  fold out in Hout. fold r in Hr. subst r'. rewrite Hout. clear Hout.
  split; [by eexists|]. split; [|split; [|split]].
  - by intros [->| ->].
  - intros result -> [Hn|He]; simpl; by rewrite ?Hn, ?He.
  - intros result t -> Ht Hne. simpl. rewrite Ht.
    destruct t; [done|reflexivity].
  - discriminate.
Qed.

Lemma processCommentWithAgent_total_witness :
  (processCommentWithAgent
     (scripted token_ok (λ _, None) (λ _, None) InvokeRejected (λ _ _, reply_ok))
     "why?" None (boot FileMissing)).1 = Normal fallback_error
  ∧ (processCommentWithAgent
       (scripted token_ok (λ _, None) (λ _, None)
          (InvokeResolved (Some {| response := Some "" |})) (λ _ _, reply_ok))
       "why?" None (boot FileMissing)).1 = Normal fallback_empty
  ∧ (processCommentWithAgent
       (scripted token_ok (λ _, None) (λ _, None) (agent_says "Because.")
          (λ _ _, reply_ok))
       "why?" (Some "the line") (boot FileMissing)).1 = Normal "Because.".
Proof.
  split; [|split].
  - apply (proj1 (proj2 (processCommentWithAgent_total
             (scripted token_ok (λ _, None) (λ _, None) InvokeRejected
                (λ _ _, reply_ok)) "why?" None (boot FileMissing)))).
    by left.
  - apply (proj1 (proj2 (proj2 (processCommentWithAgent_total
             (scripted token_ok (λ _, None) (λ _, None)
                (InvokeResolved (Some {| response := Some "" |}))
                (λ _ _, reply_ok)) "why?" None (boot FileMissing))))
             {| response := Some "" |}); [reflexivity|by right].
  - apply (proj1 (proj2 (proj2 (proj2 (processCommentWithAgent_total
             (scripted token_ok (λ _, None) (λ _, None) (agent_says "Because.")
                (λ _ _, reply_ok)) "why?" (Some "the line") (boot FileMissing)))))
             {| response := Some "Because." |} "Because.");
      [reflexivity|reflexivity|discriminate].
Defined.

(** C9 as stated fails: there is no single string returned both when the
    invocation throws and when it resolves without a response. *)
Lemma fallback_differs_between_throw_and_empty :
  ¬ ∃ fb : string,
      (processCommentWithAgent
         (scripted token_ok (λ _, None) (λ _, None) InvokeRejected (λ _ _, reply_ok))
         "why?" None (boot FileMissing)).1 = Normal fb
      ∧ (processCommentWithAgent
           (scripted token_ok (λ _, None) (λ _, None)
              (InvokeResolved (Some {| response := None |})) (λ _ _, reply_ok))
           "why?" None (boot FileMissing)).1 = Normal fb.
Proof.
  intros (fb & Hthrow & Hempty).
  vm_compute in Hthrow. vm_compute in Hempty.
  injection Hthrow as <-. discriminate Hempty.
Qed.

(** ** Properties of a poll cycle *)

Lemma hasOurReply_true c : hasOurReply c = true ↔ replied_by bot_placeholder c.
Proof.
  unfold hasOurReply, replied_by. destruct (reply_list c) as [replies|].
  - rewrite existsb_exists. split.
    + intros (r & Hin & Heq). exists replies, r. split; [done|].
      split; [by apply list_elem_of_In|by apply String.eqb_eq].
    + intros (? & r & [= <-] & Hin & Heq). exists r.
      split; [by apply list_elem_of_In|by apply String.eqb_eq].
  - split; [done|]. by intros (? & ? & ? & _).
Qed.

Lemma hasOurReply_false c : hasOurReply c = false ↔ ¬ replied_by bot_placeholder c.
Proof. rewrite <- hasOurReply_true. by destruct (hasOurReply c). Qed.

Section CycleFacts.

Context {W : Type}.
Implicit Types (s : Sys W) (evs : list Event) (g id : string).

Lemma persisted_same s s' : stateFile s' = stateFile s → persisted s' = persisted s.
Proof. unfold persisted. by intros ->. Qed.

Lemma persisted_saved s now (st : ProcessedState) g :
  stateFile s =
    FileJson {| lastPollTime := now; processedComments := processedComments st |} →
  processed_ids (persisted s) g = processed_ids st g.
Proof. unfold persisted. by intros ->. Qed.

Lemma preliminary_silent e : preliminary e → silent e.
Proof. by destruct e. Qed.

Lemma Cycle_prefix s s' evs g :
  Cycle s s' evs →
  ∃ suffix, processed_ids (persisted s') g = processed_ids (persisted s) g ++ suffix.
Proof.
  intros [evs' Hf _|watched st' now pre evs' _ Hsteps Hf].
  - rewrite (persisted_same _ _ Hf). exists []. by rewrite app_nil_r.
  - rewrite (persisted_saved _ _ _ _ Hf). by eapply FileSteps_prefix.
Qed.

Lemma Cycle_NoDup s s' evs g :
  Cycle s s' evs →
  NoDup (processed_ids (persisted s) g) → NoDup (processed_ids (persisted s') g).
Proof.
  intros [evs' Hf _|watched st' now pre evs' _ Hsteps Hf].
  - by rewrite (persisted_same _ _ Hf).
  - rewrite (persisted_saved _ _ _ _ Hf). by eapply FileSteps_NoDup.
Qed.

Lemma Cycle_posted s s' evs g id text ft resp :
  Cycle s s' evs → EvPostReply g id text ft resp ∈ evs → accepted resp = true →
  id ∈ processed_ids (persisted s') g.
Proof.
  intros [evs' Hf Hp|watched st' now pre evs' Hp Hsteps Hf] Hin Hok.
  - rewrite Forall_forall in Hp. destruct (Hp _ Hin).
  - rewrite (persisted_saved _ _ _ _ Hf).
    apply elem_of_app in Hin as [Hin|Hin].
    { rewrite Forall_forall in Hp. destruct (Hp _ Hin). }
    apply elem_of_app in Hin as [Hin|Hin]; [by eapply FileSteps_posted|].
    by apply list_elem_of_singleton in Hin.
Qed.

Lemma Cycle_recorded s s' evs g id :
  Cycle s s' evs → id ∈ processed_ids (persisted s') g →
  id ∈ processed_ids (persisted s) g ∨ recorded_by g id evs.
Proof.
  intros [evs' Hf _|watched st' now pre evs' _ Hsteps Hf].
  - rewrite (persisted_same _ _ Hf). by left.
  - rewrite (persisted_saved _ _ _ _ Hf). intros Hin.
    destruct (FileSteps_recorded _ _ _ _ _ _ Hsteps Hin) as [?|Hrec]; [by left|].
    right. apply recorded_by_app_r. by apply recorded_by_app_l.
Qed.

Lemma Cycle_known s s' evs :
  Cycle s s' evs → nothing_new (persisted s) evs →
  (∀ g, processed_ids (persisted s') g = processed_ids (persisted s) g)
  ∧ Forall silent evs.
Proof.
  intros [evs' Hf Hp|watched st' now pre evs' Hp Hsteps Hf] Hnew.
  - split; [intros g; by rewrite (persisted_same _ _ Hf)|].
    eapply Forall_impl; [exact Hp|apply preliminary_silent].
  - apply nothing_new_app in Hnew as [_ Hnew].
    apply nothing_new_app in Hnew as [Hnew _].
    destruct (FileSteps_known _ _ _ _ Hsteps Hnew) as [Heq Hsilent].
    split; [intros g; by rewrite (persisted_saved _ _ _ _ Hf)|].
    apply Forall_app. split.
    { eapply Forall_impl; [exact Hp|apply preliminary_silent]. }
    apply Forall_app. split; [done|]. by repeat constructor.
Qed.

End CycleFacts.

(** ** The orchestrator *)

Section Orchestrator.

Context {W : Type}.
Variable env : Collaborators W.
Implicit Types (s : Sys W) (c : FeishuComment) (ids : list string).

Lemma forComment_new client f c ids s :
  comment_id c ∉ ids → is_solved c = false → hasOurReply c = false →
  ∃ r resp,
    events_since s (forComment env client f c ids s).2 =
      EvInvoke (make_prompt (extractTextFromContent (content c)) (quote c)) r
        :: agent_diag r
        ++ EvPostReply f (comment_id c) (reply_of r) "docx" resp
        :: reply_diag resp
    ∧ (forComment env client f c ids s).1 =
        Normal (if accepted resp then ids ++ [comment_id c] else ids).
Proof.
  intros Hnew Hsolved Hours.
  destruct (run_elim _ _ _ (forComment_spec env client f c ids s))
    as (_ & ids' & Hout & Hstep).
  rewrite Hout.
  destruct Hstep as [Hin|_ Hs|_ _ Ho|r resp _ _ _]; [done|congruence..|].
  by exists r, resp.
Qed.

Lemma pollDocumentComments_cycle config fc s :
  Cycle s (pollDocumentComments env config fc s).2
    (events_since s (pollDocumentComments env config fc s).2).
Proof. exact (run_elim _ _ _ (pollDocumentComments_spec env config fc s)). Qed.

(** C2: for a comment that is new and unhandled, the id is among the
    processed ids after the loop body exactly when the post was accepted
    (which is when [replyToComment] returns [true]).  Over a whole cycle: an
    accepted post puts the id into the persisted state; and an id that was
    not recorded before, whose fetched comment is neither solved nor already
    answered, and whose posts all failed in this cycle, is not in the
    persisted state afterwards. *)
Theorem recorded_iff_post_accepted :
  (∀ client f c ids s,
     comment_id c ∉ ids → is_solved c = false → ¬ replied_by bot_placeholder c →
     ∃ text resp ids',
       EvPostReply f (comment_id c) text "docx" resp
         ∈ events_since s (forComment env client f c ids s).2
       ∧ (forComment env client f c ids s).1 = Normal ids'
       ∧ (comment_id c ∈ ids' ↔ accepted resp = true))
  ∧ (∀ config fc s f id,
       let s' := (pollDocumentComments env config fc s).2 in
       let evs := events_since s s' in
       (posted_ok f id evs → id ∈ processed_ids (persisted s') f)
       ∧ (id ∉ processed_ids (persisted s) f →
          (∀ resp c, EvGetComments f "docx" (Some resp) ∈ evs → c ∈ fetched resp →
                     comment_id c = id →
                     is_solved c = false ∧ ¬ replied_by bot_placeholder c) →
          (∀ text ft resp, EvPostReply f id text ft resp ∈ evs →
                           accepted resp = false) →
          id ∉ processed_ids (persisted s') f)).
Proof.
  split.
  - intros client f c ids s Hin Hs Ho. apply hasOurReply_false in Ho.
    destruct (forComment_new client f c ids s Hin Hs Ho) as (r & resp & Hev & Hout).
    exists (reply_of r), resp, (if accepted resp then ids ++ [comment_id c] else ids).
    split; [|split; [done|]].
    + rewrite Hev. set_solver.
    + destruct (accepted resp); [set_solver|]. split; [done|discriminate].
  - intros config fc s f id s' evs.
    pose proof (pollDocumentComments_cycle config fc s) as Hcycle.
    fold s' in Hcycle. fold evs in Hcycle. split.
    + intros (text & ft & resp & Hin & Hok). by eapply Cycle_posted.
    + intros Hnew Hunhandled Hfail Hin.
      destruct (Cycle_recorded _ _ _ _ _ Hcycle Hin)
        as [?|(resp & c & Hfetch & Hc & Hid & Hset)]; [done|].
      destruct (Hunhandled resp c Hfetch Hc Hid) as [Hs Ho].
      apply hasOurReply_false in Ho.
      destruct Hset as [?|[?|(text & ft & r & Hpost & Hok)]]; [congruence..|].
      rewrite Hid in Hpost. rewrite (Hfail _ _ _ Hpost) in Hok. discriminate.
Qed.

(** C3: over one poll cycle the processed ids persisted for a document
    only grow at the end, and stay free of repetitions. *)
Theorem processed_ids_append_only config fc s f :
  let s' := (pollDocumentComments env config fc s).2 in
  (∃ suffix,
     processed_ids (persisted s') f = processed_ids (persisted s) f ++ suffix)
  ∧ (NoDup (processed_ids (persisted s) f) → NoDup (processed_ids (persisted s') f)).
Proof.
  intros s'. pose proof (pollDocumentComments_cycle config fc s) as Hcycle.
  split; [by eapply Cycle_prefix|by eapply Cycle_NoDup].
Qed.

End Orchestrator.

Section Cycles.

Context {W : Type}.
Variable env : Collaborators W.
Implicit Types (s : Sys W) (st : ProcessedState).

Lemma run_self {A} (m : M W A) s R :
  run m s R → run m s (λ c s' evs, R c s' evs ∧ c = (m s).1 ∧ s' = (m s).2).
Proof. intros (evs & Ht & H). by exists evs. Qed.

Lemma getFileComments_response client f s resp :
  (get_comments env client f "docx" (world s)).1 = Some resp →
  (getFileComments env client f s).1 = Normal (fetched resp)
  ∧ events_since s (getFileComments env client f s).2
    = EvGetComments f "docx" (Some resp) :: fetch_diag resp.
Proof.
  intros Hresp.
  unfold getFileComments, request, console_error, call, emit, mbind, M_bind,
    events_since, fetched, fetch_diag.
  destruct (get_comments env client f "docx" (world s)) as [r w].
  simpl in Hresp. subst r. simpl.
  destruct (comments_code resp =? 0)%Z; simpl;
    rewrite <- ?app_assoc, drop_app_length; done.
Qed.

Lemma forFile_rejected client f st s :
  (get_comments env client f "docx" (world s)).1 = None →
  (getFileComments env client f s).1 = Thrown
  ∧ (forFile env client f st s).1 = Normal st
  ∧ events_since s (forFile env client f st s).2
    = [EvGetComments f "docx" None; EvConsoleError (ErrorProcessingFile f)].
Proof.
  intros Hresp.
  unfold forFile, try_catch, getFileComments, request, console_error, call, emit,
    mbind, M_bind, events_since, throw.
  destruct (get_comments env client f "docx" (world s)) as [r w].
  simpl in Hresp. subst r. simpl.
  rewrite <- ?app_assoc, drop_app_length. done.
Qed.

(** C6, as the code has it: the fetch returns the items of a response with
    code 0 and the empty list (after a diagnostic) for any other code; a
    rejected request is thrown by the fetch itself, caught by the loop over
    the files, which prints a diagnostic and leaves the state as it was.
    The loop over the files always completes and issues a fetch for every
    file of the list. *)
Theorem fetch_results_and_isolation :
  (∀ client f s resp,
     (get_comments env client f "docx" (world s)).1 = Some resp →
     (comments_code resp = 0%Z →
        (getFileComments env client f s).1
        = Normal (default [] (comments_items resp)))
     ∧ (comments_code resp ≠ 0%Z →
          (getFileComments env client f s).1 = Normal []
          ∧ EvConsoleError (FailedToGetComments (comments_msg resp))
              ∈ events_since s (getFileComments env client f s).2))
  ∧ (∀ client f st s,
       (get_comments env client f "docx" (world s)).1 = None →
       (getFileComments env client f s).1 = Thrown
       ∧ (forFile env client f st s).1 = Normal st
       ∧ events_since s (forFile env client f st s).2
         = [EvGetComments f "docx" None; EvConsoleError (ErrorProcessingFile f)])
  ∧ (∀ client fs st s,
       ∃ st', (forFiles env client fs st s).1 = Normal st'
            ∧ ∀ f, f ∈ fs →
                ∃ r, EvGetComments f "docx" r
                       ∈ events_since s (forFiles env client fs st s).2).
Proof.
  split; [|split].
  - intros client f s resp Hresp.
    destruct (getFileComments_response client f s resp Hresp) as [Hout Hev].
    rewrite Hout, Hev. unfold fetched, fetch_diag. split.
    + intros Hc. by rewrite Hc.
    + intros Hc. apply Z.eqb_neq in Hc. rewrite Hc. split; [done|set_solver].
  - intros client f st s. apply forFile_rejected.
  - intros client fs st s.
    destruct (run_elim _ _ _ (forFiles_spec env client fs st s))
      as (_ & st' & Hout & Hsteps).
    exists st'. split; [done|]. intros f Hf. by eapply FileSteps_fetches.
Qed.

Lemma resolveWatchedFiles_fallback config client tok s :
  indexDocument config = Some tok → truthy tok = true →
  (getWatchedFilesFromIndex env client tok s).1 = Normal [] →
  resolveWatchedFiles env config client s
  = (Normal (watchedFiles config), (getWatchedFilesFromIndex env client tok s).2).
Proof.
  intros Hidx Htok Hnone. unfold resolveWatchedFiles. rewrite Hidx, Htok.
  unfold mbind, M_bind.
  destruct (getWatchedFilesFromIndex env client tok s) as [c s1].
  simpl in Hnone. subst c. simpl. by destruct (watchedFiles config).
Qed.

(** C7: when an index document is configured and link extraction from it
    yields no token, the resolved watch list is [watchedFiles] of the
    configuration; if that list is empty too, the cycle ends there: the
    state file is as before and the only events are the token request, the
    read of the index document and diagnostics. *)
Theorem empty_index_falls_back_to_watchedFiles config tok :
  indexDocument config = Some tok → truthy tok = true →
  (∀ client s,
     (getWatchedFilesFromIndex env client tok s).1 = Normal [] →
     (resolveWatchedFiles env config client s).1 = Normal (watchedFiles config))
  ∧ (∀ fc s,
       watchedFiles config = [] →
       (∀ token,
          (getTenantAccessToken env (appId fc) (appSecret fc) s).1 = Normal token →
          (getWatchedFilesFromIndex env (axios_create token) tok
             (getTenantAccessToken env (appId fc) (appSecret fc) s).2).1
          = Normal []) →
       let s' := (pollDocumentComments env config fc s).2 in
       stateFile s' = stateFile s ∧ Forall preliminary (events_since s s')).
Proof.
  intros Hidx Htok. split.
  - intros client s Hnone.
    by rewrite (resolveWatchedFiles_fallback config client tok s Hidx Htok Hnone).
  - intros fc s Hwf Hnone s'. subst s'.
    apply (run_elim _ _ (λ _ s' evs,
             stateFile s' = stateFile s ∧ Forall preliminary evs)).
    unfold pollDocumentComments.
    destruct (enabled config); simpl; [|by run_steps].
    run_step. eapply run_mono; [apply loadState_spec|].
    intros cpl s0 evs0 (-> & -> & ->). lazy beta iota.
    run_step. eapply run_mono; [apply run_self, getTenantAccessToken_quiet|].
    intros [token|] s1 evs1 ([Hf1 Hp1] & Hc1 & Hs1); lazy beta iota; [|done].
    symmetry in Hc1. specialize (Hnone token Hc1). rewrite <- Hs1 in Hnone.
    run_step. eapply run_mono; [apply run_self, resolveWatchedFiles_quiet|].
    intros cpl s2 evs2 ([Hf2 Hp2] & Hc2 & Hs2).
    rewrite (resolveWatchedFiles_fallback config _ tok s1 Hidx Htok Hnone) in Hc2.
    simpl in Hc2. subst cpl. rewrite Hwf. simpl. run_steps.
    split; [congruence|]. rewrite app_nil_r. by apply Forall_app.
Qed.

Lemma pollDocumentComments_saves config fc s :
  run (pollDocumentComments env config fc) s (λ _ s' evs,
    ∀ st' s3, after_polling env config fc s = Some (st', s3) →
      let st := {| lastPollTime := (Date_now env (world s3)).1;
                   processedComments := processedComments st' |} in
      stateFile s' = FileJson st ∧ ∃ evs0, evs = evs0 ++ [EvWriteState st]).
Proof.
  unfold pollDocumentComments, after_polling.
  destruct (enabled config); simpl; [|by run_steps].
  run_step. eapply run_mono; [apply loadState_spec|].
  intros cpl s0 evs0 (-> & -> & ->). lazy beta iota.
  run_step. eapply run_mono; [apply run_self, getTenantAccessToken_quiet|].
  intros c1 s1 evs1 (_ & Hc1 & Hs1).
  destruct (getTenantAccessToken env (appId fc) (appSecret fc) s) as [c1' s1'].
  simpl in Hc1, Hs1. subst c1' s1'.
  destruct c1 as [token|]; [|done].
  run_step. eapply run_mono; [apply run_self, resolveWatchedFiles_quiet|].
  intros c2 s2 evs2 (_ & Hc2 & Hs2).
  destruct (resolveWatchedFiles env config (axios_create token) s1) as [c2' s2'].
  simpl in Hc2, Hs2. subst c2' s2'.
  destruct c2 as [watched|]; [|done].
  destruct (length watched =? 0); [by run_steps|].
  run_step. eapply run_mono; [apply run_self, forFiles_spec|].
  intros c3 s3 evs3 (_ & Hc3 & Hs3).
  destruct (forFiles env (axios_create token) watched (persisted s) s2) as [c3' s3'].
  simpl in Hc3, Hs3. subst c3' s3'.
  destruct c3 as [st'|]; [|done].
  unfold saveState. run_steps. intros st'' s3' [= <- <-].
  split; [done|]. eexists. by rewrite !app_assoc.
Qed.

Lemma pollDocumentComments_rewrites config fc s : rewrites_state_file env config fc s.
Proof.
  intros st' s3 Hafter.
  destruct (run_elim _ _ _ (pollDocumentComments_saves config fc s) st' s3 Hafter)
    as (Hfile & evs0 & Hevs).
  split; [exact Hfile|]. rewrite Hevs. apply last_snoc.
Qed.

(** C5, as the code has it: over two consecutive cycles in which every
    fetched comment is already recorded, the processed ids of every
    document stay what they were and no reply is generated or posted.  The
    state file does not stay as it was: each of the two cycles, when it
    gets to polling, ends by writing the state whose [lastPollTime] is the
    clock reading taken after the loop over the watched files, and the
    file holds that state afterwards. *)
Theorem quiet_cycles_keep_processed_ids config fc s0 :
  let s1 := (pollDocumentComments env config fc s0).2 in
  let s2 := (pollDocumentComments env config fc s1).2 in
  nothing_new (persisted s0) (events_since s0 s1) →
  nothing_new (persisted s1) (events_since s1 s2) →
  (∀ f, processed_ids (persisted s1) f = processed_ids (persisted s0) f)
  ∧ (∀ f, processed_ids (persisted s2) f = processed_ids (persisted s0) f)
  ∧ Forall silent (events_since s0 s1)
  ∧ Forall silent (events_since s1 s2)
  ∧ rewrites_state_file env config fc s0
  ∧ rewrites_state_file env config fc s1.
Proof.
  intros s1 s2 Hnew1 Hnew2.
  destruct (Cycle_known _ _ _ (pollDocumentComments_cycle env config fc s0) Hnew1)
    as [Heq1 Hsilent1].
  destruct (Cycle_known _ _ _ (pollDocumentComments_cycle env config fc s1) Hnew2)
    as [Heq2 Hsilent2].
  fold s1 in Heq1, Heq2. fold s2 in Heq2.
  split; [done|]. split; [intros f; by rewrite Heq2|].
  split; [done|]. split; [done|].
  split; apply pollDocumentComments_rewrites.
Qed.

End Cycles.

(** ** Soundness of the trace checkers *)

Lemma fetched_in_intro f ft resp c evs :
  EvGetComments f ft (Some resp) ∈ evs → c ∈ fetched resp → c ∈ fetched_in f evs.
Proof.
  intros Hin Hc. apply list_elem_of_In, in_flat_map.
  exists (EvGetComments f ft (Some resp)). split; [by apply list_elem_of_In|].
  rewrite String.eqb_refl. by apply list_elem_of_In.
Qed.

Lemma posts_in_intro f id text ft resp evs :
  EvPostReply f id text ft resp ∈ evs → resp ∈ posts_in f id evs.
Proof.
  intros Hin. apply list_elem_of_In, in_flat_map.
  exists (EvPostReply f id text ft resp). split; [by apply list_elem_of_In|].
  rewrite !String.eqb_refl. simpl. by left.
Qed.

Lemma posts_in_elim f id resp evs :
  resp ∈ posts_in f id evs → ∃ text ft, EvPostReply f id text ft resp ∈ evs.
Proof.
  intros Hin. apply list_elem_of_In, in_flat_map in Hin as (e & He & Hr).
  destruct e as [| | |g i text ft r| | |]; try done.
  destruct (String.eqb g f) eqn:Hg; [|done].
  destruct (String.eqb i id) eqn:Hi; [|done].
  apply String.eqb_eq in Hg as ->. apply String.eqb_eq in Hi as ->.
  destruct Hr as [<-|[]]. exists text, ft. by apply list_elem_of_In.
Qed.

Lemma posted_ok_check f id evs :
  existsb accepted (posts_in f id evs) = true → posted_ok f id evs.
Proof.
  intros H. apply existsb_exists in H as (resp & Hin & Hok).
  apply list_elem_of_In, posts_in_elim in Hin as (text & ft & Hin).
  by exists text, ft, resp.
Qed.

Lemma all_posts_failed_check f id evs :
  forallb (λ r, negb (accepted r)) (posts_in f id evs) = true →
  ∀ text ft resp, EvPostReply f id text ft resp ∈ evs → accepted resp = false.
Proof.
  intros H text ft resp Hin. rewrite forallb_forall in H.
  apply posts_in_intro, list_elem_of_In, H in Hin. by destruct (accepted resp).
Qed.

Lemma nothing_new_check st evs : nothing_new_b st evs = true → nothing_new st evs.
Proof.
  intros H g ft resp c Hin Hc. unfold nothing_new_b in H.
  rewrite forallb_forall in H. apply list_elem_of_In, H in Hin.
  rewrite forallb_forall in Hin. apply list_elem_of_In, Hin in Hc.
  by apply includes_true.
Qed.

Lemma fetched_all f evs (P : FeishuComment → Prop) :
  Forall P (fetched_in f evs) →
  ∀ resp c, EvGetComments f "docx" (Some resp) ∈ evs → c ∈ fetched resp → P c.
Proof.
  intros H resp c Hin Hc. rewrite Forall_forall in H.
  by eapply H, fetched_in_intro.
Qed.

(** ** Concrete runs *)

Ltac by_compute :=
  match goal with |- ?P => refine (bool_decide_unpack P _); vm_compute; exact I end.

Lemma recorded_iff_post_accepted_witness :
  (∃ text resp ids',
     EvPostReply "docA" "c4" text "docx" resp
       ∈ events_since (boot FileMissing)
           (forComment env_refusing test_client "docA" open_comment []
              (boot FileMissing)).2
     ∧ (forComment env_refusing test_client "docA" open_comment []
          (boot FileMissing)).1 = Normal ids'
     ∧ ("c4" ∈ ids' ↔ accepted resp = true))
  ∧ "c4" ∈ processed_ids
             (persisted (pollDocumentComments env_accepting watch_docA test_feishu
                           (boot FileMissing)).2) "docA"
  ∧ "c4" ∉ processed_ids
             (persisted (pollDocumentComments env_refusing watch_docA test_feishu
                           (boot FileMissing)).2) "docA".
Proof.
  split; [|split].
  - apply (proj1 (recorded_iff_post_accepted env_refusing) test_client "docA"
             open_comment [] (boot FileMissing)).
    + by_compute.
    + reflexivity.
    + apply hasOurReply_false. reflexivity.
  - apply (proj1 (proj2 (recorded_iff_post_accepted env_accepting)
                    watch_docA test_feishu (boot FileMissing) "docA" "c4")).
    apply posted_ok_check. vm_compute. reflexivity.
  - apply (proj2 (proj2 (recorded_iff_post_accepted env_refusing)
                    watch_docA test_feishu (boot FileMissing) "docA" "c4")).
    + by_compute.
    + apply (fetched_all "docA" _
               (λ c, comment_id c = "c4" →
                     is_solved c = false ∧ ¬ replied_by bot_placeholder c)).
      vm_compute fetched_in. repeat constructor.
      apply hasOurReply_false. reflexivity.
    + apply all_posts_failed_check. vm_compute. reflexivity.
Defined.

Lemma processed_ids_append_only_witness :
  (∃ suffix,
     processed_ids
       (persisted (pollDocumentComments env_accepting watch_docA test_feishu
                     (boot docA_has_c1)).2) "docA"
     = processed_ids (persisted (boot docA_has_c1)) "docA" ++ suffix)
  ∧ NoDup (processed_ids
             (persisted (pollDocumentComments env_accepting watch_docA test_feishu
                           (boot docA_has_c1)).2) "docA").
Proof.
  split.
  - apply (proj1 (processed_ids_append_only env_accepting watch_docA test_feishu
                    (boot docA_has_c1) "docA")).
  - apply (proj2 (processed_ids_append_only env_accepting watch_docA test_feishu
                    (boot docA_has_c1) "docA")).
    by_compute.
Defined.

Example cycle_appends_c4 :
  processed_ids
    (persisted (pollDocumentComments env_accepting watch_docA test_feishu
                  (boot docA_has_c1)).2) "docA" = ["c1"; "c4"].
Proof. vm_compute. reflexivity. Qed.

Lemma quiet_cycles_keep_processed_ids_witness :
  processed_ids (persisted quiet2) "docA" = processed_ids (persisted quiet0) "docA"
  ∧ Forall silent (events_since quiet0 quiet1)
  ∧ Forall silent (events_since quiet1 quiet2)
  ∧ (∃ st, stateFile quiet1 = FileJson st
           ∧ lastPollTime st = 1700000001000%float
           ∧ last (events_since quiet0 quiet1) = Some (EvWriteState st))
  ∧ (∃ st, stateFile quiet2 = FileJson st
           ∧ lastPollTime st = 1700000003000%float
           ∧ last (events_since quiet1 quiet2) = Some (EvWriteState st)).
Proof.
  assert (nothing_new (persisted quiet0) (events_since quiet0 quiet1)) as H1
    by (apply nothing_new_check; vm_compute; reflexivity).
  assert (nothing_new (persisted quiet1) (events_since quiet1 quiet2)) as H2
    by (apply nothing_new_check; vm_compute; reflexivity).
  pose proof (quiet_cycles_keep_processed_ids env_known watch_docA test_feishu
                quiet0 H1 H2) as (_ & Hids & Hs1 & Hs2 & Hw1 & Hw2).
  split; [apply Hids|]. split; [exact Hs1|]. split; [exact Hs2|].
  split.
  - destruct (after_polling env_known watch_docA test_feishu quiet0)
      as [[st' s3]|] eqn:Hafter; [|vm_compute in Hafter; discriminate Hafter].
    destruct (Hw1 st' s3 Hafter) as [Hfile Hlast].
    eexists. split; [exact Hfile|]. split; [|exact Hlast].
    vm_compute in Hafter. injection Hafter as _ <-. vm_compute. reflexivity.
  - destruct (after_polling env_known watch_docA test_feishu quiet1)
      as [[st' s3]|] eqn:Hafter; [|vm_compute in Hafter; discriminate Hafter].
    destruct (Hw2 st' s3 Hafter) as [Hfile Hlast].
    eexists. split; [exact Hfile|]. split; [|exact Hlast].
    vm_compute in Hafter. injection Hafter as _ <-. vm_compute. reflexivity.
Defined.

(** C5 as stated fails: in two cycles that fetch nothing new, the state
    file is rewritten with a fresh [lastPollTime]. *)
Lemma quiet_cycles_rewrite_state_file :
  nothing_new (persisted quiet0) (events_since quiet0 quiet1)
  ∧ nothing_new (persisted quiet1) (events_since quiet1 quiet2)
  ∧ stateFile quiet2 ≠ stateFile quiet0.
Proof.
  split; [|split].
  - apply nothing_new_check. vm_compute. reflexivity.
  - apply nothing_new_check. vm_compute. reflexivity.
  - intros H.
    assert (lastPollTime (persisted quiet2) = lastPollTime (persisted quiet0)) as Ht
      by (unfold persisted; by rewrite H).
    vm_compute in Ht. discriminate Ht.
Qed.

Lemma fetch_results_and_isolation_witness :
  (getFileComments env_docB_down test_client "docA" (boot FileMissing)).1
  = Normal [open_comment]
  ∧ ((getFileComments env_docB_down test_client "docB" (boot FileMissing)).1 = Thrown
     ∧ (forFile env_docB_down test_client "docB"
          {| lastPollTime := 0; processedComments := ∅ |} (boot FileMissing)).1
       = Normal {| lastPollTime := 0; processedComments := ∅ |}
     ∧ events_since (boot FileMissing)
         (forFile env_docB_down test_client "docB"
            {| lastPollTime := 0; processedComments := ∅ |} (boot FileMissing)).2
       = [EvGetComments "docB" "docx" None;
          EvConsoleError (ErrorProcessingFile "docB")])
  ∧ ∃ r, EvGetComments "docC" "docx" r
           ∈ events_since (boot FileMissing)
               (forFiles env_docB_down test_client ["docA"; "docB"; "docC"]
                  {| lastPollTime := 0; processedComments := ∅ |}
                  (boot FileMissing)).2.
Proof.
  split; [|split].
  - apply (proj1 (fetch_results_and_isolation env_docB_down) test_client "docA"
             (boot FileMissing)
             {| comments_code := 0; comments_msg := "success";
                comments_items := Some [open_comment] |}); reflexivity.
  - apply (proj1 (proj2 (fetch_results_and_isolation env_docB_down))).
    reflexivity.
  - destruct (proj2 (proj2 (fetch_results_and_isolation env_docB_down))
                test_client ["docA"; "docB"; "docC"]
                {| lastPollTime := 0; processedComments := ∅ |} (boot FileMissing))
      as (st' & _ & Hall).
    apply Hall. by_compute.
Defined.

(** C6 as stated fails: when the request is rejected the fetch does not
    return the empty list, it throws. *)
Lemma rejected_fetch_is_not_an_empty_list :
  (get_comments env_docB_down test_client "docB" "docx" (world (boot FileMissing))).1
  = None
  ∧ (getFileComments env_docB_down test_client "docB" (boot FileMissing)).1
    ≠ Normal [].
Proof. split; [reflexivity|]. vm_compute. discriminate. Qed.

Example docB_failure_does_not_stop_the_cycle :
  let s' := (pollDocumentComments env_docB_down
               {| enabled := true; pollIntervalMinutes := 15; indexDocument := None;
                  watchedFiles := ["docA"; "docB"; "docC"] |}
               test_feishu (boot FileMissing)).2 in
  processed_ids (persisted s') "docA" = ["c4"]
  ∧ processed_ids (persisted s') "docB" = []
  ∧ processed_ids (persisted s') "docC" = ["c4"].
Proof. vm_compute. done. Qed.

Lemma empty_index_falls_back_to_watchedFiles_witness :
  (resolveWatchedFiles env_index_without_links index_and_list test_client
     (boot docA_has_c1)).1 = Normal ["docA"]
  ∧ stateFile (pollDocumentComments env_index_without_links index_only test_feishu
                 (boot docA_has_c1)).2 = docA_has_c1
  ∧ Forall preliminary
      (events_since (boot docA_has_c1)
         (pollDocumentComments env_index_without_links index_only test_feishu
            (boot docA_has_c1)).2).
Proof.
  split.
  - apply (proj1 (empty_index_falls_back_to_watchedFiles env_index_without_links
                    index_and_list "idx" eq_refl eq_refl)).
    reflexivity.
  - apply (proj2 (empty_index_falls_back_to_watchedFiles env_index_without_links
                    index_only "idx" eq_refl eq_refl) test_feishu (boot docA_has_c1)).
    + reflexivity.
    + intros token Htoken. vm_compute in Htoken. injection Htoken as <-.
      vm_compute. reflexivity.
Defined.

(** ** The placeholder identity *)

(** C1 fails on the code at its third test.  In a cycle over [docA], whose
    fetched comments are [c1] (recorded already), [c2] (solved) and [c9]
    (unsolved, with a reply authored by the agent itself), the first two
    are settled as the claim says: [c1] is skipped and [c2] is recorded
    without a reply.  For [c9] the third test should apply; the code
    compares reply authors with the placeholder ["bot"], takes the
    comment for a new one, invokes the agent and posts a second reply. *)
Example own_reply_is_classified_as_new :
  replied_by agent_open_id answered_by_agent
  ∧ is_solved answered_by_agent = false
  ∧ events_since (boot docA_has_c1)
      (pollDocumentComments env_own_reply watch_docA test_feishu
         (boot docA_has_c1)).2
    = [EvTokenRequest "cli_a1" "secret" token_ok;
       EvGetComments "docA" "docx"
         (comments_ok [sample_comment "c1" false None;
                       sample_comment "c2" true None;
                       answered_by_agent]);
       EvInvoke (make_prompt "why?" None) (agent_says "Because.");
       EvPostReply "docA" "c9" "Because." "docx" reply_ok;
       EvWriteState
         (persisted (pollDocumentComments env_own_reply watch_docA test_feishu
                       (boot docA_has_c1)).2)]
  ∧ processed_ids
      (persisted (pollDocumentComments env_own_reply watch_docA test_feishu
                    (boot docA_has_c1)).2) "docA"
    = ["c1"; "c2"; "c9"].
Proof.
  split; [|split; [|split]].
  - exists [reply_from agent_open_id], (reply_from agent_open_id).
    split; [done|]. split; [by apply list_elem_of_singleton|done].
  - reflexivity.
  - vm_compute. reflexivity.
  - vm_compute. reflexivity.
Qed.

(** ** Documents named like a member of [Object.prototype] *)

(** X20: a watched document whose token is the name of a member of
    [Object.prototype], and for which nothing is recorded yet, is fetched
    and none of its comments is looked at: no agent invocation, no reply,
    no change of the state.  The lookup of the recorded ids finds the
    inherited member; with at least one comment fetched, [includes] is not
    a function and the handler of the file loop logs the error. *)
Theorem inherited_token_is_not_processed {W} (env : Collaborators W)
    client f st (s : Sys W) resp :
  inherited f = true → processedComments st !! f = None →
  (get_comments env client f "docx" (world s)).1 = Some resp →
  (forFile env client f st s).1 = Normal st
  ∧ events_since s (forFile env client f st s).2
    = EvGetComments f "docx" (Some resp)
        :: fetch_diag resp
        ++ match fetched resp with
           | [] => []
           | _ :: _ => [EvConsoleError (ErrorProcessingFile f)]
           end.
Proof.
  intros Hinh Hnone Hresp.
  assert (lookupProcessedIds st f = IdsInherited) as Hlook
    by (unfold lookupProcessedIds; by rewrite Hnone, Hinh).
  apply (run_elim (forFile env client f st) s
           (λ c _ evs, c = Normal st
              ∧ evs = EvGetComments f "docx" (Some resp)
                        :: fetch_diag resp
                        ++ match fetched resp with
                           | [] => []
                           | _ :: _ => [EvConsoleError (ErrorProcessingFile f)]
                           end)).
  unfold forFile, console_error.
  do 2 run_step. eapply run_mono; [apply getFileComments_spec|].
  intros cpl s1 evs1 [_ Hf]. rewrite Hresp in Hf. destruct Hf as [-> ->].
  lazy beta iota. rewrite Hlook.
  destruct (fetched resp) as [|c cs]; run_steps; (split; [done|]); simpl;
    by rewrite ?app_nil_r.
Qed.

Example constructor_document_is_not_processed :
  events_since (boot FileMissing)
    (pollDocumentComments env_accepting watch_constructor test_feishu
       (boot FileMissing)).2
  = [EvTokenRequest "cli_a1" "secret" token_ok;
     EvGetComments "constructor" "docx" (comments_ok [open_comment]);
     EvConsoleError (ErrorProcessingFile "constructor");
     EvWriteState {| lastPollTime := 1700000001000; processedComments := ∅ |}].
Proof. vm_compute. reflexivity. Qed.

(** C4 fails on the code: a comment that already carries a reply from the
    agent, and is not yet recorded, is answered a second time, because the
    reply authors are compared with the placeholder ["bot"]. *)
Example own_reply_is_answered_again :
  replied_by agent_open_id answered_by_agent
  ∧ (forComment env_accepting test_client "docA" answered_by_agent []
       (boot FileMissing)).1 = Normal ["c9"]
  ∧ events_since (boot FileMissing)
      (forComment env_accepting test_client "docA" answered_by_agent []
         (boot FileMissing)).2
    = [EvInvoke (make_prompt "why?" None) (agent_says "Because.");
       EvPostReply "docA" "c9" "Because." "docx" reply_ok].
Proof.
  split; [|split].
  - exists [reply_from agent_open_id], (reply_from agent_open_id).
    split; [done|]. split; [by apply list_elem_of_singleton|done].
  - reflexivity.
  - reflexivity.
Qed.

(** ** More on link extraction *)

Section MoreExtraction.

Implicit Types (s tok rest : string) (docTokens tokens : list string)
  (blocks : list Block).

Lemma processElements_urls els docTokens :
  processElements els docTokens = extractFromUrls (element_urls els) docTokens.
Proof.
  revert docTokens. induction els as [|e rest IH]; intros d; simpl; [done|].
  destruct (linkUrl e) as [u|]; [|apply IH].
  destruct (truthy u); [|apply IH]. simpl.
  destruct (extractFromUrl u d); simpl; [apply IH|done].
Qed.

Lemma extractFromUrls_app urls urls' docTokens :
  extractFromUrls (urls ++ urls') docTokens
  = extractFromUrls urls docTokens ≫= extractFromUrls urls'.
Proof.
  revert docTokens. induction urls as [|u rest IH]; intros d; simpl; [done|].
  destruct (extractFromUrl u d); simpl; [apply IH|done].
Qed.

Lemma processContainers_urls (cs : list (option Container)) docTokens :
  processContainers cs docTokens
  = extractFromUrls (flat_map container_urls cs) docTokens.
Proof.
  revert docTokens. induction cs as [|c rest IH]; intros d; simpl; [done|].
  rewrite extractFromUrls_app.
  assert (container_urls c
          = match c ≫= elements with Some els => element_urls els | None => [] end)
    as -> by done.
  destruct (c ≫= elements) as [els|]; simpl; [|apply IH].
  rewrite processElements_urls.
  destruct (extractFromUrls (element_urls els) d); simpl; [apply IH|done].
Qed.

Lemma processBlocks_urls blocks docTokens :
  processBlocks blocks docTokens = extractFromUrls (link_urls blocks) docTokens.
Proof.
  revert docTokens. induction blocks as [|b rest IH]; intros d; [done|].
  rewrite processBlocks_cons. unfold link_urls. simpl flat_map.
  rewrite extractFromUrls_app, processContainers_urls.
  fold (block_urls b).
  destruct (extractFromUrls (block_urls b) d); simpl; [apply IH|done].
Qed.

Lemma extractFromUrls_None urls docTokens :
  extractFromUrls urls docTokens = None
  ↔ ∃ u, u ∈ urls ∧ decodeURIComponent u = None.
Proof.
  revert docTokens. induction urls as [|u rest IH]; intros d; simpl.
  { split; [done|]. intros (u & Hu & _). by apply elem_of_nil in Hu. }
  unfold extractFromUrl at 1.
  destruct (decodeURIComponent u) as [decoded|] eqn:Hdec; simpl.
  - rewrite IH. split.
    + intros (v & Hv & Hn). exists v. split; [by apply elem_of_cons; right|done].
    + intros (v & Hv & Hn). apply elem_of_cons in Hv as [->|Hv]; [congruence|].
      by exists v.
  - split; [|done]. intros _. exists u. split; [by apply elem_of_cons; left|done].
Qed.

(** X1: link extraction is [extractFromUrl] applied to the non-empty link
    URLs of the blocks in reading order, and it throws exactly when one of
    those URLs has a percent-escape [decodeURIComponent] rejects. *)
Theorem extractDocLinks_throws_iff_bad_escape blocks :
  extractDocLinks blocks = extractFromUrls (link_urls blocks) []
  ∧ (extractDocLinks blocks = None
     ↔ ∃ u, u ∈ link_urls blocks ∧ decodeURIComponent u = None).
Proof.
  unfold extractDocLinks. rewrite processBlocks_urls. split; [done|].
  apply extractFromUrls_None.
Qed.

Lemma take_alnum_all s : all_chars is_alnum (take_alnum s) = true.
Proof.
  induction s as [|c s IH]; simpl; [done|].
  destruct (is_alnum c) eqn:Hc; simpl; [by rewrite Hc|done].
Qed.

Lemma match_tail_good cand tok n : match_tail cand = Some (tok, n) → good_token tok.
Proof.
  unfold match_tail. destruct (strip_ci "/" cand.2) as [r|]; [|done].
  pose proof (take_alnum_all r) as Hall.
  destruct (take_alnum r) as [|c t] eqn:Ht; [done|].
  intros [= <- _]. split; [done|exact Hall].
Qed.

Lemma first_match_good cands tok n : first_match cands = Some (tok, n) → good_token tok.
Proof.
  induction cands as [|cand rest IH]; simpl; [done|].
  destruct (match_tail cand) as [[t k]|] eqn:Hm; [|exact IH].
  intros [= <- <-]. by eapply match_tail_good.
Qed.

Lemma exec_all_good skip s : Forall good_token (exec_all skip s).
Proof.
  revert skip. induction s as [|c s IH]; intros skip; simpl; [constructor|].
  destruct skip as [|k]; [|apply IH].
  destruct (match_here (String c s)) as [[tok n]|] eqn:Hm; [|apply IH].
  constructor; [|apply IH]. by eapply first_match_good.
Qed.

Lemma push_new_Forall (P : string → Prop) tokens docTokens :
  Forall P tokens → Forall P docTokens → Forall P (push_new tokens docTokens).
Proof.
  revert docTokens. induction tokens as [|t rest IH]; intros d Ht Hd; simpl; [done|].
  apply Forall_cons in Ht as [Ht Hrest]. apply IH; [done|].
  destruct (includes d t); [done|]. apply Forall_app. split; [done|by constructor].
Qed.

Lemma extractFromUrls_good urls docTokens tokens :
  extractFromUrls urls docTokens = Some tokens →
  Forall good_token docTokens → Forall good_token tokens.
Proof.
  revert docTokens. induction urls as [|u rest IH]; intros d; simpl.
  { by intros [= <-]. }
  unfold extractFromUrl at 1.
  destruct (decodeURIComponent u) as [decoded|]; simpl; [|done].
  intros H Hd. eapply IH; [exact H|].
  apply push_new_Forall; [apply exec_all_good|done].
Qed.

(** X2: every token link extraction returns is a non-empty string of
    ASCII letters and digits. *)
Theorem extractDocLinks_tokens_alphanumeric blocks tokens :
  extractDocLinks blocks = Some tokens →
  Forall (λ tok, tok ≠ "" ∧ all_chars is_alnum tok = true) tokens.
Proof.
  unfold extractDocLinks. rewrite processBlocks_urls. intros H.
  eapply extractFromUrls_good; [exact H|constructor].
Qed.

Lemma decode_no_percent s :
  all_chars not_percent s = true → decode None s = Some s.
Proof.
  induction s as [|c s IH]; simpl; [done|].
  unfold not_percent at 1. destruct (Ascii.eqb c "%"); simpl; [done|].
  intros H. by rewrite (IH H).
Qed.

Lemma fmap_None_eq {A B} (h : A → B) (o : option A) : o = None → h <$> o = None.
Proof. by intros ->. Qed.

Lemma decode_trailing_percent n s pend :
  String.length s ≤ n → decode pend (s +:+ "%") = None.
Proof.
  revert s pend. induction n as [|n IH]; intros s pend Hlen.
  { destruct s; simpl in *; [by destruct pend|lia]. }
  destruct s as [|c s1]; [by destruct pend|].
  simpl in Hlen. simpl.
  destruct (Ascii.eqb c "%").
  - destruct s1 as [|h1 [|h2 s3]]; simpl.
    + done.
    + destruct (hex_value h1); done.
    + simpl in Hlen.
      assert (∀ p, decode p (s3 +:+ "%") = None) as Hrec by (intros p; apply IH; lia).
      destruct (hex_value h1) as [a|]; [|done].
      destruct (hex_value h2) as [b|]; [|done].
      destruct pend as [[k octets]|].
      * destruct k as [|[|k]]; [done| |apply Hrec].
        destruct (valid_utf8 _); [|done]. apply fmap_None_eq, Hrec.
      * destruct (leading_ones _) as [|[|[|[|[|]]]]]; try done; try apply Hrec.
        apply fmap_None_eq, Hrec.
  - destruct pend; [done|]. apply fmap_None_eq, IH. lia.
Qed.

(** X3: for a URL without [%] no decoding takes place: [extractFromUrl]
    scans the URL as it is and adds the tokens that are new.  For a URL
    that ends in [%], whatever precedes it, [decodeURIComponent] throws and
    so does [extractFromUrl]. *)
Theorem extractFromUrl_plain_and_dangling u docTokens :
  (all_chars not_percent u = true →
     extractFromUrl u docTokens = Some (push_new (exec_all 0 u) docTokens))
  ∧ extractFromUrl (u +:+ "%") docTokens = None.
Proof.
  unfold extractFromUrl, decodeURIComponent. split.
  - intros Hu. by rewrite (decode_no_percent u Hu).
  - by rewrite (decode_trailing_percent (String.length u) u None).
Qed.

Lemma append_nil s : "" +:+ s = s.
Proof. reflexivity. Qed.

Lemma append_cons c s1 s2 : String c s1 +:+ s2 = String c (s1 +:+ s2).
Proof. reflexivity. Qed.

Lemma append_nil_r s : s +:+ "" = s.
Proof. induction s as [|c s IH]; [done|]. by rewrite append_cons, IH. Qed.

Lemma append_assoc s1 s2 s3 : (s1 +:+ s2) +:+ s3 = s1 +:+ (s2 +:+ s3).
Proof.
  induction s1 as [|c s1 IH]; [done|]. by rewrite !append_cons, IH.
Qed.

Lemma length_append s1 s2 :
  String.length (s1 +:+ s2) = String.length s1 + String.length s2.
Proof.
  induction s1 as [|c s1 IH]; [done|]. rewrite append_cons. simpl. by rewrite IH.
Qed.

Lemma exec_all_skip a s : exec_all (String.length a) (a +:+ s) = exec_all 0 s.
Proof.
  induction a as [|c a IH]; [by destruct s|]. rewrite append_cons. exact IH.
Qed.

Lemma take_alnum_token tok rest :
  all_chars is_alnum tok = true → token_ends rest = true →
  take_alnum (tok +:+ rest) = tok.
Proof.
  intros Htok Hrest. induction tok as [|c tok IH].
  - rewrite append_nil. destruct rest as [|c rest]; simpl in *; [done|].
    by destruct (is_alnum c).
  - simpl in Htok. apply andb_prop in Htok as [Hc Htok].
    rewrite append_cons. simpl. by rewrite Hc, IH.
Qed.

Lemma ci_eqb_val k a x : to_lower a = x → ci_eqb k a = Ascii.eqb (to_lower k) x.
Proof. unfold ci_eqb. by intros ->. Qed.

Lemma strip_ci_cons k pat c s :
  strip_ci (String k pat) (String c s) = if ci_eqb k c then strip_ci pat s else None.
Proof. reflexivity. Qed.

Lemma strip_ci_nil s : strip_ci "" s = Some s.
Proof. by destruct s. Qed.

(** Evaluate the case-insensitive tests on characters that are literals or
    whose lower-case form is known. *)
Ltac ci_eval :=
  repeat first
    [ rewrite strip_ci_nil
    | rewrite strip_ci_cons
    | match goal with
      | H : to_lower ?a = ?x |- context [ci_eqb ?k ?a] =>
          rewrite (ci_eqb_val k a x H)
      end
    | match goal with
      | |- context [Ascii.eqb (to_lower ?k) ?x] =>
          let v := eval vm_compute in (Ascii.eqb (to_lower k) x) in
          lazymatch v with true => idtac | false => idtac end;
          change (Ascii.eqb (to_lower k) x) with v
      end
    | match goal with
      | |- context [ci_eqb ?k ?c] =>
          let v := eval vm_compute in (ci_eqb k c) in
          lazymatch v with true => idtac | false => idtac end;
          change (ci_eqb k c) with v
      end
    | progress cbv beta iota ].

Lemma match_here_keyword p tok rest :
  keyword p → tok ≠ "" → all_chars is_alnum tok = true → token_ends rest = true →
  match_here (p +:+ "/" +:+ tok +:+ rest)
  = Some (tok, String.length p + 1 + String.length tok).
Proof.
  intros Hp Hne Htok Hrest.
  pose proof (take_alnum_token tok rest Htok Hrest) as Htake.
  unfold match_here, group_candidates.
  destruct Hp as [Hp|[Hp|Hp]].
  - destruct p as [|a [|b [|c [|]]]]; try discriminate Hp.
    simpl in Hp. injection Hp as Ha Hb Hc.
    rewrite !append_cons, !append_nil. ci_eval.
    unfold first_match, app, match_tail, fst, snd. ci_eval.
    rewrite Htake. by destruct tok.
  - destruct p as [|a [|b [|c [|d [|]]]]]; try discriminate Hp.
    simpl in Hp. injection Hp as Ha Hb Hc Hd.
    rewrite !append_cons, !append_nil. ci_eval.
    unfold first_match, app, match_tail, fst, snd. ci_eval.
    rewrite Htake. by destruct tok.
  - destruct p as [|a [|b [|c [|d [|]]]]]; try discriminate Hp.
    simpl in Hp. injection Hp as Ha Hb Hc Hd.
    rewrite !append_cons, !append_nil. ci_eval.
    unfold first_match, app, match_tail, fst, snd. ci_eval.
    rewrite Htake. by destruct tok.
Qed.

Lemma exec_all_keyword p tok rest :
  keyword p → tok ≠ "" → all_chars is_alnum tok = true → token_ends rest = true →
  exec_all 0 (p +:+ "/" +:+ tok +:+ rest) = tok :: exec_all 0 rest.
Proof.
  intros Hp Hne Htok Hrest.
  pose proof (match_here_keyword p tok rest Hp Hne Htok Hrest) as Hm.
  destruct p as [|c p]; [by destruct Hp as [?|[?|?]]|].
  change (exec_all 0 (String c p +:+ "/" +:+ tok +:+ rest))
    with (match match_here (String c p +:+ "/" +:+ tok +:+ rest) with
          | Some (token, len) =>
              token :: exec_all (len - 1) (p +:+ "/" +:+ tok +:+ rest)
          | None => exec_all 0 (p +:+ "/" +:+ tok +:+ rest)
          end).
  rewrite Hm. f_equal.
  replace (String.length (String c p) + 1 + String.length tok - 1)
    with (String.length (p +:+ "/" +:+ tok))
    by (rewrite !length_append; simpl; lia).
  rewrite <- (exec_all_skip (p +:+ "/" +:+ tok) rest).
  by rewrite !append_assoc.
Qed.

(** X4: where the scanned text reads [doc/], [docx/] or [wiki/] (in any
    letter case) followed by a non-empty run of letters and digits that
    ends at the end of the text or at another character, that run is the
    next token, and scanning resumes right after it. *)
Theorem exec_all_takes_token_after_keyword p tok rest :
  lower p = "doc" ∨ lower p = "docx" ∨ lower p = "wiki" →
  tok ≠ "" → all_chars is_alnum tok = true → token_ends rest = true →
  exec_all 0 (p +:+ "/" +:+ tok +:+ rest) = tok :: exec_all 0 rest.
Proof. apply exec_all_keyword. Qed.

Lemma is_keyword_true p : is_keyword p = true ↔ keyword p.
Proof.
  unfold is_keyword, keyword. rewrite !orb_true_iff, !String.eqb_eq. tauto.
Qed.

Lemma ci_eqb_slash c : no_slash c = true → ci_eqb "/" c = false.
Proof.
  unfold no_slash. intros H.
  destruct c as [[] [] [] [] [] [] [] []]; try reflexivity; discriminate H.
Qed.

Lemma ci_eqb_true k c : ci_eqb k c = true → to_lower c = to_lower k.
Proof. unfold ci_eqb. intros H. by apply Ascii.eqb_eq in H. Qed.

Lemma all_chars_cons q c s : all_chars q (String c s) = q c && all_chars q s.
Proof. reflexivity. Qed.

(** Case analysis on every case-insensitive test in the goal. *)
Ltac ci_cases :=
  repeat first
    [ rewrite strip_ci_nil
    | rewrite strip_ci_cons
    | match goal with
      | H : no_slash ?c = true |- context [ci_eqb "/" ?c] =>
          rewrite (ci_eqb_slash c H)
      end
    | match goal with
      | |- context [ci_eqb ?k ?c] =>
          let v := eval vm_compute in (ci_eqb k c) in
          lazymatch v with true => idtac | false => idtac end;
          change (ci_eqb k c) with v
      end
    | match goal with
      | |- context [ci_eqb ?k ?c] => destruct (ci_eqb k c) eqn:?
      end
    | progress cbv beta iota ].

Lemma match_here_inside_host b s :
  all_chars no_slash b = true → is_keyword b = false →
  match_here (b +:+ String "/" s) = None.
Proof.
  intros Hb Hk.
  assert (¬ keyword b) as Hnk by (rewrite <- is_keyword_true; congruence).
  clear Hk. unfold match_here, group_candidates.
  destruct b as [|c1 [|c2 [|c3 [|c4 [|c5 b]]]]];
    rewrite ?append_cons, ?append_nil;
    rewrite ?all_chars_cons in Hb;
    repeat match goal with
           | H : _ && _ = true |- _ => apply andb_prop in H as [? H]
           end;
    ci_cases; unfold first_match, app, match_tail, fst, snd; ci_cases;
    try reflexivity;
    repeat match goal with
           | H : ci_eqb ?k ?c = true |- _ =>
               apply ci_eqb_true in H;
               let v := eval vm_compute in (to_lower k) in
               change (to_lower c = v) in H
           end;
    try congruence;
    exfalso; apply Hnk; unfold keyword; simpl;
    repeat match goal with H : to_lower _ = _ |- _ => rewrite H; clear H end;
    auto.
Qed.

Lemma exec_all_through_host host s :
  all_chars no_slash host = true → has_keyword_suffix host = false →
  exec_all 0 (host +:+ String "/" s) = exec_all 0 (String "/" s).
Proof.
  induction host as [|c host IH]; [done|].
  rewrite all_chars_cons. intros Hb Hk.
  apply andb_prop in Hb as [Hc Hb].
  change (has_keyword_suffix (String c host))
    with (is_keyword (String c host) || has_keyword_suffix host) in Hk.
  apply orb_false_elim in Hk as [Hk Hsuf].
  pose proof (match_here_inside_host (String c host) s) as Hm.
  rewrite all_chars_cons, Hc, Hb in Hm. specialize (Hm eq_refl Hk).
  rewrite append_cons in Hm |- *.
  change (exec_all 0 (String c (host +:+ String "/" s)))
    with (match match_here (String c (host +:+ String "/" s)) with
          | Some (token, len) =>
              token :: exec_all (len - 1) (host +:+ String "/" s)
          | None => exec_all 0 (host +:+ String "/" s)
          end).
  rewrite Hm. by apply IH.
Qed.

Lemma exec_all_documented host p tok rest :
  all_chars no_slash host = true → has_keyword_suffix host = false →
  keyword p → tok ≠ "" → all_chars is_alnum tok = true → token_ends rest = true →
  exec_all 0 ("https://" +:+ host +:+ "/" +:+ p +:+ "/" +:+ tok +:+ rest)
  = tok :: exec_all 0 rest.
Proof.
  intros Hhost Hsuf Hp Hne Htok Hrest.
  change (exec_all 0 ("https://" +:+ host +:+ "/" +:+ p +:+ "/" +:+ tok +:+ rest))
    with (exec_all 0 (host +:+ String "/" (p +:+ "/" +:+ tok +:+ rest))).
  rewrite exec_all_through_host by done.
  change (exec_all 0 (String "/" (p +:+ "/" +:+ tok +:+ rest)))
    with (exec_all 0 (p +:+ "/" +:+ tok +:+ rest)).
  by apply exec_all_keyword.
Qed.

Lemma all_chars_app q s1 s2 :
  all_chars q (s1 +:+ s2) = all_chars q s1 && all_chars q s2.
Proof.
  induction s1 as [|c s1 IH]; [done|].
  rewrite append_cons, !all_chars_cons, IH. by rewrite andb_assoc.
Qed.

Lemma all_chars_impl (q q' : ascii → bool) s :
  (∀ c, q c = true → q' c = true) → all_chars q s = true → all_chars q' s = true.
Proof.
  intros Hq. induction s as [|c s IH]; [done|]. rewrite !all_chars_cons.
  intros H. apply andb_prop in H as [Hc Hs]. by rewrite (Hq c Hc), (IH Hs).
Qed.

Lemma is_alnum_not_percent c : is_alnum c = true → not_percent c = true.
Proof.
  intros H. destruct c as [[] [] [] [] [] [] [] []]; try reflexivity; discriminate H.
Qed.

Lemma percent_to_lower c : not_percent c = false → to_lower c = "%"%char.
Proof.
  intros H. destruct c as [[] [] [] [] [] [] [] []]; try reflexivity; discriminate H.
Qed.

Lemma keyword_not_percent p : keyword p → all_chars not_percent p = true.
Proof.
  assert (∀ c x, to_lower c = x → x ≠ "%"%char → not_percent c = true) as Hc.
  { intros c x Hx Hne. destruct (not_percent c) eqn:Hp; [done|].
    apply percent_to_lower in Hp. congruence. }
  intros [Hp|[Hp|Hp]].
  - destruct p as [|a [|b [|c [|]]]]; try discriminate Hp.
    simpl in Hp. injection Hp as Ha Hb Hc'. rewrite !all_chars_cons.
    by rewrite (Hc _ _ Ha), (Hc _ _ Hb), (Hc _ _ Hc').
  - destruct p as [|a [|b [|c [|d [|]]]]]; try discriminate Hp.
    simpl in Hp. injection Hp as Ha Hb Hc' Hd. rewrite !all_chars_cons.
    by rewrite (Hc _ _ Ha), (Hc _ _ Hb), (Hc _ _ Hc'), (Hc _ _ Hd).
  - destruct p as [|a [|b [|c [|d [|]]]]]; try discriminate Hp.
    simpl in Hp. injection Hp as Ha Hb Hc' Hd. rewrite !all_chars_cons.
    by rewrite (Hc _ _ Ha), (Hc _ _ Hb), (Hc _ _ Hc'), (Hc _ _ Hd).
Qed.

(** X5: for a link URL of the documented shape [https://HOST/docx/TOKEN]
    (also with [doc] or [wiki], in any letter case), where [HOST] contains
    no slash and no [%] and no suffix of it reads [doc], [docx] or [wiki],
    and [TOKEN] is a non-empty run of letters and digits, [extractFromUrl]
    finds exactly [TOKEN]: it is appended to the tokens found so far
    unless it is among them already. *)
Theorem extractFromUrl_documented_url host p tok docTokens :
  all_chars no_slash host = true → all_chars not_percent host = true →
  has_keyword_suffix host = false → is_keyword p = true →
  tok ≠ "" → all_chars is_alnum tok = true →
  extractFromUrl ("https://" +:+ host +:+ "/" +:+ p +:+ "/" +:+ tok) docTokens
  = Some (if includes docTokens tok then docTokens else docTokens ++ [tok]).
Proof.
  intros Hslash Hpct Hsuf Hp Hne Htok. apply is_keyword_true in Hp.
  unfold extractFromUrl, decodeURIComponent. rewrite decode_no_percent.
  - rewrite <- (append_nil_r tok) at 1.
    change (Some (push_new (exec_all 0 ("https://" +:+ host +:+ "/" +:+ p +:+ "/"
                                        +:+ tok +:+ "")) docTokens)
            = Some (if includes docTokens tok then docTokens else docTokens ++ [tok])).
    by rewrite (exec_all_documented host p tok "" Hslash Hsuf Hp Hne Htok eq_refl).
  - rewrite !all_chars_app, Hpct, (keyword_not_percent p Hp),
      (all_chars_impl _ _ tok is_alnum_not_percent Htok). reflexivity.
Qed.

(** A host that ends in [wiki] makes the scan take [docx] for the token. *)
Example host_ending_in_keyword :
  exec_all 0 "https://mywiki/docx/ABC123" = ["docx"].
Proof. reflexivity. Qed.

End MoreExtraction.

(** ** More on the collaborator calls *)

Section MoreCalls.

Context {W : Type}.
Variable env : Collaborators W.
Implicit Types (s : Sys W) (st : ProcessedState).

Lemma events_since_app s s' evs : trace s' = trace s ++ evs → events_since s s' = evs.
Proof. unfold events_since. intros ->. apply drop_app_length. Qed.

Lemma request_eq {R} (op : W → option R * W) (ev : option R → Event) s :
  request op ev s
  = let r := (op (world s)).1 in
    let s1 := add_event (ev r) (set_world (op (world s)).2 s) in
    match r with
    | Some body => (Normal body, s1)
    | None => (Thrown, s1)
    end.
Proof.
  unfold request, call, emit, mbind, M_bind, mret, M_ret, throw.
  by destruct (op (world s)) as [[body|] w].
Qed.

Lemma getTenantAccessToken_eq a b s :
  getTenantAccessToken env a b s
  = let now := (Date_now env (world s)).1 in
    let s0 := set_world (Date_now env (world s)).2 s in
    if cache_valid s now then (Normal (default "" (accessToken s)), s0)
    else
      match request (axios_post_token env a b) (EvTokenRequest a b) s0 with
      | (Normal resp, s1) =>
          if negb (token_code resp =? 0)%Z then (Thrown, s1)
          else (Normal (tenant_access_token resp),
                set_cache (tenant_access_token resp)
                  (now + (expire resp - 60) * 1000)%float s1)
      | (Thrown, s1) => (Thrown, s1)
      end.
Proof.
  unfold getTenantAccessToken, cache_valid, call, get_sys, modify.
  unfold mbind at 1 2, M_bind at 1 2.
  destruct (Date_now env (world s)) as [now w]. simpl.
  set (s0 := set_world w s).
  destruct (accessToken s) as [t|]; simpl.
  - destruct (truthy t && (now <? tokenExpiry s)%float); [done|].
    unfold mbind, M_bind.
    destruct (request _ _ s0) as [[resp|] s1]; [|done].
    by destruct (negb (token_code resp =? 0)%Z).
  - unfold mbind, M_bind.
    destruct (request _ _ s0) as [[resp|] s1]; [|done].
    by destruct (negb (token_code resp =? 0)%Z).
Qed.

(** X6: the access token is cached across calls.  While the cached token
    is non-empty and the clock reads less than its expiry, the call returns
    it without any request, whatever credentials are passed.  A request
    answered with code 0 stores the token with expiry
    [now + (expire - 60) * 1000], computed in double-precision arithmetic
    as the source does; a rejected request or a non-zero code throws and
    leaves the cache as it was. *)
Theorem getTenantAccessToken_cache a b s :
  let now := (Date_now env (world s)).1 in
  let s0 := set_world (Date_now env (world s)).2 s in
  let r := (axios_post_token env a b (world s0)).1 in
  let out := getTenantAccessToken env a b s in
  (∀ t, accessToken s = Some t → truthy t = true →
        (now <? tokenExpiry s)%float = true →
        out = (Normal t, s0))
  ∧ (cache_valid s now = false →
     ∀ resp, r = Some resp → token_code resp = 0%Z →
       out.1 = Normal (tenant_access_token resp)
       ∧ accessToken out.2 = Some (tenant_access_token resp)
       ∧ tokenExpiry out.2 = (now + (expire resp - 60) * 1000)%float
       ∧ events_since s out.2 = [EvTokenRequest a b (Some resp)])
  ∧ (cache_valid s now = false →
     (r = None ∨ ∃ resp, r = Some resp ∧ token_code resp ≠ 0%Z) →
       out.1 = Thrown
       ∧ accessToken out.2 = accessToken s
       ∧ tokenExpiry out.2 = tokenExpiry s
       ∧ events_since s out.2 = [EvTokenRequest a b r]).
Proof.
  intros now s0 r out. subst out. rewrite getTenantAccessToken_eq.
  cbv zeta. rewrite request_eq. cbv zeta. fold now. fold s0. fold r.
  split; [|split].
  - intros t Ht Htruthy Hnow. unfold cache_valid. rewrite Ht, Htruthy. simpl.
    by rewrite Hnow.
  - intros -> resp Hr Hcode. rewrite Hr. simpl. rewrite Hcode. simpl.
    repeat split; try done. by apply events_since_app.
  - intros -> [Hr|(resp & Hr & Hcode)]; rewrite Hr; simpl.
    + repeat split; try done. by apply events_since_app.
    + apply Z.eqb_neq in Hcode. rewrite Hcode. simpl.
      repeat split; try done. by apply events_since_app.
Qed.

Lemma getDocumentContent_eq client f s :
  getDocumentContent env client f s
  = let r := (get_blocks env client f (world s)).1 in
    let s1 := add_event (EvGetBlocks f r)
                (set_world (get_blocks env client f (world s)).2 s) in
    match r with
    | Some resp =>
        if negb (blocks_code resp =? 0)%Z
        then (Normal None,
              add_event (EvConsoleError (FailedToGetDocContent (blocks_msg resp))) s1)
        else (Normal (Some (default [] (blocks_items resp))), s1)
    | None => (Normal None, add_event (EvConsoleError ErrorGettingDocContent) s1)
    end.
Proof.
  unfold getDocumentContent, try_catch. unfold mbind at 1, M_bind at 1.
  rewrite request_eq. cbv zeta.
  destruct ((get_blocks env client f (world s)).1) as [resp|]; [|done].
  by destruct (negb (blocks_code resp =? 0)%Z).
Qed.

Lemma getWatchedFilesFromIndex_eq client tok s :
  getWatchedFilesFromIndex env client tok s
  = match getDocumentContent env client tok s with
    | (Normal (Some bs), s1) =>
        match extractDocLinks bs with
        | Some tokens => (Normal tokens, s1)
        | None => (Thrown, s1)
        end
    | (Normal None, s1) =>
        (Normal [], add_event (EvConsoleError CouldNotReadIndexDocument) s1)
    | (Thrown, s1) => (Thrown, s1)
    end.
Proof.
  unfold getWatchedFilesFromIndex, console_error, emit, mbind, M_bind, mret,
    M_ret, throw.
  destruct (getDocumentContent env client tok s) as [[[bs|]|] s1]; try done.
  by destruct (extractDocLinks bs).
Qed.

(** X7: reading the index document never throws by itself.  When the
    request is rejected or answered with a non-zero code, the watch list
    from the index is empty and [Could not read index document] is printed
    after the diagnostic of the read.  When the answer has code 0, the
    result is what link extraction gives on its blocks (none if [items] is
    missing), and the only throw is the one of a malformed link. *)
Theorem getWatchedFilesFromIndex_outcome client tok s :
  let r := (get_blocks env client tok (world s)).1 in
  let out := getWatchedFilesFromIndex env client tok s in
  (getDocumentContent env client tok s).1 ≠ Thrown
  ∧ stateFile out.2 = stateFile s
  ∧ (r = None →
       out.1 = Normal []
       ∧ events_since s out.2
         = [EvGetBlocks tok None; EvConsoleError ErrorGettingDocContent;
            EvConsoleError CouldNotReadIndexDocument])
  ∧ (∀ resp, r = Some resp → blocks_code resp ≠ 0%Z →
       out.1 = Normal []
       ∧ events_since s out.2
         = [EvGetBlocks tok (Some resp);
            EvConsoleError (FailedToGetDocContent (blocks_msg resp));
            EvConsoleError CouldNotReadIndexDocument])
  ∧ (∀ resp, r = Some resp → blocks_code resp = 0%Z →
       out.1 = match extractDocLinks (default [] (blocks_items resp)) with
               | Some tokens => Normal tokens
               | None => Thrown
               end
       ∧ events_since s out.2 = [EvGetBlocks tok (Some resp)]).
Proof.
  intros r out. subst out.
  rewrite getWatchedFilesFromIndex_eq, getDocumentContent_eq. cbv zeta.
  fold r. split; [|split; [|split; [|split]]].
  - destruct r as [resp|]; [|done]. by destruct (negb (blocks_code resp =? 0)%Z).
  - destruct r as [resp|]; [|done].
    destruct (negb (blocks_code resp =? 0)%Z); [done|].
    by destruct (extractDocLinks _).
  - intros ->. split; [done|]. apply events_since_app. simpl.
    by rewrite <- !app_assoc.
  - intros resp -> Hcode. apply Z.eqb_neq in Hcode. rewrite Hcode. simpl.
    split; [done|]. apply events_since_app. simpl. by rewrite <- !app_assoc.
  - intros resp -> Hcode. rewrite Hcode. simpl.
    destruct (extractDocLinks _); (split; [done|]); by apply events_since_app.
Qed.

(** X8: posting a reply never throws and never touches the state file.  It
    issues exactly one request, carrying the given text, and returns [true]
    exactly when that request is answered with code 0; a rejected request
    and an error code each print one diagnostic. *)
Theorem replyToComment_outcome client f id text s :
  let resp := (post_reply env client f id text "docx" (world s)).1 in
  let out := replyToComment env client f id text s in
  (out.1 = Normal true ∨ out.1 = Normal false)
  ∧ (out.1 = Normal true ↔ ∃ r, resp = Some r ∧ reply_code r = 0%Z)
  ∧ stateFile out.2 = stateFile s
  ∧ events_since s out.2
    = EvPostReply f id text "docx" resp
        :: match resp with
           | Some r => if (reply_code r =? 0)%Z then []
                       else [EvConsoleError (FailedToReply (reply_msg r))]
           | None => [EvConsoleError ErrorReplyingToComment]
           end.
Proof.
  intros resp out.
  destruct (run_elim _ _ _ (replyToComment_spec env client f id text s))
    as (resp' & Hout & Hfile & Hresp & Hev).
  fold out in Hout, Hfile, Hev. fold resp in Hresp. subst resp'.
  rewrite Hout, Hev. split; [|split; [|split]]; try done.
  - destruct (accepted resp); auto.
  - unfold accepted. destruct resp as [r|].
    + split.
      * intros [= Hc]. exists r. split; [done|]. by apply Z.eqb_eq.
      * intros (r' & [= <-] & Hc). by rewrite Hc.
    + split; [done|]. by intros (r' & ? & _).
Qed.

End MoreCalls.

(** ** More on the poll cycle *)

Section MoreSteps.

Implicit Types (f g id : string) (c : FeishuComment) (ids : list string)
  (evs : list Event) (st : ProcessedState).

Lemma fetch_tokens_app evs evs' :
  fetch_tokens (evs ++ evs') = fetch_tokens evs ++ fetch_tokens evs'.
Proof. apply omap_app. Qed.

Lemma writes_app evs evs' : writes (evs ++ evs') = writes evs ++ writes evs'.
Proof. apply omap_app. Qed.

Lemma posts_in_app f id evs evs' :
  posts_in f id (evs ++ evs') = posts_in f id evs ++ posts_in f id evs'.
Proof. apply flat_map_app. Qed.

Lemma accepted_posts_app f id evs evs' :
  accepted_posts f id (evs ++ evs')
  = accepted_posts f id evs + accepted_posts f id evs'.
Proof.
  unfold accepted_posts. by rewrite posts_in_app, List.filter_app, length_app.
Qed.

Lemma preliminary_views evs :
  Forall preliminary evs →
  fetch_tokens evs = [] ∧ writes evs = [] ∧ ∀ f id, posts_in f id evs = [].
Proof.
  induction 1 as [|e evs He _ (IH1 & IH2 & IH3)]; [done|].
  destruct e; try done; simpl; auto.
Qed.

Lemma console_views evs :
  (∀ e, e ∈ evs → ∃ d, e = EvConsoleError d) →
  fetch_tokens evs = [] ∧ writes evs = [] ∧ ∀ f id, posts_in f id evs = [].
Proof.
  intros H. apply preliminary_views, Forall_forall. intros e He.
  by destruct (H e He) as [d ->].
Qed.

Lemma CommentStep_views f c ids ids' evs :
  CommentStep f c ids ids' evs →
  fetch_tokens evs = [] ∧ writes evs = [] ∧ Forall file_event evs.
Proof.
  intros [| | |r resp _ _ _]; try by repeat constructor.
  destruct (console_views (agent_diag r) (agent_diag_no_post r)) as (Ha1 & Ha2 & _).
  destruct (console_views (reply_diag resp) (reply_diag_no_post resp))
    as (Hr1 & Hr2 & _).
  assert (∀ l, (∀ e, e ∈ l → ∃ d, e = EvConsoleError d) → Forall file_event l)
    as Hfe.
  { intros l Hl. apply Forall_forall. intros e He. by destruct (Hl e He) as [d ->]. }
  change (EvInvoke ?p r :: agent_diag r ++ ?e :: reply_diag resp)
    with ([EvInvoke p r] ++ agent_diag r ++ [e] ++ reply_diag resp).
  rewrite !fetch_tokens_app, !writes_app, Ha1, Ha2, Hr1, Hr2.
  split; [done|]. split; [done|].
  rewrite !Forall_app. repeat split.
  - by repeat constructor.
  - apply Hfe, agent_diag_no_post.
  - by repeat constructor.
  - apply Hfe, reply_diag_no_post.
Qed.

Lemma CommentSteps_views f cs ids ids' evs :
  CommentSteps f cs ids ids' evs →
  fetch_tokens evs = [] ∧ writes evs = [] ∧ Forall file_event evs.
Proof.
  induction 1 as [ids|c cs ids ids1 ids2 evs evs' Hstep _ (IH1 & IH2 & IH3)];
    [by repeat constructor|].
  apply CommentStep_views in Hstep as (H1 & H2 & H3).
  rewrite fetch_tokens_app, writes_app, H1, H2, IH1, IH2.
  split; [done|]. split; [done|]. by apply Forall_app.
Qed.

Lemma FileStep_views f st st' evs :
  FileStep f st st' evs →
  fetch_tokens evs = [f] ∧ writes evs = [] ∧ Forall file_event evs.
Proof.
  intros [|resp ids evs' Hlook Hsteps|resp Hlook]; [by repeat constructor| |].
  2: { assert (∀ e, e ∈ fetch_diag resp
                      ++ match fetched resp with
                         | [] => []
                         | _ :: _ => [EvConsoleError (ErrorProcessingFile f)]
                         end → ∃ d, e = EvConsoleError d) as Hc.
       { intros e He. apply elem_of_app in He as [He|He];
           [by apply fetch_diag_console in He|].
         destruct (fetched resp); [by apply elem_of_nil in He|].
         apply list_elem_of_singleton in He. eauto. }
       destruct (console_views _ Hc) as (Hd1 & Hd2 & _).
       change (EvGetComments f "docx" (Some resp) :: ?l)
         with ([EvGetComments f "docx" (Some resp)] ++ l).
       rewrite fetch_tokens_app, writes_app, Hd1, Hd2.
       split; [done|]. split; [done|].
       apply Forall_app. split; [by repeat constructor|].
       apply Forall_forall. intros e He. by destruct (Hc e He) as [d ->]. }
  apply CommentSteps_views in Hsteps as (H1 & H2 & H3).
  destruct (console_views (fetch_diag resp) (fetch_diag_console resp))
    as (Hd1 & Hd2 & _).
  change (EvGetComments f "docx" (Some resp) :: fetch_diag resp ++ evs')
    with ([EvGetComments f "docx" (Some resp)] ++ fetch_diag resp ++ evs').
  rewrite !fetch_tokens_app, !writes_app, H1, H2, Hd1, Hd2.
  split; [done|]. split; [done|].
  rewrite !Forall_app. repeat split; [by repeat constructor| |done].
  apply Forall_forall. intros e He.
  by destruct (fetch_diag_console resp e He) as [d ->].
Qed.

Lemma FileSteps_views fs st st' evs :
  FileSteps fs st st' evs →
  fetch_tokens evs = fs ∧ writes evs = [] ∧ Forall file_event evs.
Proof.
  induction 1 as [st|f fs st st1 st2 evs evs' Hstep _ (IH1 & IH2 & IH3)];
    [by repeat constructor|].
  apply FileStep_views in Hstep as (H1 & H2 & H3).
  rewrite fetch_tokens_app, writes_app, H1, H2, IH1, IH2.
  split; [done|]. split; [done|]. by apply Forall_app.
Qed.

End MoreSteps.

Section MoreCycles.

Context {W : Type}.
Variable env : Collaborators W.
Implicit Types (s : Sys W) (st : ProcessedState) (evs : list Event).

Lemma pollDocumentComments_detailed config fc s :
  enabled config = true →
  run (pollDocumentComments env config fc) s (cycle_outcome env config fc s).
Proof.
  intros Hen. unfold pollDocumentComments, cycle_outcome. rewrite Hen. simpl.
  run_step. eapply run_mono; [apply loadState_spec|].
  intros cpl s0 evs0 (-> & -> & ->). lazy beta iota.
  run_step. eapply run_mono; [apply run_self, getTenantAccessToken_quiet|].
  intros c1 s1 evs1 ([Hf1 Hp1] & Hc1 & Hs1).
  destruct (getTenantAccessToken env (appId fc) (appSecret fc) s) as [c1' s1'].
  simpl in Hc1, Hs1. subst c1' s1'.
  destruct c1 as [token|]; [|by simpl].
  run_step. eapply run_mono; [apply run_self, resolveWatchedFiles_quiet|].
  intros c2 s2 evs2 ([Hf2 Hp2] & Hc2 & Hs2). rewrite <- Hc2.
  destruct c2 as [watched|];
    [|split; [done|]; split; [congruence|simpl; by apply Forall_app]].
  destruct watched as [|f fs].
  { simpl. run_steps. split; [done|]. split; [congruence|].
    simpl. rewrite app_nil_r. by apply Forall_app. }
  change (length (f :: fs) =? 0) with false. lazy beta iota.
  run_step. eapply run_mono; [apply forFiles_spec|].
  intros cpl s3 evs3 (Hf3 & st' & -> & Hsteps). lazy beta iota.
  unfold saveState. run_steps. split; [done|].
  exists (evs1 ++ evs2), evs3, st', (Date_now env (world s3)).1.
  split; [by apply Forall_app|]. split; [done|]. split; [|done].
  simpl. by rewrite <- !app_assoc.
Qed.

Lemma pollDocumentComments_outcome config fc s :
  enabled config = true →
  cycle_outcome env config fc s (pollDocumentComments env config fc s).1
    (pollDocumentComments env config fc s).2
    (events_since s (pollDocumentComments env config fc s).2).
Proof. intros Hen. exact (run_elim _ _ _ (pollDocumentComments_detailed config fc s Hen)). Qed.

Lemma resolveWatchedFiles_eq config client s :
  resolveWatchedFiles env config client s
  = match indexDocument config with
    | Some tok =>
        if truthy tok then
          match getWatchedFilesFromIndex env client tok s with
          | (Normal [], s1) => (Normal (watchedFiles config), s1)
          | (Normal tokens, s1) => (Normal tokens, s1)
          | (Thrown, s1) => (Thrown, s1)
          end
        else (Normal (watchedFiles config), s)
    | None => (Normal (watchedFiles config), s)
    end.
Proof.
  unfold resolveWatchedFiles, mbind, M_bind, mret, M_ret.
  destruct (indexDocument config) as [tok|]; [destruct (truthy tok)|];
    try by destruct (watchedFiles config).
  destruct (getWatchedFilesFromIndex env client tok s) as [[[|t ts]|] s1];
    try done.
  by destruct (watchedFiles config).
Qed.

(** X9: the watch list comes from the index document whenever it yields a
    token, and the configured list is then not used at all; without an
    index document ([indexDocument] missing or empty) it is the configured
    list and the index is never read. *)
Theorem resolveWatchedFiles_sources config client s :
  (indexDocument config = None ∨ indexDocument config = Some "" →
     resolveWatchedFiles env config client s = (Normal (watchedFiles config), s))
  ∧ (∀ tok tokens,
       indexDocument config = Some tok → truthy tok = true →
       (getWatchedFilesFromIndex env client tok s).1 = Normal tokens →
       tokens ≠ [] →
       (resolveWatchedFiles env config client s).1 = Normal tokens).
Proof.
  rewrite resolveWatchedFiles_eq. split.
  - by intros [-> | ->].
  - intros tok tokens -> -> Hidx Hne.
    destruct (getWatchedFilesFromIndex env client tok s) as [c s1].
    simpl in Hidx. subst c. by destruct tokens.
Qed.

(** X10: the ways a cycle ends early.  A disabled plugin does nothing at
    all.  If the token cannot be obtained, or if a link of the index
    document has a malformed percent-escape, the cycle throws, the state
    file stays as it was and no comment is fetched, answered or recorded;
    in the second case the configured watch list is not used as a
    fallback. *)
Theorem pollDocumentComments_aborts config fc s :
  let auth := getTenantAccessToken env (appId fc) (appSecret fc) s in
  let out := pollDocumentComments env config fc s in
  (enabled config = false → out = (Normal tt, s))
  ∧ (enabled config = true → auth.1 = Thrown →
       out.1 = Thrown ∧ stateFile out.2 = stateFile s
       ∧ Forall preliminary (events_since s out.2))
  ∧ (enabled config = true →
     ∀ token tok resp u,
       auth.1 = Normal token →
       indexDocument config = Some tok → truthy tok = true →
       (get_blocks env (axios_create token) tok (world auth.2)).1 = Some resp →
       blocks_code resp = 0%Z →
       u ∈ link_urls (default [] (blocks_items resp)) →
       decodeURIComponent u = None →
       out.1 = Thrown ∧ stateFile out.2 = stateFile s
       ∧ Forall preliminary (events_since s out.2)).
Proof.
  intros auth out. split; [|split].
  - intros Hen. subst out. unfold pollDocumentComments. by rewrite Hen.
  - intros Hen Hauth. pose proof (pollDocumentComments_outcome config fc s Hen) as H.
    unfold cycle_outcome in H. fold auth in H. destruct auth as [c1 s1].
    simpl in Hauth. subst c1. exact H.
  - intros Hen token tok resp u Hauth Hidx Htok Hresp Hcode Hu Hdec.
    pose proof (pollDocumentComments_outcome config fc s Hen) as H.
    unfold cycle_outcome in H. fold auth in H. destruct auth as [c1 s1].
    simpl in Hauth, Hresp. subst c1.
    assert ((resolveWatchedFiles env config (axios_create token) s1).1 = Thrown)
      as Hres.
    { rewrite resolveWatchedFiles_eq, Hidx, Htok, getWatchedFilesFromIndex_eq,
        getDocumentContent_eq. cbv zeta. rewrite Hresp, Hcode. simpl.
      assert (extractDocLinks (default [] (blocks_items resp)) = None) as ->; [|done].
      unfold extractDocLinks. rewrite processBlocks_urls.
      apply extractFromUrls_None. by exists u. }
    rewrite Hres in H. exact H.
Qed.

(** X11: in a cycle that obtains a token and resolves a watch list, the
    comment fetches are exactly the documents of that list, each once and
    in the order of the list, whether or not earlier fetches failed. *)
Theorem cycle_fetches_watch_list_in_order config fc s token watched :
  let auth := getTenantAccessToken env (appId fc) (appSecret fc) s in
  let out := pollDocumentComments env config fc s in
  enabled config = true →
  auth.1 = Normal token →
  (resolveWatchedFiles env config (axios_create token) auth.2).1 = Normal watched →
  out.1 = Normal tt ∧ fetch_tokens (events_since s out.2) = watched.
Proof.
  intros auth out Hen Hauth Hres.
  pose proof (pollDocumentComments_outcome config fc s Hen) as H.
  unfold cycle_outcome in H. fold auth in H. fold out in H.
  destruct auth as [c1 s1]. simpl in Hauth, Hres. subst c1. rewrite Hres in H.
  destruct watched as [|f fs].
  - destruct H as (Hc & _ & Hp). split; [done|].
    by apply preliminary_views in Hp as (? & _).
  - destruct H as (Hc & pre & polled & st' & now & Hp & Hsteps & -> & _).
    split; [done|].
    apply preliminary_views in Hp as (Hp & _).
    apply FileSteps_views in Hsteps as (Hf & _).
    rewrite !fetch_tokens_app, Hp, Hf. simpl. by rewrite app_nil_r.
Qed.

Lemma Cycle_writes s s' evs :
  Cycle s s' evs →
  (writes evs = [] ∧ stateFile s' = stateFile s)
  ∨ (∃ evs0 st, evs = evs0 ++ [EvWriteState st] ∧ writes evs0 = []
                ∧ stateFile s' = FileJson st).
Proof.
  intros [evs' Hf Hp|watched st' now pre evs' Hp Hsteps Hf].
  - left. split; [|done]. by apply preliminary_views in Hp as (_ & ? & _).
  - right. eexists (pre ++ evs'), _. split; [by rewrite <- app_assoc|].
    split; [|exact Hf].
    apply preliminary_views in Hp as (_ & Hp & _).
    apply FileSteps_views in Hsteps as (_ & Hw & _).
    by rewrite writes_app, Hp, Hw.
Qed.

(** X12: a cycle changes the state file at most once, by a write that is
    its last event; a cycle that does not get there leaves the file as it
    was. *)
Theorem state_file_written_once_at_the_end config fc s :
  let out := pollDocumentComments env config fc s in
  let evs := events_since s out.2 in
  (writes evs = [] ∧ stateFile out.2 = stateFile s)
  ∨ (∃ evs0 st, evs = evs0 ++ [EvWriteState st] ∧ writes evs0 = []
                ∧ stateFile out.2 = FileJson st).
Proof. apply Cycle_writes, pollDocumentComments_cycle. Qed.

End MoreCycles.

(** ** Which comments are answered, and how often *)

(** Discharge a goal whose hypothesis puts a request among diagnostics. *)
Ltac not_console H :=
  first [ apply agent_diag_no_post in H
        | apply reply_diag_no_post in H
        | apply fetch_diag_console in H ];
  destruct H as [? ?]; done.

Section Replies.

Implicit Types (f g id : string) (c : FeishuComment) (ids : list string)
  (evs : list Event) (st : ProcessedState).

Lemma fetched_open_app_l g id evs evs' :
  fetched_open g id evs → fetched_open g id (evs ++ evs').
Proof.
  intros (resp & c & Hin & H). exists resp, c. split; [|done].
  apply elem_of_app. by left.
Qed.

Lemma fetched_open_app_r g id evs evs' :
  fetched_open g id evs' → fetched_open g id (evs ++ evs').
Proof.
  intros (resp & c & Hin & H). exists resp, c. split; [|done].
  apply elem_of_app. by right.
Qed.

Lemma CommentStep_post f c ids ids' evs g id text ft resp :
  CommentStep f c ids ids' evs → EvPostReply g id text ft resp ∈ evs →
  g = f ∧ ft = "docx" ∧ id = comment_id c ∧ (id ∉ ids)
  ∧ is_solved c = false ∧ hasOurReply c = false.
Proof.
  intros [| | |r resp' Hn Hs Ho] Hin; try by apply elem_of_nil in Hin.
  apply elem_of_cons in Hin as [?|Hin]; [done|].
  apply elem_of_app in Hin as [Hin|Hin];
    [not_console Hin|].
  apply elem_of_cons in Hin as [Heq|Hin];
    [|not_console Hin].
  by injection Heq as -> -> -> -> ->.
Qed.

Lemma CommentSteps_post f cs ids ids' evs g id text ft resp :
  CommentSteps f cs ids ids' evs → EvPostReply g id text ft resp ∈ evs →
  g = f ∧ ft = "docx" ∧ (id ∉ ids)
  ∧ ∃ c, c ∈ cs ∧ comment_id c = id ∧ is_solved c = false ∧ hasOurReply c = false.
Proof.
  induction 1 as [ids|c cs ids ids1 ids2 evs evs' Hstep Hsteps IH]; intros Hin.
  - by apply elem_of_nil in Hin.
  - apply elem_of_app in Hin as [Hin|Hin].
    + destruct (CommentStep_post _ _ _ _ _ _ _ _ _ _ Hstep Hin)
        as (-> & -> & -> & Hn & Hs & Ho).
      repeat split; try done. exists c. split; [by apply elem_of_cons; left|done].
    + destruct (IH Hin) as (-> & -> & Hn & c' & Hc' & H).
      repeat split; try done.
      * apply CommentStep_prefix in Hstep as (k & ->).
        intros Hid. apply Hn, elem_of_app. by left.
      * exists c'. split; [by apply elem_of_cons; right|done].
Qed.

Lemma FileStep_post f st st' evs g id text ft resp :
  FileStep f st st' evs → EvPostReply g id text ft resp ∈ evs →
  ft = "docx" ∧ (id ∉ processed_ids st g) ∧ fetched_open g id evs.
Proof.
  intros [|resp' ids evs' Hlook Hsteps|resp' Hlook] Hin.
  { apply elem_of_cons in Hin as [?|Hin]; [done|].
    by apply list_elem_of_singleton in Hin. }
  2: { apply inherited_events in Hin as [?|[? ?]]; done. }
  apply elem_of_cons in Hin as [?|Hin]; [done|].
  apply elem_of_app in Hin as [Hin|Hin];
    [not_console Hin|].
  destruct (CommentSteps_post _ _ _ _ _ _ _ _ _ _ Hsteps Hin)
    as (-> & -> & Hn & c & Hc & Hid & Hs & Ho).
  repeat split; try done. exists resp', c.
  split; [by apply elem_of_cons; left|done].
Qed.

Lemma FileSteps_post fs st st' evs g id text ft resp :
  FileSteps fs st st' evs → EvPostReply g id text ft resp ∈ evs →
  ft = "docx" ∧ (id ∉ processed_ids st g) ∧ fetched_open g id evs.
Proof.
  induction 1 as [st|f fs st st1 st2 evs evs' Hstep Hsteps IH]; intros Hin.
  - by apply elem_of_nil in Hin.
  - apply elem_of_app in Hin as [Hin|Hin].
    + destruct (FileStep_post _ _ _ _ _ _ _ _ _ Hstep Hin) as (-> & Hn & Ho).
      repeat split; try done. by apply fetched_open_app_l.
    + destruct (IH Hin) as (-> & Hn & Ho).
      repeat split; try done; [|by apply fetched_open_app_r].
      destruct (FileStep_prefix _ _ _ _ g Hstep) as (k & Hk).
      intros Hid. apply Hn. rewrite Hk. apply elem_of_app. by left.
Qed.

Lemma Cycle_post {W} (s s' : Sys W) evs g id text ft resp :
  Cycle s s' evs → EvPostReply g id text ft resp ∈ evs →
  ft = "docx" ∧ (id ∉ processed_ids (persisted s) g) ∧ fetched_open g id evs.
Proof.
  intros [evs' Hf Hp|watched st' now pre evs' Hp Hsteps Hf] Hin.
  - rewrite Forall_forall in Hp. destruct (Hp _ Hin).
  - apply elem_of_app in Hin as [Hin|Hin].
    { rewrite Forall_forall in Hp. destruct (Hp _ Hin). }
    apply elem_of_app in Hin as [Hin|Hin];
      [|by apply list_elem_of_singleton in Hin].
    destruct (FileSteps_post _ _ _ _ _ _ _ _ _ Hsteps Hin) as (-> & Hn & Ho).
    repeat split; try done. by apply fetched_open_app_r, fetched_open_app_l.
Qed.

(** Counting accepted posts. *)

Lemma posts_in_console f id evs :
  (∀ e, e ∈ evs → ∃ d, e = EvConsoleError d) → posts_in f id evs = [].
Proof. intros H. by apply console_views. Qed.

Lemma accepted_posts_none f id evs :
  (∀ text ft resp, EvPostReply f id text ft resp ∉ evs) → accepted_posts f id evs = 0.
Proof.
  intros H. unfold accepted_posts.
  destruct (posts_in f id evs) as [|resp l] eqn:Hp; [done|].
  destruct (posts_in_elim f id resp evs) as (text & ft & Hin).
  { rewrite Hp. by apply elem_of_cons; left. }
  destruct (H _ _ _ Hin).
Qed.

Lemma at_most_once_0 (before after : Prop) : at_most_once 0 before after.
Proof. split; [done|]. split; [lia|discriminate]. Qed.

Lemma at_most_once_seq n m (before mid after : Prop) :
  (before → mid) → (mid → after) →
  at_most_once n before mid → at_most_once m mid after →
  at_most_once (n + m) before after.
Proof.
  intros Hbm Hma (Hn0 & Hn1 & Hn) (Hm0 & Hm1 & Hm). unfold at_most_once.
  split; [intros Hb; rewrite (Hn0 Hb), (Hm0 (Hbm Hb)); lia|].
  destruct (decide (n = 1)) as [->|Hne].
  - rewrite (Hm0 (Hn eq_refl)). split; [lia|]. intros _. by apply Hma, Hn.
  - assert (n = 0) as -> by lia. simpl. split; [done|]. done.
Qed.

Lemma CommentStep_once f c ids ids' evs id :
  CommentStep f c ids ids' evs →
  at_most_once (accepted_posts f id evs) (id ∈ ids) (id ∈ ids').
Proof.
  intros Hstep. destruct Hstep as [Hin| | |r resp Hn Hs Ho].
  1-3: exact (at_most_once_0 _ _).
  unfold at_most_once, accepted_posts.
  change (EvInvoke ?p r :: agent_diag r ++ ?e :: reply_diag resp)
    with ([EvInvoke p r] ++ agent_diag r ++ [e] ++ reply_diag resp).
  rewrite !posts_in_app.
  rewrite (posts_in_console f id (agent_diag r) (agent_diag_no_post r)).
  rewrite (posts_in_console f id (reply_diag resp) (reply_diag_no_post resp)).
  simpl. rewrite String.eqb_refl. simpl.
  destruct (String.eqb (comment_id c) id) eqn:Hid; simpl.
  - apply String.eqb_eq in Hid. subst id.
    destruct (accepted resp) eqn:Hacc; simpl.
    + split; [done|]. split; [lia|]. intros _.
      apply elem_of_app. right. by apply list_elem_of_singleton.
    + exact (at_most_once_0 _ _).
  - exact (at_most_once_0 _ _).
Qed.

Lemma CommentSteps_once f cs ids ids' evs id :
  CommentSteps f cs ids ids' evs →
  at_most_once (accepted_posts f id evs) (id ∈ ids) (id ∈ ids').
Proof.
  induction 1 as [ids|c cs ids ids1 ids2 evs evs' Hstep Hsteps IH].
  - exact (at_most_once_0 _ _).
  - rewrite accepted_posts_app.
    pose proof (CommentStep_prefix _ _ _ _ _ Hstep) as (k1 & Hk1).
    pose proof (CommentSteps_prefix _ _ _ _ _ Hsteps) as (k2 & Hk2).
    eapply at_most_once_seq;
      [| |exact (CommentStep_once _ _ _ _ _ id Hstep)|exact IH].
    + rewrite Hk1. intros ?. apply elem_of_app. by left.
    + rewrite Hk2. intros ?. apply elem_of_app. by left.
Qed.

Lemma FileStep_once f st st' evs g id :
  FileStep f st st' evs →
  at_most_once (accepted_posts g id evs)
    (id ∈ processed_ids st g) (id ∈ processed_ids st' g).
Proof.
  intros Hstep.
  destruct (decide (f = g)) as [<-|Hne].
  - destruct Hstep as [|resp ids evs' Hlook Hsteps|resp Hlook];
      [exact (at_most_once_0 _ _)| |].
    2: { rewrite accepted_posts_none; [exact (at_most_once_0 _ _)|].
         intros text ft r Hin. apply inherited_events in Hin as [?|[? ?]]; done. }
    rewrite processed_ids_set, decide_True by done.
    change (EvGetComments f "docx" (Some resp) :: fetch_diag resp ++ evs')
      with ([EvGetComments f "docx" (Some resp)] ++ fetch_diag resp ++ evs').
    rewrite !accepted_posts_app.
    assert (accepted_posts f id (fetch_diag resp) = 0) as ->.
    { unfold accepted_posts.
      by rewrite (posts_in_console f id _ (fetch_diag_console resp)). }
    simpl. exact (CommentSteps_once _ _ _ _ _ id Hsteps).
  - assert (accepted_posts g id evs = 0) as ->.
    { apply accepted_posts_none. intros text ft resp Hin.
      destruct Hstep as [|resp' ids evs' Hlook Hsteps|resp' Hlook].
      - apply elem_of_cons in Hin as [?|Hin]; [done|].
        by apply list_elem_of_singleton in Hin.
      - apply elem_of_cons in Hin as [?|Hin]; [done|].
        apply elem_of_app in Hin as [Hin|Hin];
          [not_console Hin|].
        by destruct (CommentSteps_post _ _ _ _ _ _ _ _ _ _ Hsteps Hin) as (-> & _).
      - apply inherited_events in Hin as [?|[? ?]]; done. }
    exact (at_most_once_0 _ _).
Qed.

Lemma FileSteps_once fs st st' evs g id :
  FileSteps fs st st' evs →
  at_most_once (accepted_posts g id evs)
    (id ∈ processed_ids st g) (id ∈ processed_ids st' g).
Proof.
  induction 1 as [st|f fs st st1 st2 evs evs' Hstep Hsteps IH].
  - exact (at_most_once_0 _ _).
  - rewrite accepted_posts_app.
    pose proof (FileStep_prefix _ _ _ _ g Hstep) as (k1 & Hk1).
    pose proof (FileSteps_prefix _ _ _ _ g Hsteps) as (k2 & Hk2).
    eapply at_most_once_seq;
      [| |exact (FileStep_once _ _ _ _ g id Hstep)|exact IH].
    + rewrite Hk1. intros ?. apply elem_of_app. by left.
    + rewrite Hk2. intros ?. apply elem_of_app. by left.
Qed.

Lemma Cycle_once {W} (s s' : Sys W) evs g id :
  Cycle s s' evs → accepted_posts g id evs ≤ 1.
Proof.
  intros [evs' Hf Hp|watched st' now pre evs' Hp Hsteps Hf].
  - apply preliminary_views in Hp as (_ & _ & Hp).
    unfold accepted_posts. rewrite Hp. simpl. lia.
  - apply preliminary_views in Hp as (_ & _ & Hp).
    rewrite !accepted_posts_app. unfold accepted_posts at 1 3. rewrite Hp. simpl.
    destruct (FileSteps_once _ _ _ _ g id Hsteps) as (_ & H & _). lia.
Qed.

(** Entries of the processed map are kept. *)

Lemma FileStep_keeps f st st' evs g l :
  FileStep f st st' evs → processedComments st !! g = Some l →
  ∃ suffix, processedComments st' !! g = Some (l ++ suffix).
Proof.
  intros [|resp ids evs' Hlook Hsteps|resp Hlook] Hl;
    [exists []; by rewrite app_nil_r| |exists []; by rewrite app_nil_r].
  unfold set_processed. simpl. rewrite lookup_insert.
  destruct (decide (f = g)) as [<-|].
  - apply CommentSteps_prefix in Hsteps as (k & ->). exists k.
    unfold processed_ids. by rewrite Hl.
  - exists []. by rewrite app_nil_r.
Qed.

Lemma FileSteps_keeps fs st st' evs g l :
  FileSteps fs st st' evs → processedComments st !! g = Some l →
  ∃ suffix, processedComments st' !! g = Some (l ++ suffix).
Proof.
  intros H. revert l.
  induction H as [st|f fs st st1 st2 evs evs' Hstep _ IH]; intros l Hl.
  - exists []. by rewrite app_nil_r.
  - destruct (FileStep_keeps _ _ _ _ _ _ Hstep Hl) as (k1 & H1).
    destruct (IH _ H1) as (k2 & H2). exists (k1 ++ k2). by rewrite app_assoc.
Qed.

Lemma FileSteps_untouched fs st st' evs g :
  FileSteps fs st st' evs → g ∉ fs →
  processedComments st' !! g = processedComments st !! g.
Proof.
  induction 1 as [st|f fs st st1 st2 evs evs' Hstep _ IH]; intros Hg; [done|].
  apply not_elem_of_cons in Hg as [Hne Hg]. rewrite (IH Hg).
  destruct Hstep as [|resp ids evs'' Hlook Hsteps|resp Hlook]; [done| |done].
  unfold set_processed. simpl. by rewrite lookup_insert_ne.
Qed.

End Replies.

Section MoreOrchestrator.

Context {W : Type}.
Variable env : Collaborators W.
Implicit Types (s : Sys W) (st : ProcessedState) (evs : list Event).

(** X13: every reply posted in a cycle goes to a comment that was fetched
    in this cycle as unsolved and without a reply of the placeholder
    author, and whose id was not recorded for its document when the cycle
    started.  In particular a recorded comment is never answered again. *)
Theorem replies_only_to_open_unrecorded_comments config fc s f id text ft resp :
  let evs := events_since s (pollDocumentComments env config fc s).2 in
  EvPostReply f id text ft resp ∈ evs →
  ft = "docx" ∧ (id ∉ processed_ids (persisted s) f) ∧ fetched_open f id evs.
Proof.
  intros evs Hin.
  exact (Cycle_post _ _ _ _ _ _ _ _ (pollDocumentComments_cycle env config fc s) Hin).
Qed.

Lemma Cycle_at_most_once s s' evs g id :
  Cycle s s' evs →
  at_most_once (accepted_posts g id evs)
    (id ∈ processed_ids (persisted s) g) (id ∈ processed_ids (persisted s') g).
Proof.
  intros [evs' Hf Hp|watched st' now pre evs' Hp Hsteps Hf].
  - apply preliminary_views in Hp as (_ & _ & Hp).
    unfold accepted_posts. rewrite Hp, (persisted_same _ _ Hf).
    exact (at_most_once_0 _ _).
  - apply preliminary_views in Hp as (_ & _ & Hp).
    rewrite !accepted_posts_app. unfold accepted_posts at 1 3. rewrite Hp. simpl.
    rewrite Nat.add_0_r, (persisted_saved _ _ _ _ Hf).
    exact (FileSteps_once _ _ _ _ g id Hsteps).
Qed.

Lemma pollDocumentComments_trace config fc s :
  trace (pollDocumentComments env config fc s).2
  = trace s ++ events_since s (pollDocumentComments env config fc s).2.
Proof.
  destruct (pollDocumentComments_spec env config fc s) as (evs & Ht & _).
  by rewrite (events_since_app _ _ _ Ht).
Qed.

Lemma trace_extension s s' :
  (∃ evs, trace s' = trace s ++ evs) → trace s' = trace s ++ events_since s s'.
Proof. intros (evs & Ht). by rewrite (events_since_app _ _ _ Ht). Qed.

Lemma cycles_trace n config fc s :
  trace (cycles env n config fc s)
  = trace s ++ events_since s (cycles env n config fc s).
Proof.
  apply trace_extension. revert s. induction n as [|n IH]; intros s; simpl.
  - exists []. by rewrite app_nil_r.
  - destruct (IH (pollDocumentComments env config fc s).2) as (evs2 & ->).
    rewrite pollDocumentComments_trace. eexists. by rewrite <- app_assoc.
Qed.

Lemma cycles_prefix n config fc s g :
  ∃ suffix,
    processed_ids (persisted (cycles env n config fc s)) g
    = processed_ids (persisted s) g ++ suffix.
Proof.
  revert s. induction n as [|n IH]; intros s; simpl.
  - exists []. by rewrite app_nil_r.
  - destruct (IH (pollDocumentComments env config fc s).2) as (k2 & ->).
    destruct (Cycle_prefix _ _ _ g (pollDocumentComments_cycle env config fc s))
      as (k1 & ->).
    exists (k1 ++ k2). by rewrite app_assoc.
Qed.

Lemma cycles_at_most_once n config fc s g id :
  at_most_once (accepted_posts g id (events_since s (cycles env n config fc s)))
    (id ∈ processed_ids (persisted s) g)
    (id ∈ processed_ids (persisted (cycles env n config fc s)) g).
Proof.
  revert s. induction n as [|n IH]; intros s; simpl.
  - unfold events_since. rewrite drop_all. exact (at_most_once_0 _ _).
  - set (s1 := (pollDocumentComments env config fc s).2).
    assert (events_since s (cycles env n config fc s1)
            = events_since s s1 ++ events_since s1 (cycles env n config fc s1))
      as ->.
    { apply events_since_app. rewrite cycles_trace. unfold s1 at 1.
      by rewrite pollDocumentComments_trace, <- app_assoc. }
    rewrite accepted_posts_app.
    eapply at_most_once_seq;
      [| |exact (Cycle_at_most_once _ _ _ g id
                   (pollDocumentComments_cycle env config fc s))|exact (IH s1)].
    + intros Hin.
      destruct (Cycle_prefix _ _ _ g (pollDocumentComments_cycle env config fc s))
        as (k & Hk).
      rewrite Hk. apply elem_of_app. by left.
    + intros Hin. destruct (cycles_prefix n config fc s1 g) as (k & ->).
      apply elem_of_app. by left.
Qed.

(** X14: over any number of consecutive poll cycles, at most one reply to
    a given comment of a given document is accepted by the service; none
    is if the comment was recorded at the start, and an accepted one
    leaves the comment recorded in the persisted state at the end. *)
Theorem at_most_one_accepted_reply n config fc s f id :
  let s' := cycles env n config fc s in
  let posts := accepted_posts f id (events_since s s') in
  (id ∈ processed_ids (persisted s) f → posts = 0)
  ∧ posts ≤ 1
  ∧ (posts = 1 → id ∈ processed_ids (persisted s') f).
Proof. exact (cycles_at_most_once n config fc s f id). Qed.

(** X15: an entry of the processed map is never dropped by a cycle: its
    list is kept and at most extended, also for documents that are no
    longer watched; and the loop over the files leaves the entries of
    documents outside its list exactly as they were. *)
Theorem processed_entries_are_kept :
  (∀ config fc s g l,
     processedComments (persisted s) !! g = Some l →
     ∃ suffix,
       processedComments (persisted (pollDocumentComments env config fc s).2) !! g
       = Some (l ++ suffix))
  ∧ (∀ client fs st s g st',
       (forFiles env client fs st s).1 = Normal st' → g ∉ fs →
       processedComments st' !! g = processedComments st !! g).
Proof.
  split.
  - intros config fc s g l Hl.
    destruct (pollDocumentComments_cycle env config fc s)
      as [evs' Hf _|watched st' now pre evs' _ Hsteps Hf].
    + rewrite (persisted_same _ _ Hf). exists []. by rewrite app_nil_r.
    + unfold persisted at 1. rewrite Hf. simpl.
      by eapply FileSteps_keeps.
  - intros client fs st s g st' Hout Hg.
    destruct (run_elim _ _ _ (forFiles_spec env client fs st s))
      as (_ & st'' & Hout' & Hsteps).
    rewrite Hout in Hout'. injection Hout' as <-.
    by eapply FileSteps_untouched.
Qed.

End MoreOrchestrator.

(** ** Comment text and plugin start-up *)

Section TextAndStartup.

Lemma concat_empty_cons (x : string) (xs : list string) :
  String.concat "" (x :: xs) = x +:+ String.concat "" xs.
Proof. destruct xs; simpl; [by rewrite append_nil_r|done]. Qed.

Lemma concat_empty_app (l1 l2 : list string) :
  String.concat "" (l1 ++ l2) = String.concat "" l1 +:+ String.concat "" l2.
Proof.
  induction l1 as [|x l1 IH]; [done|].
  change ((x :: l1) ++ l2) with (x :: (l1 ++ l2)).
  by rewrite !concat_empty_cons, IH, append_assoc.
Qed.

(** X17: the text of a comment is the concatenation, in order, of the
    texts of its elements of type ["textRun"] that have a non-empty text;
    every other element (another type, such as ["text_run"], or a missing
    or empty text) contributes nothing, and a missing content gives the
    empty string. *)
Theorem extractTextFromContent_concatenates :
  extractTextFromContent None = ""
  ∧ (∀ a b,
       extractTextFromContent (Some (a ++ b))
       = extractTextFromContent (Some a) +:+ extractTextFromContent (Some b))
  ∧ (∀ el,
       type el ≠ "textRun" ∨ content_text_run el = None
       ∨ content_text_run el = Some "" →
       extractTextFromContent (Some [el]) = "")
  ∧ (∀ el t,
       type el = "textRun" → content_text_run el = Some t →
       extractTextFromContent (Some [el]) = t).
Proof.
  split; [done|]. split; [|split].
  - intros a b. unfold extractTextFromContent.
    by rewrite omap_app, concat_empty_app.
  - intros el H. unfold extractTextFromContent. simpl.
    destruct (String.eqb (type el) "textRun") eqn:Ht; [|done].
    apply String.eqb_eq in Ht. destruct H as [H|[-> | ->]]; done.
  - intros el t Ht Hc. unfold extractTextFromContent. simpl.
    rewrite Ht, Hc. simpl. by destruct t.
Qed.

Lemma truthy_default_false (o : option string) :
  truthy (default "" o) = false ↔ o = None ∨ o = Some "".
Proof.
  destruct o as [[|c t]|]; simpl; (split; [intros H|intros [H|H]]);
    auto; discriminate.
Qed.

Lemma createPlugin_started ctx_config file pc fc timers name version :
  createPlugin ctx_config file = Started pc fc timers name version →
  ∃ config fileConfig,
    ctx_config = Some config
    ∧ fields (loadPluginConfig file) = Some fileConfig
    ∧ enabled pc = true
    ∧ Some (appId fc) = host_appId config
    ∧ Some (appSecret fc) = host_appSecret config
    ∧ first_run_after_ms timers = 10000%float
    ∧ repeat_every_ms timers = (pollIntervalMinutes pc * 60 * 1000)%float
    ∧ pollIntervalMinutes pc = default 15%float (file_pollIntervalMinutes fileConfig)
    ∧ indexDocument pc = file_indexDocument fileConfig
    ∧ watchedFiles pc = default [] (file_watchedFiles fileConfig).
Proof.
  unfold createPlugin. destruct ctx_config as [config|]; [|done]. simpl.
  destruct (host_appId config) as [[|a0 a]|] eqn:Ha; simpl; try done.
  destruct (host_appSecret config) as [[|b0 b]|] eqn:Hb; simpl; try done.
  destruct (fields (loadPluginConfig file)) as [fileConfig|]; [|done].
  destruct (host_enabled config) as [[|]|]; simpl; try done;
    intros [= <- <- <- _ _]; exists config, fileConfig.
  all: by rewrite Ha, Hb.
Qed.

(** X18: how [createPlugin] ends.  It throws, before any timer is set,
    when the context has no [config] object, and when the credentials are
    there but [config.json] holds the JSON value [null].  It returns
    without setting a timer when the host configuration lacks a non-empty
    [appId] or [appSecret] (whatever [config.json] holds), and when, with
    credentials and a [config.json] other than [null], the host sets
    [enabled] to [false].  In every other case both timers are set: the
    first run 10 s ahead and the others every
    [pollIntervalMinutes * 60 * 1000] ms (in double arithmetic, so a
    fractional number of minutes is kept), with the values of
    [config.json] and the defaults 15 minutes, no index document and no
    watched files for what it does not give. *)
Theorem createPlugin_start config file :
  let out := createPlugin (Some config) file in
  let unconfigured :=
    host_appId config = None ∨ host_appId config = Some ""
    ∨ host_appSecret config = None ∨ host_appSecret config = Some "" in
  createPlugin None file = StartupThrown
  ∧ (out = NotConfigured ↔ unconfigured)
  ∧ (out = StartupThrown ↔ ¬ unconfigured ∧ file = ConfigJson ConfigNull)
  ∧ (out = Disabled
     ↔ ¬ unconfigured ∧ file ≠ ConfigJson ConfigNull
       ∧ host_enabled config = Some false)
  ∧ ((∃ pc fc timers name version, out = Started pc fc timers name version)
     ↔ ¬ unconfigured ∧ file ≠ ConfigJson ConfigNull
       ∧ host_enabled config ≠ Some false)
  ∧ (∀ pc fc timers name version,
       out = Started pc fc timers name version →
       ∃ fileConfig,
         fields (loadPluginConfig file) = Some fileConfig
         ∧ enabled pc = true
         ∧ Some (appId fc) = host_appId config
         ∧ Some (appSecret fc) = host_appSecret config
         ∧ first_run_after_ms timers = 10000%float
         ∧ repeat_every_ms timers = (pollIntervalMinutes pc * 60 * 1000)%float
         ∧ pollIntervalMinutes pc
           = default 15%float (file_pollIntervalMinutes fileConfig)
         ∧ indexDocument pc = file_indexDocument fileConfig
         ∧ watchedFiles pc = default [] (file_watchedFiles fileConfig)).
Proof.
  intros out unconfigured.
  split; [done|].
  assert (∀ pc fc timers name version,
            out = Started pc fc timers name version →
            ∃ fileConfig,
              fields (loadPluginConfig file) = Some fileConfig
              ∧ enabled pc = true
              ∧ Some (appId fc) = host_appId config
              ∧ Some (appSecret fc) = host_appSecret config
              ∧ first_run_after_ms timers = 10000%float
              ∧ repeat_every_ms timers = (pollIntervalMinutes pc * 60 * 1000)%float
              ∧ pollIntervalMinutes pc
                = default 15%float (file_pollIntervalMinutes fileConfig)
              ∧ indexDocument pc = file_indexDocument fileConfig
              ∧ watchedFiles pc = default [] (file_watchedFiles fileConfig))
    as Hstarted.
  { intros pc fc timers name version Hout.
    destruct (createPlugin_started _ _ _ _ _ _ _ Hout)
      as (config' & fileConfig & [= <-] & H).
    by exists fileConfig. }
  assert ((unconfigured ∧ out = NotConfigured)
          ∨ (¬ unconfigured ∧ file = ConfigJson ConfigNull ∧ out = StartupThrown)
          ∨ (¬ unconfigured ∧ file ≠ ConfigJson ConfigNull
             ∧ host_enabled config = Some false ∧ out = Disabled)
          ∨ (¬ unconfigured ∧ file ≠ ConfigJson ConfigNull
             ∧ host_enabled config ≠ Some false
             ∧ ∃ pc fc timers name version, out = Started pc fc timers name version))
    as Hcases.
  { subst out unconfigured. unfold createPlugin. simpl.
    destruct (host_appId config) as [[|a0 a]|]; simpl; [left; tauto| |left; tauto].
    destruct (host_appSecret config) as [[|b0 b]|]; simpl; [left; tauto| |left; tauto].
    right.
    assert (¬ (Some (String a0 a) = None ∨ Some (String a0 a) = Some ""
               ∨ Some (String b0 b) = None ∨ Some (String b0 b) = Some ""))
      as Hcred by (intros [?|[?|[?|?]]]; done).
    destruct file as [| |[|c|]]; simpl; [| |by left| |];
      (destruct (host_enabled config) as [[|]|]; simpl;
       [right; right|right; left|right; right]);
      repeat split; try done; by repeat eexists. }
  clearbody out.
  destruct Hcases as [[HU ->]|[(HU & Hf & ->)|[(HU & Hf & Hen & ->)
                     |(HU & Hf & Hen & pc & fc & timers & name & version & ->)]]].
  - split_and!; [naive_solver..|done].
  - split_and!; [naive_solver..|done].
  - split_and!; [naive_solver..|done].
  - split_and!; [naive_solver..|exact Hstarted].
Qed.

(** X19: started without a readable [config.json] (missing or
    unparsable), the plugin has nothing to watch: every cycle ends after
    the token request, with the state file as it was and no comment
    fetched, answered or recorded. *)
Theorem createPlugin_without_config_file_idles {W} (env : Collaborators W)
    host file pc fc timers name version (s : Sys W) :
  file = ConfigMissing ∨ file = ConfigUnparsable →
  createPlugin host file = Started pc fc timers name version →
  stateFile (pollDocumentComments env pc fc s).2 = stateFile s
  ∧ Forall preliminary (events_since s (pollDocumentComments env pc fc s).2).
Proof.
  intros Hfile Hstart.
  assert (enabled pc = true ∧ indexDocument pc = None ∧ watchedFiles pc = [])
    as (Hen & Hidx & Hwf).
  { destruct (createPlugin_started _ _ _ _ _ _ _ Hstart)
      as (config & fileConfig & _ & Hfields & Hen & _ & _ & _ & _ & _ & Hidx & Hwf).
    destruct Hfile as [-> | ->]; injection Hfields as <-; done. }
  pose proof (pollDocumentComments_outcome env pc fc s Hen) as H.
  unfold cycle_outcome in H.
  destruct (getTenantAccessToken env (appId fc) (appSecret fc) s) as [[token|] s1];
    [|by destruct H as (_ & ?)].
  rewrite resolveWatchedFiles_eq, Hidx, Hwf in H. simpl in H.
  by destruct H as (_ & ?).
Qed.

End TextAndStartup.

(** ** Further concrete runs *)

Ltac in_trace :=
  apply list_elem_of_In; vm_compute; repeat (first [left; reflexivity | right]).

Lemma extractDocLinks_tokens_alphanumeric_witness :
  Forall (λ tok, tok ≠ "" ∧ all_chars is_alnum tok = true) ["ABC123"; "XYZ789"].
Proof. apply (extractDocLinks_tokens_alphanumeric repeated_links). reflexivity. Defined.

Lemma extractFromUrl_plain_and_dangling_witness :
  extractFromUrl "https://x.feishu.cn/docx/ABC123" ["XYZ789"]
  = Some (push_new (exec_all 0 "https://x.feishu.cn/docx/ABC123") ["XYZ789"])
  ∧ extractFromUrl ("https://x.feishu.cn/docx/ABC123" +:+ "%") ["XYZ789"] = None.
Proof.
  split.
  - apply (proj1 (extractFromUrl_plain_and_dangling
                    "https://x.feishu.cn/docx/ABC123" ["XYZ789"])). reflexivity.
  - apply (proj2 (extractFromUrl_plain_and_dangling
                    "https://x.feishu.cn/docx/ABC123" ["XYZ789"])).
Defined.

Lemma exec_all_takes_token_after_keyword_witness :
  exec_all 0 ("DocX" +:+ "/" +:+ "ABC123" +:+ "?from=share")
  = "ABC123" :: exec_all 0 "?from=share".
Proof.
  apply (exec_all_takes_token_after_keyword "DocX" "ABC123" "?from=share").
  - right. left. reflexivity.
  - discriminate.
  - reflexivity.
  - reflexivity.
Defined.

Lemma extractFromUrl_documented_url_witness :
  extractFromUrl ("https://" +:+ "xxx.feishu.cn" +:+ "/" +:+ "docx" +:+ "/"
                  +:+ "IgsgdibZJoWxh4xIuvBcT46InAe") ["XYZ789"]
  = Some (if includes ["XYZ789"] "IgsgdibZJoWxh4xIuvBcT46InAe" then ["XYZ789"]
          else ["XYZ789"] ++ ["IgsgdibZJoWxh4xIuvBcT46InAe"]).
Proof.
  apply (extractFromUrl_documented_url "xxx.feishu.cn" "docx"
           "IgsgdibZJoWxh4xIuvBcT46InAe" ["XYZ789"]);
    first [reflexivity | discriminate].
Defined.

Lemma getTenantAccessToken_cache_witness :
  getTenantAccessToken env_no_token "other_app" "other_secret" cached_boot
  = (Normal "t-cached",
     set_world (Date_now env_no_token (world cached_boot)).2 cached_boot)
  ∧ ((getTenantAccessToken env_accepting "cli_a1" "secret" (boot FileMissing)).1
     = Normal "t-abc"
     ∧ accessToken
         (getTenantAccessToken env_accepting "cli_a1" "secret" (boot FileMissing)).2
       = Some "t-abc"
     ∧ tokenExpiry
         (getTenantAccessToken env_accepting "cli_a1" "secret" (boot FileMissing)).2
       = 1700007140000%float
     ∧ events_since (boot FileMissing)
         (getTenantAccessToken env_accepting "cli_a1" "secret" (boot FileMissing)).2
       = [EvTokenRequest "cli_a1" "secret" token_ok])
  ∧ tokenExpiry
      (getTenantAccessToken env_long_lived "cli_a1" "secret" (boot FileMissing)).2
    = 9007200954740931584%float
  ∧ ((getTenantAccessToken env_no_token "cli_a1" "secret" (boot FileMissing)).1
     = Thrown
     ∧ accessToken
         (getTenantAccessToken env_no_token "cli_a1" "secret" (boot FileMissing)).2
       = None
     ∧ tokenExpiry
         (getTenantAccessToken env_no_token "cli_a1" "secret" (boot FileMissing)).2
       = 0%float
     ∧ events_since (boot FileMissing)
         (getTenantAccessToken env_no_token "cli_a1" "secret" (boot FileMissing)).2
       = [EvTokenRequest "cli_a1" "secret" None]).
Proof.
  split; [|split; [|split]].
  - apply (proj1 (getTenantAccessToken_cache env_no_token "other_app"
                    "other_secret" cached_boot) "t-cached"); reflexivity.
  - exact (proj1 (proj2 (getTenantAccessToken_cache env_accepting "cli_a1"
                           "secret" (boot FileMissing))) eq_refl
             {| token_code := 0; token_msg := "ok";
                tenant_access_token := "t-abc"; expire := 7200 |}
             eq_refl eq_refl).
  - exact (proj1 (proj2 (proj2 (proj1 (proj2 (getTenantAccessToken_cache
             env_long_lived "cli_a1" "secret" (boot FileMissing))) eq_refl
             token_long_lived eq_refl eq_refl)))).
  - apply (proj2 (proj2 (getTenantAccessToken_cache env_no_token "cli_a1"
                           "secret" (boot FileMissing))) eq_refl).
    left. reflexivity.
Defined.

Lemma getWatchedFilesFromIndex_outcome_witness :
  (getWatchedFilesFromIndex env_index_with_links test_client "gone"
     (boot FileMissing)).1 = Normal []
  ∧ (getWatchedFilesFromIndex env_index_denied test_client "idx"
       (boot FileMissing)).1 = Normal []
  ∧ (getWatchedFilesFromIndex env_index_with_links test_client "idx"
       (boot FileMissing)).1 = Normal ["ABC123"; "XYZ789"].
Proof.
  split; [|split].
  - apply (proj1 (proj2 (proj2 (getWatchedFilesFromIndex_outcome
             env_index_with_links test_client "gone" (boot FileMissing))))).
    reflexivity.
  - apply (proj1 (proj2 (proj2 (proj2 (getWatchedFilesFromIndex_outcome
             env_index_denied test_client "idx" (boot FileMissing)))))
             blocks_denied); [reflexivity|discriminate].
  - apply (proj2 (proj2 (proj2 (proj2 (getWatchedFilesFromIndex_outcome
             env_index_with_links test_client "idx" (boot FileMissing)))))
             {| blocks_code := 0; blocks_msg := "success";
                blocks_items := Some repeated_links |}); reflexivity.
Defined.

Lemma resolveWatchedFiles_sources_witness :
  resolveWatchedFiles env_index_with_links watch_docA test_client (boot FileMissing)
  = (Normal ["docA"], boot FileMissing)
  ∧ (resolveWatchedFiles env_index_with_links index_and_list test_client
       (boot FileMissing)).1 = Normal ["ABC123"; "XYZ789"].
Proof.
  split.
  - apply (proj1 (resolveWatchedFiles_sources env_index_with_links watch_docA
                    test_client (boot FileMissing))). by left.
  - apply (proj2 (resolveWatchedFiles_sources env_index_with_links index_and_list
                    test_client (boot FileMissing)) "idx");
      first [reflexivity | discriminate].
Defined.

Lemma pollDocumentComments_aborts_witness :
  pollDocumentComments env_accepting switched_off test_feishu (boot docA_has_c1)
  = (Normal tt, boot docA_has_c1)
  ∧ ((pollDocumentComments env_no_token watch_docA test_feishu
        (boot docA_has_c1)).1 = Thrown
     ∧ stateFile (pollDocumentComments env_no_token watch_docA test_feishu
                    (boot docA_has_c1)).2 = docA_has_c1
     ∧ Forall preliminary
         (events_since (boot docA_has_c1)
            (pollDocumentComments env_no_token watch_docA test_feishu
               (boot docA_has_c1)).2))
  ∧ ((pollDocumentComments env_index_bad_link index_and_list test_feishu
        (boot docA_has_c1)).1 = Thrown
     ∧ stateFile (pollDocumentComments env_index_bad_link index_and_list
                    test_feishu (boot docA_has_c1)).2 = docA_has_c1
     ∧ Forall preliminary
         (events_since (boot docA_has_c1)
            (pollDocumentComments env_index_bad_link index_and_list test_feishu
               (boot docA_has_c1)).2)).
Proof.
  split; [|split].
  - apply (proj1 (pollDocumentComments_aborts env_accepting switched_off
                    test_feishu (boot docA_has_c1))). reflexivity.
  - apply (proj1 (proj2 (pollDocumentComments_aborts env_no_token watch_docA
                           test_feishu (boot docA_has_c1)))); reflexivity.
  - apply (proj2 (proj2 (pollDocumentComments_aborts env_index_bad_link
                           index_and_list test_feishu (boot docA_has_c1)))
             eq_refl "t-abc" "idx"
             {| blocks_code := 0; blocks_msg := "success";
                blocks_items := Some bad_link_blocks |}
             "https://x.feishu.cn/docx/ABC123%");
      try reflexivity.
    by_compute.
Defined.

Lemma cycle_fetches_watch_list_in_order_witness :
  (pollDocumentComments env_docB_down watch_three test_feishu (boot FileMissing)).1
  = Normal tt
  ∧ fetch_tokens
      (events_since (boot FileMissing)
         (pollDocumentComments env_docB_down watch_three test_feishu
            (boot FileMissing)).2)
    = ["docA"; "docB"; "docC"].
Proof.
  apply (cycle_fetches_watch_list_in_order env_docB_down watch_three test_feishu
           (boot FileMissing) "t-abc"); reflexivity.
Defined.

Lemma replies_only_to_open_unrecorded_comments_witness :
  "docx" = "docx"
  ∧ ("c4" ∉ processed_ids (persisted (boot docA_has_c1)) "docA")
  ∧ fetched_open "docA" "c4"
      (events_since (boot docA_has_c1)
         (pollDocumentComments env_accepting watch_docA test_feishu
            (boot docA_has_c1)).2).
Proof.
  apply (replies_only_to_open_unrecorded_comments env_accepting watch_docA
           test_feishu (boot docA_has_c1) "docA" "c4" "Because." "docx" reply_ok).
  in_trace.
Defined.

Lemma at_most_one_accepted_reply_witness :
  accepted_posts "docA" "c1"
    (events_since (boot docA_has_c1)
       (cycles env_accepting 3 watch_docA test_feishu (boot docA_has_c1))) = 0
  ∧ "c4" ∈ processed_ids
             (persisted (cycles env_accepting 3 watch_docA test_feishu
                           (boot docA_has_c1))) "docA".
Proof.
  split.
  - apply (proj1 (at_most_one_accepted_reply env_accepting 3 watch_docA
                    test_feishu (boot docA_has_c1) "docA" "c1")). by_compute.
  - apply (proj2 (proj2 (at_most_one_accepted_reply env_accepting 3 watch_docA
                           test_feishu (boot docA_has_c1) "docA" "c4"))).
    vm_compute. reflexivity.
Defined.

Lemma processed_entries_are_kept_witness :
  (∃ suffix,
     processedComments
       (persisted (pollDocumentComments env_accepting watch_three test_feishu
                     (boot docA_has_c1)).2) !! "docA"
     = Some (["c1"] ++ suffix))
  ∧ processedComments
      (match (forFiles env_accepting test_client ["docB"; "docC"]
                (persisted (boot docA_has_c1)) (boot docA_has_c1)).1 with
       | Normal st' => st'
       | Thrown => persisted (boot docA_has_c1)
       end) !! "docA"
    = processedComments (persisted (boot docA_has_c1)) !! "docA".
Proof.
  split.
  - apply (proj1 (processed_entries_are_kept env_accepting) watch_three
             test_feishu (boot docA_has_c1) "docA" ["c1"]).
    vm_compute. reflexivity.
  - apply (proj2 (processed_entries_are_kept env_accepting) test_client
             ["docB"; "docC"] (persisted (boot docA_has_c1)) (boot docA_has_c1)
             "docA").
    + vm_compute. reflexivity.
    + by_compute.
Defined.

Lemma extractTextFromContent_concatenates_witness :
  extractTextFromContent
    (Some [{| type := "text_run"; content_text_run := Some "ignored" |}]) = ""
  ∧ extractTextFromContent
      (Some [{| type := "textRun"; content_text_run := Some "why?" |}]) = "why?".
Proof.
  split.
  - apply (proj1 (proj2 (proj2 extractTextFromContent_concatenates))).
    left. discriminate.
  - apply (proj2 (proj2 (proj2 extractTextFromContent_concatenates)));
      reflexivity.
Defined.

Lemma createPlugin_start_witness :
  createPlugin (Some host_ok) (ConfigJson ConfigNull) = StartupThrown
  ∧ ∃ fileConfig,
      fields (loadPluginConfig (ConfigJson (ConfigObject every_half_minute)))
      = Some fileConfig
      ∧ enabled half_minute_config = true
      ∧ Some (appId test_feishu) = host_appId host_ok
      ∧ Some (appSecret test_feishu) = host_appSecret host_ok
      ∧ first_run_after_ms half_minute_timers = 10000%float
      ∧ repeat_every_ms half_minute_timers
        = (pollIntervalMinutes half_minute_config * 60 * 1000)%float
      ∧ pollIntervalMinutes half_minute_config
        = default 15%float (file_pollIntervalMinutes fileConfig)
      ∧ indexDocument half_minute_config = file_indexDocument fileConfig
      ∧ watchedFiles half_minute_config = default [] (file_watchedFiles fileConfig).
Proof.
  split.
  - apply (proj2 (proj1 (proj2 (proj2
             (createPlugin_start host_ok (ConfigJson ConfigNull)))))).
    split; [|reflexivity]. intros [H|[H|[H|H]]]; discriminate H.
  - exact (proj2 (proj2 (proj2 (proj2 (proj2
             (createPlugin_start host_ok
                (ConfigJson (ConfigObject every_half_minute)))))))
             half_minute_config test_feishu half_minute_timers
             "feishu-doc-comment" "0.2.0" eq_refl).
Defined.

Lemma createPlugin_without_config_file_idles_witness :
  stateFile (pollDocumentComments env_accepting default_config test_feishu
               (boot docA_has_c1)).2 = docA_has_c1
  ∧ Forall preliminary
      (events_since (boot docA_has_c1)
         (pollDocumentComments env_accepting default_config test_feishu
            (boot docA_has_c1)).2).
Proof.
  apply (createPlugin_without_config_file_idles env_accepting (Some host_ok)
           ConfigMissing default_config test_feishu
           {| first_run_after_ms := 10000; repeat_every_ms := 900000 |}
           "feishu-doc-comment" "0.2.0" (boot docA_has_c1)).
  - by left.
  - reflexivity.
Defined.

Lemma inherited_token_is_not_processed_witness :
  (forFile env_accepting test_client "constructor"
     {| lastPollTime := 0; processedComments := ∅ |} (boot FileMissing)).1
  = Normal {| lastPollTime := 0; processedComments := ∅ |}
  ∧ events_since (boot FileMissing)
      (forFile env_accepting test_client "constructor"
         {| lastPollTime := 0; processedComments := ∅ |} (boot FileMissing)).2
    = [EvGetComments "constructor" "docx" (comments_ok [open_comment]);
       EvConsoleError (ErrorProcessingFile "constructor")].
Proof.
  exact (inherited_token_is_not_processed env_accepting test_client "constructor"
           {| lastPollTime := 0; processedComments := ∅ |} (boot FileMissing)
           {| comments_code := 0; comments_msg := "success";
              comments_items := Some [open_comment] |}
           eq_refl eq_refl eq_refl).
Defined.
